(** * basic-basic: a small BASIC interpreter (lexer, parser, frame-stack engine)

    A shallow embedding of the C++ sources (number.cc, lexer.cc, parser.cc,
    statements.cc, interpreter.cc) and the properties proved about them.

    Conventions of the embedding.
    - [int] is a 32-bit two's complement integer, held in a [Z]; [+], [-]
      and [*] wrap around, [/] and [%] trap where the hardware does.
    - [double] is IEEE-754 binary64, held in a [spec_float] and computed
      with the operations of the standard library's [SpecFloat].
    - A thrown exception is the outcome [Throw]; an operation without a
      defined result (a trap, the front of an empty deque, a null
      pointer, an iterator into a destroyed list, a failed assertion)
      is the outcome [Undefined].
    - Recursion that follows the text (the parser) and the main loop
      are bounded by a number of calls or steps; [OutOfFuel] is the
      outcome when the bound given was too small.
    - The interpreter threads its state through a small state-and-error
      monad, so that the state reached when an exception is thrown stays
      observable (what was printed, what was read). *)

From Stdlib Require Import ZArith String Ascii List Lia Bool.
From Stdlib Require Import SpecFloat.
From stdpp Require Import base option gmap strings list.

Local Open Scope string_scope.

(** ** Outcomes *)

Inductive exception :=
  | lexer_error (what : string)
  | syntax_error (what : string)
  | runtime_error (what : string).

Inductive undefined_behaviour :=
  | integer_division_trap      (* x / 0, x % 0, INT_MIN / -1 *)
  | front_of_empty_deque       (* blocks.front() with blocks.empty() *)
  | null_pointer               (* dereference of a null auto_ptr *)
  | out_of_range               (* v[i] with i >= v.size(), *it with it == end() *)
  | dangling_iterator          (* use of an iterator into a list that is destroyed *)
  | failed_assertion.          (* assert(false): the contract of a constructor is broken *)

Inductive result (A : Type) :=
  | Ok (a : A)
  | Throw (e : exception)
  | Undefined (u : undefined_behaviour)
  | OutOfFuel.
Arguments Ok {A} a.
Arguments Throw {A} e.
Arguments Undefined {A} u.
Arguments OutOfFuel {A}.

Definition result_bind {A B} (m : result A) (k : A -> result B) : result B :=
  match m with
  | Ok a => k a
  | Throw e => Throw e
  | Undefined u => Undefined u
  | OutOfFuel => OutOfFuel
  end.

#[global] Instance result_ret : MRet result := fun A a => Ok a.
#[global] Instance result_mbind : MBind result := fun A B k m => result_bind m k.

(** ** The machine types [int] and [double] *)

Module Int.
Definition min : Z := -2147483648.
Definition max : Z := 2147483647.

Definition in_range (z : Z) : bool := (min <=? z)%Z && (z <=? max)%Z.

(** Reduction of a mathematical result to the 32 bits of an [int]. *)
Definition wrap (z : Z) : Z := ((z + 2147483648) mod 4294967296 - 2147483648)%Z.

Definition add (a b : Z) : Z := wrap (a + b).
Definition sub (a b : Z) : Z := wrap (a - b).
Definition mul (a b : Z) : Z := wrap (a * b).
Definition neg (a : Z) : Z := wrap (- a).

(** [a / b] and [a % b] truncate towards zero; they trap on a zero
    divisor and on [INT_MIN / -1]. *)
Definition div (a b : Z) : result Z :=
  if (b =? 0)%Z then Undefined integer_division_trap
  else if (a =? min)%Z && (b =? -1)%Z then Undefined integer_division_trap
  else Ok (Z.quot a b).

Definition rem (a b : Z) : result Z :=
  if (b =? 0)%Z then Undefined integer_division_trap
  else if (a =? min)%Z && (b =? -1)%Z then Undefined integer_division_trap
  else Ok (Z.rem a b).
End Int.

Definition double : Type := spec_float.

Module Double.
Definition prec : Z := 53.
Definition emax : Z := 1024.

Definition zero : double := S754_zero false.
Definition add : double -> double -> double := SFadd prec emax.
Definition sub : double -> double -> double := SFsub prec emax.
Definition mul : double -> double -> double := SFmul prec emax.
Definition div : double -> double -> double := SFdiv prec emax.
Definition neg : double -> double := SFopp.
Definition fabs : double -> double := SFabs.
Definition ltb : double -> double -> bool := SFltb.
Definition leb : double -> double -> bool := SFleb.

(** Conversion of an [int] to [double]; exact, 32 bits fit in 53. *)
Definition of_int (z : Z) : double := binary_normalize prec emax z 0 false.

(** [m * 2^e] as a [double], rounded to nearest even. *)
Definition of_scaled (m e : Z) : double := binary_normalize prec emax m e false.

(** [std::numeric_limits<double>::epsilon()], that is 2^-52. *)
Definition epsilon : double := of_scaled 1 (-52).

Definition max_value : double := SFmax_float prec emax.

(** [static_cast<int>(d)]: truncation towards zero.  Outside the range
    of [int] (and for NaN and the infinities) the conversion
    instruction yields INT_MIN. *)
Definition truncate (d : double) : Z :=
  match d with
  | S754_finite s m e =>
      let magnitude :=
        match e with
        | Z0 => Zpos m
        | Zpos _ => Z.shiftl (Zpos m) e
        | Zneg _ => Z.shiftr (Zpos m) (- e)
        end in
      if s then (- magnitude)%Z else magnitude
  | _ => 0%Z
  end.

Definition to_int (d : double) : Z :=
  match d with
  | S754_zero _ => 0%Z
  | S754_finite _ _ _ =>
      let t := truncate d in if Int.in_range t then t else Int.min
  | S754_infinity _ | S754_nan => Int.min
  end.
End Double.

(** ** number.cc *)

Record number := {
  integral_value : Z;
  floating_point_value : double;
  integral : bool
}.

Module Number.
(** [number::number()] *)
Definition default : number :=
  {| integral_value := 0; floating_point_value := Double.zero; integral := true |}.

(** [number::number(int value)] *)
Definition of_int (value : Z) : number :=
  {| integral_value := value;
     floating_point_value := Double.of_int value;
     integral := true |}.

(** [number::number(double value)] *)
Definition of_double (value : double) : number :=
  {| integral_value := Double.to_int value;
     floating_point_value := value;
     integral := false |}.

(** A [bool] converts to [number] through [int]. *)
Definition of_bool (b : bool) : number := of_int (if b then 1 else 0).

Definition get_integral_value (n : number) : Z := integral_value n.
Definition get_floating_point_value (n : number) : double := floating_point_value n.
Definition is_integral (n : number) : bool := integral n.

(** [number::is_true] *)
Definition is_true (n : number) : bool :=
  (integral n && negb (integral_value n =? 0)%Z)
  || Double.leb Double.epsilon (Double.fabs (floating_point_value n)).

(** [number::check_and_promote]: the flag left in [this]. *)
Definition check_and_promote (this other : number) : bool :=
  if is_integral this && is_integral other then true else false.

(** [number::operator +=] *)
Definition add_assign (this rhs : number) : number :=
  {| integral_value := Int.add (integral_value this) (integral_value rhs);
     floating_point_value := Double.add (floating_point_value this) (floating_point_value rhs);
     integral := check_and_promote this rhs |}.

(** [number::operator -=] *)
Definition sub_assign (this rhs : number) : number :=
  {| integral_value := Int.sub (integral_value this) (integral_value rhs);
     floating_point_value := Double.sub (floating_point_value this) (floating_point_value rhs);
     integral := check_and_promote this rhs |}.

(** [number::operator *=] *)
Definition mul_assign (this rhs : number) : number :=
  {| integral_value := Int.mul (integral_value this) (integral_value rhs);
     floating_point_value := Double.mul (floating_point_value this) (floating_point_value rhs);
     integral := check_and_promote this rhs |}.

(** [number::operator /=].  The remainder is only computed when both
    sides are integral ([&&] short-circuits); the integer quotient is
    computed in every case. *)
Definition div_assign (this rhs : number) : result number :=
  if negb (get_integral_value rhs =? 0)%Z then
    flag ←
      (if is_integral this && is_integral rhs then
         r ← Int.rem (integral_value this) (integral_value rhs);
         mret (r =? 0)%Z
       else mret false);
    q ← Int.div (integral_value this) (integral_value rhs);
    mret {| integral_value := q;
            floating_point_value :=
              Double.div (floating_point_value this) (floating_point_value rhs);
            integral := flag |}
  else Throw (runtime_error "Division by zero").

(** [number::operator %=] *)
Definition mod_assign (this rhs : number) : result number :=
  if is_integral this && is_integral rhs then
    r ← Int.rem (integral_value this) (get_integral_value rhs);
    mret {| integral_value := r;
            floating_point_value := Double.of_int r;
            integral := integral this |}
  else Throw (runtime_error "Modulo operation is only defined on whole number types.").

(** Unary minus. *)
Definition neg (num : number) : number :=
  if is_integral num then of_int (Int.neg (get_integral_value num))
  else of_double (Double.neg (get_floating_point_value num)).

(** The binary operators copy the left operand and apply the
    compound assignment. *)
Definition add (lhs rhs : number) : number := add_assign lhs rhs.
Definition sub (lhs rhs : number) : number := sub_assign lhs rhs.
Definition mul (lhs rhs : number) : number := mul_assign lhs rhs.
Definition div (lhs rhs : number) : result number := div_assign lhs rhs.

(** [operator ==] *)
Definition eqb (lhs rhs : number) : bool :=
  if is_integral lhs && is_integral rhs then
    (get_integral_value lhs =? get_integral_value rhs)%Z
  else
    Double.ltb
      (Double.fabs (Double.sub (get_floating_point_value lhs) (get_floating_point_value rhs)))
      Double.epsilon.

(** [operator !=] *)
Definition neqb (lhs rhs : number) : bool := negb (eqb lhs rhs).

(** [operator <] *)
Definition ltb (lhs rhs : number) : bool :=
  if is_integral lhs && is_integral rhs then
    (get_integral_value lhs <? get_integral_value rhs)%Z
  else Double.ltb (get_floating_point_value lhs) (get_floating_point_value rhs).

(** [operator <=] *)
Definition leb (lhs rhs : number) : bool := ltb lhs rhs || eqb lhs rhs.

(** [operator >] *)
Definition gtb (lhs rhs : number) : bool := negb (leb lhs rhs).

(** [operator >=] *)
Definition geb (lhs rhs : number) : bool := negb (ltb lhs rhs).
End Number.


(** ** Characters and text

    [char] is the eight-bit [ascii]; the [int] returned by
    [istream::peek] and [istream::get] is a [Z], with [eof] = -1. *)

Definition eof : Z := -1.

Definition int_of_uchar (c : ascii) : Z := Z.of_N (N_of_ascii c).

(** [char] is signed: bytes 128..255 promote to negative values. *)
Definition int_of_char (c : ascii) : Z :=
  let n := int_of_uchar c in if (n <? 128)%Z then n else (n - 256)%Z.

(** Conversion of an [int] to [char] keeps the low eight bits. *)
Definition char_of_int (i : Z) : ascii := ascii_of_N (Z.to_N (i mod 256)).

Definition char_eqb (a b : ascii) : bool := Ascii.eqb a b.

(** <cctype> in the "C" locale. *)
Definition isdigit (c : Z) : bool := (48 <=? c)%Z && (c <=? 57)%Z.
Definition isupper (c : Z) : bool := (65 <=? c)%Z && (c <=? 90)%Z.
Definition islower (c : Z) : bool := (97 <=? c)%Z && (c <=? 122)%Z.
Definition isalpha (c : Z) : bool := isupper c || islower c.
Definition isalnum (c : Z) : bool := isalpha c || isdigit c.
Definition isspace (c : Z) : bool := (c =? 32)%Z || ((9 <=? c)%Z && (c <=? 13)%Z).

Definition tolower (c : ascii) : ascii :=
  let n := int_of_uchar c in if isupper n then char_of_int (n + 32) else c.

Fixpoint to_lower (s : string) : string :=
  match s with
  | EmptyString => EmptyString
  | String c r => String (tolower c) (to_lower r)
  end.

Definition string_is_empty (s : string) : bool :=
  match s with EmptyString => true | String _ _ => false end.

(** [s.find(c) != npos] *)
Fixpoint string_contains (c : ascii) (s : string) : bool :=
  match s with
  | EmptyString => false
  | String d r => char_eqb c d || string_contains c r
  end.

(** [*s.rbegin()] of a non-empty string. *)
Fixpoint string_last (s : string) : option ascii :=
  match s with
  | EmptyString => None
  | String c EmptyString => Some c
  | String _ r => string_last r
  end.

Definition digit_char (d : Z) : ascii := char_of_int (48 + d).
Definition digit_value (c : ascii) : Z := (int_of_uchar c - 48)%Z.

(** *** Formatted output of an [int] *)

Fixpoint decimal_digits (fuel : nat) (n : Z) (acc : string) : string :=
  match fuel with
  | O => acc
  | S fuel' =>
      let acc' := String (digit_char (n mod 10)) acc in
      if (n / 10 =? 0)%Z then acc' else decimal_digits fuel' (n / 10) acc'
  end.

Definition string_of_nonneg (n : Z) : string :=
  decimal_digits (S (Z.to_nat (Z.log2 n))) n "".

(** [os << i] for an [int] or a [size_t]-like count. *)
Definition string_of_int (i : Z) : string :=
  if (i <? 0)%Z then "-" ++ string_of_nonneg (- i) else string_of_nonneg i.

(** *** Formatted output of a [double] under [std::showpoint]

    [os << std::showpoint << d] with the stream's defaults (no
    floatfield flag, precision 6) formats as printf's [%#.6g]: six
    significant digits, rounded to nearest even on the exact binary
    value; fixed notation when the decimal exponent X satisfies
    -4 <= X < 6, scientific otherwise; trailing zeros and the decimal
    point are kept. *)

Definition significant_digits : Z := 6.

(** The exact value of a finite double as a fraction of positive integers. *)
Definition double_fraction (m : positive) (e : Z) : Z * Z :=
  match e with
  | Z0 => (Zpos m, 1%Z)
  | Zpos _ => (Z.shiftl (Zpos m) e, 1%Z)
  | Zneg _ => (Zpos m, Z.shiftl 1 (- e))
  end.

(** Does [10^x <= num/den] hold? *)
Definition pow10_le (x num den : Z) : bool :=
  if (0 <=? x)%Z then (10 ^ x * den <=? num)%Z else (den <=? num * 10 ^ (- x))%Z.

(** The decimal exponent: the largest [x] with [10^x <= num/den]. *)
Fixpoint exponent_up (fuel : nat) (x num den : Z) : Z :=
  match fuel with
  | O => x
  | S fuel' => if pow10_le (x + 1) num den then exponent_up fuel' (x + 1) num den else x
  end.

Fixpoint exponent_down (fuel : nat) (x num den : Z) : Z :=
  match fuel with
  | O => x
  | S fuel' => if pow10_le x num den then x else exponent_down fuel' (x - 1) num den
  end.

Definition decimal_exponent (num den : Z) : Z :=
  if pow10_le 0 num den then exponent_up 400 0 num den else exponent_down 400 (-1) num den.

(** [num/den] rounded to the nearest integer, ties to even. *)
Definition round_half_even (num den : Z) : Z :=
  let q := (num / den)%Z in
  let r := (num mod den)%Z in
  match (2 * r ?= den)%Z with
  | Lt => q
  | Gt => (q + 1)%Z
  | Eq => if Z.even q then q else (q + 1)%Z
  end.

(** The six significant digits [d] and the exponent [x] of the rounded value. *)
Definition decimal_round (num den : Z) : Z * Z :=
  let x := decimal_exponent num den in
  let shift := (x - (significant_digits - 1))%Z in
  let d :=
    if (0 <=? shift)%Z then round_half_even num (den * 10 ^ shift)
    else round_half_even (num * 10 ^ (- shift)) den in
  if (d =? 10 ^ significant_digits)%Z then (10 ^ (significant_digits - 1), x + 1)%Z else (d, x).

Fixpoint zeros (n : nat) : string :=
  match n with O => "" | S n' => String "0" (zeros n') end.

Definition pad2 (s : string) : string :=
  if (String.length s <? 2)%nat then "0" ++ s else s.

Definition show_digits (d x : Z) : string :=
  let ds := string_of_nonneg d in
  if ((-4 <=? x)%Z && (x <? significant_digits)%Z) then
    if (0 <=? x)%Z then
      let k := Z.to_nat (x + 1) in
      substring 0 k ds ++ "." ++ substring k (String.length ds - k) ds
    else "0." ++ zeros (Z.to_nat (- x - 1)) ++ ds
  else
    substring 0 1 ds ++ "." ++ substring 1 (String.length ds - 1) ds
      ++ "e" ++ (if (x <? 0)%Z then "-" else "+") ++ pad2 (string_of_nonneg (Z.abs x)).

Definition show_double (d : double) : string :=
  match d with
  | S754_nan => "nan"
  | S754_infinity s => if s then "-inf" else "inf"
  | S754_zero s => (if s then "-" else "") ++ "0." ++ zeros (Z.to_nat (significant_digits - 1))
  | S754_finite s m e =>
      let '(num, den) := double_fraction m e in
      let '(digits, x) := decimal_round num den in
      (if s then "-" else "") ++ show_digits digits x
  end.

(** [operator << (std::ostream&, number const&)] *)
Definition show_number (num : number) : string :=
  if Number.is_integral num then string_of_int (Number.get_integral_value num)
  else show_double (Number.get_floating_point_value num).

(** *** Formatted input from a [std::istringstream]

    [is >> i] for an [int] skips leading white space, accepts an
    optional sign and then the longest run of decimal digits, and leaves
    the rest of the text unread.  Without a digit the extraction fails
    and stores 0; a value outside the range of [int] fails as well and
    stores the nearest bound. *)

Fixpoint skip_spaces (s : string) : string :=
  match s with
  | String c r => if isspace (int_of_uchar c) then skip_spaces r else s
  | EmptyString => s
  end.

Fixpoint digit_run (s : string) : string :=
  match s with
  | String c r => if isdigit (int_of_uchar c) then String c (digit_run r) else ""
  | EmptyString => ""
  end.

Fixpoint decimal_value (s : string) (acc : Z) : Z :=
  match s with
  | String c r => decimal_value r (10 * acc + digit_value c)
  | EmptyString => acc
  end.

Record extraction (A : Type) := { stored : A; succeeded : bool }.
Arguments stored {A} _.
Arguments succeeded {A} _.

Definition extract_int (text : string) : extraction Z :=
  let s := skip_spaces text in
  let '(negative, s) :=
    match s with
    | String c r =>
        if char_eqb c "-" then (true, r)
        else if char_eqb c "+" then (false, r)
        else (false, s)
    | EmptyString => (false, s)
    end in
  let digits := digit_run s in
  if string_is_empty digits then {| stored := 0%Z; succeeded := false |}
  else
    let magnitude := decimal_value digits 0 in
    let v := if negative then (- magnitude)%Z else magnitude in
    if (v <? Int.min)%Z then {| stored := Int.min; succeeded := false |}
    else if (Int.max <? v)%Z then {| stored := Int.max; succeeded := false |}
    else {| stored := v; succeeded := true |}.

(** [is >> d] for a [double], on the text of a number lexeme (digits,
    then optionally a point and digits): the decimal value, correctly
    rounded; beyond the largest double the extraction fails and stores
    that largest value. *)
Definition extract_double (text : string) : extraction double :=
  let whole := digit_run text in
  let rest := substring (String.length whole) (String.length text - String.length whole) text in
  let fraction := match rest with String "." r => digit_run r | _ => "" end in
  if string_is_empty whole && string_is_empty fraction then
    {| stored := Double.zero; succeeded := false |}
  else
    let digits := decimal_value (whole ++ fraction) 0 in
    let scale := (10 ^ Z.of_nat (String.length fraction))%Z in
    match digits with
    | Zpos m =>
        match Double.div (S754_finite false m 0) (S754_finite false (Z.to_pos scale) 0) with
        | S754_infinity _ => {| stored := Double.max_value; succeeded := false |}
        | d => {| stored := d; succeeded := true |}
        end
    | _ => {| stored := Double.zero; succeeded := true |}
    end.


(** ** lexer.cc *)

Inductive e_type := type_word | type_symbol | type_number | type_string | type_end.

Definition e_type_eqb (a b : e_type) : bool :=
  match a, b with
  | type_word, type_word | type_symbol, type_symbol | type_number, type_number
  | type_string, type_string | type_end, type_end => true
  | _, _ => false
  end.

Record physical_location_t := {
  loc_filename : string;
  loc_line : Z;
  loc_column : Z
}.

Record lexeme := {
  physical_location : physical_location_t;
  type : e_type;
  value : string
}.

(** [value.find_first_not_of('0')]: the text from the first character
    that is not a zero, when there is one. *)
Fixpoint from_first_nonzero (s : string) : option string :=
  match s with
  | EmptyString => None
  | String c r => if char_eqb c "0" then from_first_nonzero r else Some s
  end.

(** [lexeme::lexeme]: words are lowered, numbers lose their leading zeros. *)
Definition make_lexeme (what : e_type) (text file : string) (ln col : Z) : lexeme :=
  let text' :=
    match what with
    | type_word => to_lower text
    | type_number =>
        match text with
        | String "0" (String _ _) =>
            match from_first_nonzero text with
            | Some rest => rest
            | None => text
            end
        | _ => text
        end
    | _ => text
    end in
  {| physical_location := {| loc_filename := file; loc_line := ln; loc_column := col |};
     type := what; value := text' |}.

(** The state of the [std::istream] the lexer reads: the text not yet
    extracted and the stream's state bits.  [peek] at the end of the
    text sets eofbit; any input function called when the stream is not
    good sets failbit; the stream tests false once failbit is set. *)
Inductive iostate := goodbit | eofbit | failbit.

Record lexer := {
  source : string;
  source_state : iostate;
  filename : string;
  line : Z;
  column : Z
}.

Definition make_lexer (text file : string) : lexer :=
  {| source := text; source_state := goodbit; filename := file; line := 1; column := 0 |}.

Definition with_source (l : lexer) (text : string) (st : iostate) : lexer :=
  {| source := text; source_state := st; filename := filename l; line := line l; column := column l |}.

Definition with_position (l : lexer) (ln col : Z) : lexer :=
  {| source := source l; source_state := source_state l; filename := filename l;
     line := ln; column := col |}.

Definition advance_column (l : lexer) : lexer := with_position l (line l) (column l + 1).

(** [if (source)] *)
Definition source_ok (l : lexer) : bool :=
  match source_state l with failbit => false | _ => true end.

(** [source.peek()] *)
Definition peek (l : lexer) : Z * lexer :=
  match source_state l with
  | goodbit =>
      match source l with
      | String c _ => (int_of_uchar c, l)
      | EmptyString => (eof, with_source l "" eofbit)
      end
  | _ => (eof, with_source l (source l) failbit)
  end.

(** [source.get()] *)
Definition get (l : lexer) : Z * lexer :=
  match source_state l with
  | goodbit =>
      match source l with
      | String c r => (int_of_uchar c, with_source l r goodbit)
      | EmptyString => (eof, with_source l "" failbit)
      end
  | _ => (eof, with_source l (source l) failbit)
  end.

Definition quote : ascii := "034"%char.

Definition WHITESPACE : list ascii := [" "%char; "009"%char].
Definition SIMPLE_SYMBOLS : list ascii :=
  ["+"; "-"; "*"; "/"; "&"; "="; ":"; ","; "("; ")"]%char.

(** [std::find(first, last, c) != last] *)
Definition found (c : ascii) (table : list ascii) : bool := existsb (char_eqb c) table.

(** Every loop of the lexer extracts one character per round, so the
    length of the remaining text (plus the rounds that only meet the
    end of the text) bounds the number of rounds. *)
Definition rounds (l : lexer) : nat := S (S (String.length (source l))).

(** [lexer::skip_whitespace] *)
Fixpoint skip_whitespace_loop (fuel : nat) (l : lexer) : lexer :=
  match fuel with
  | O => l
  | S fuel' =>
      if source_ok l then
        let '(next, l) := peek l in
        if negb (found (char_of_int next) WHITESPACE) then l
        else
          let '(_, l) := get l in
          skip_whitespace_loop fuel' (advance_column l)
      else l
  end.

Definition skip_whitespace (l : lexer) : lexer := skip_whitespace_loop (rounds l) l.

(** [lexer::extract_until(pred)] *)
Fixpoint extract_until_loop (fuel : nat) (pred : Z -> bool) (result : string) (l : lexer)
  : string * lexer :=
  match fuel with
  | O => (result, l)
  | S fuel' =>
      if source_ok l then
        let '(next, l) := peek l in
        if pred next then (result, l)
        else
          let '(c, l) := get l in
          extract_until_loop fuel' pred (result ++ String (char_of_int c) "") (advance_column l)
      else (result, l)
  end.

Definition extract_until (pred : Z -> bool) (l : lexer) : string * lexer :=
  extract_until_loop (rounds l) pred "" l.

(** [isalphanum]: [isalnum], or one of [_] and [$]. *)
Definition isalphanum (c : Z) : bool := isalnum c || (c =? 95)%Z || (c =? 36)%Z.

Definition is_not_digit (c : Z) : bool := negb (isdigit c).
Definition is_not_alnum (c : Z) : bool := negb (isalphanum c).

(** [extract_until(char what)]: the peeked [int] is converted to [char]
    before the comparison. *)
Definition is_char (what : ascii) (c : Z) : bool := char_eqb (char_of_int c) what.

(** [lexer::ignore_line] *)
Fixpoint ignore_line_loop (fuel : nat) (l : lexer) : lexer :=
  match fuel with
  | O => l
  | S fuel' =>
      if source_ok l then
        let '(next, l) := peek l in
        if (next =? 10)%Z then l
        else
          let '(_, l) := get l in
          ignore_line_loop fuel' (advance_column l)
      else l
  end.

Definition ignore_line (l : lexer) : lexer := ignore_line_loop (rounds l) l.

(** The loop of [get_lexeme] that folds a run of blank lines. *)
Fixpoint blank_lines_loop (fuel : nat) (l : lexer) : lexer :=
  match fuel with
  | O => l
  | S fuel' =>
      let '(next, l) := peek l in
      if (next =? 10)%Z then
        let '(_, l) := get l in
        blank_lines_loop fuel' (skip_whitespace (with_position l (line l + 1) 0))
      else l
  end.

Definition here (l : lexer) (what : e_type) (text : string) : lexeme :=
  make_lexeme what text (filename l) (line l) (column l).

(** [lexer::get_lexeme] *)
Definition get_lexeme (l : lexer) : result (option lexeme * lexer) :=
  let l := skip_whitespace l in
  if source_ok l then
    let '(pk, l) := peek l in
    let next_char := char_of_int pk in
    if negb (int_of_char next_char =? eof)%Z then
      if isdigit (int_of_char next_char) then
        let '(whole_part, l) := extract_until is_not_digit l in
        let '(pk, l) := peek l in
        if (pk =? 46)%Z then
          let '(_, l) := get l in
          let l := advance_column l in
          let '(decimal_part, l) := extract_until is_not_digit l in
          Ok (Some (here l type_number (whole_part ++ "." ++ decimal_part)), l)
        else Ok (Some (here l type_number whole_part), l)
      else if char_eqb next_char quote then
        let '(_, l) := get l in
        let l := advance_column l in
        let '(text, l) := extract_until (is_char quote) l in
        let result := here l type_string text in
        let '(_, l) := get l in
        Ok (Some result, advance_column l)
      else if found next_char SIMPLE_SYMBOLS then
        let '(c, l) := get l in
        let l := advance_column l in
        Ok (Some (here l type_symbol (String (char_of_int c) "")), l)
      else if char_eqb next_char "<" || char_eqb next_char ">" then
        let '(_, l) := get l in
        let l := advance_column l in
        let '(pk1, l) := peek l in
        let '(pk2, l) := (if (pk1 =? 62)%Z then (pk1, l) else peek l) in
        if (pk1 =? 62)%Z || (pk2 =? 61)%Z then
          let '(c, l) := get l in
          let second_char := char_of_int c in
          let l := advance_column l in
          if char_eqb second_char "=" || (char_eqb next_char "<" && char_eqb second_char ">") then
            Ok (Some (here l type_symbol (String next_char (String second_char ""))), l)
          else
            Throw (lexer_error ("Invalid operator: " ++ String next_char (String second_char "")))
        else Ok (Some (here l type_symbol (String next_char "")), l)
      else if char_eqb next_char "010" then
        let l := blank_lines_loop (rounds l) l in
        Ok (Some (here l type_end ""), l)
      else if isalpha (int_of_char next_char) then
        let '(text, l) := extract_until is_not_alnum l in
        Ok (Some (here l type_word text), l)
      else
        let '(pk1, l) := peek l in
        let '(pk2, l) := peek l in
        Throw (lexer_error ("Invalid character at input: '" ++ String (char_of_int pk1) ""
                            ++ "' (" ++ string_of_int pk2 ++ ")"))
    else Ok (None, l)
  else Ok (None, l).


(** ** statements.hh: the program tree

    [statement] is the base class, [block_statement] the statements with
    a body that the engine re-enters ([do_stmt], [for_stmt]).  A
    [for_stmt] object has two mutable members, [final_value] and [step];
    they live in the interpreter's store, under the address of the
    object.  A [block] is its statement list and its jump table.  The
    table keeps [std::list] iterators: such an iterator is the position
    of a statement in the list it points into, as long as that list is
    alive, and it dangles when the list has been destroyed. *)

Inductive arith_operator :=
  operator_plus | operator_minus | operator_times | operator_divides | operator_modulo.

Inductive relational_operator :=
  | operator_equals | operator_doesnt_equal | operator_less_than | operator_less_equal
  | operator_greater_than | operator_greater_equal.

Inductive boolean_operator := operator_and | operator_or | operator_not.

#[warnings="-register-all"]
Inductive numeric_expr :=
  | constant_expr (value : number)
  | variable_expr (name : string)
  | arith_expr (left_side right_side : numeric_expr) (op : arith_operator)
  | relational_expr (left_side right_side : numeric_expr) (op : relational_operator)
  | boolean_expr (left_side : numeric_expr) (right_side : option numeric_expr)
      (op : boolean_operator).

Inductive string_expr :=
  | string_concat_expr (lhs rhs : string_expr)
  | string_variable_expr (var_name : string)
  | string_literal_expr (value : string).

Inductive printable_expr :=
  | printable_string (e : string_expr)
  | printable_numeric (e : numeric_expr).

Inductive list_iterator :=
  | at_position (position : nat)
  | dangling.

Inductive statement :=
  | if_goto_stmt (condition : numeric_expr) (then_label else_label : string)
  | if_block_stmt (conditions : list numeric_expr) (blocks : list block)
  | block_stmt (s : block_statement)
  | print_stmt (expressions : list printable_expr)
  | input_stmt (var_name : string)
  | let_stmt (var_name : string) (value : numeric_expr + string_expr)
  | goto_stmt (label : string)
  | stop_stmt
  | exit_stmt (what : string)
  | empty_stmt
with block_statement :=
  | do_stmt (condition : numeric_expr) (body : block)
  | for_stmt (address : nat) (variable_name : string)
      (initial_expression final_expression step_expression : numeric_expr) (body : block)
with block :=
  | Block (statements : list statement) (jump_table : gmap string list_iterator).

Definition statements (b : block) : list statement :=
  match b with Block l _ => l end.

Definition jump_table (b : block) : gmap string list_iterator :=
  match b with Block _ t => t end.

(** The implicit copy constructor of [block], for a copy that outlives
    its original: the list is copied (its elements are shared
    pointers, the statements are not copied), the table is copied as it
    is, so its iterators still point into the list of the original, and
    they dangle when the original is destroyed.  The constructors of
    [do_stmt], [for_stmt] and [if_block_stmt] keep such copies of the
    local blocks of the parser. *)
Definition copy_block (b : block) : block :=
  Block (statements b) ((fun _ => dangling) <$> jump_table b).

(** [block_statement::get_name] *)
Definition get_name (s : block_statement) : string :=
  match s with
  | do_stmt _ _ => "do"
  | for_stmt _ _ _ _ _ _ => "for"
  end.

(** [std::map::insert]: the table keeps the entry it already has. *)
Definition map_insert {V} (key : string) (v : V) (m : gmap string V) : gmap string V :=
  match m !! key with
  | Some _ => m
  | None => <[key := v]> m
  end.

(** ** parser.cc *)

(** [is_string_identifier] *)
Definition is_string_identifier (identifier : string) : bool :=
  match string_last identifier with
  | Some c => char_eqb c "$"
  | None => false
  end.

(** The state of the parser: the lexer it pulls from, the one lexeme of
    look-ahead, and the number of [for_stmt] objects created so far (the
    next one gets that number as its address). *)
Record parser := {
  lex : lexer;
  next_symbol : option lexeme;
  allocated : nat
}.

Definition parsing (A : Type) : Type := parser -> result (A * parser).

#[global] Instance parsing_ret : MRet parsing := fun A a p => Ok (a, p).
#[global] Instance parsing_bind : MBind parsing :=
  fun A B k m p =>
    match m p with
    | Ok (a, p') => k a p'
    | Throw e => Throw e
    | Undefined u => Undefined u
    | OutOfFuel => OutOfFuel
    end.

Definition throw {A} (e : exception) : parsing A := fun _ => Throw e.
Definition undefined {A} (u : undefined_behaviour) : parsing A := fun _ => Undefined u.
Definition out_of_fuel {A} : parsing A := fun _ => OutOfFuel.
Definition peek_symbol : parsing (option lexeme) := fun p => Ok (next_symbol p, p).

Definition BLOCK_TERMINATORS : list string := ["end"; "else"; "elseif"; "next"; "loop"].

Definition to_string (what : e_type) : string :=
  match what with
  | type_end => "end of line"
  | type_number => "integral literal"
  | type_string => "string literal"
  | type_symbol => "operator"
  | type_word => "identifier or keyword"
  end.

(** [next_symbol = lexer.get_lexeme()] *)
Definition read_symbol : parsing unit :=
  fun p =>
    '(x, l) ← get_lexeme (lex p);
    Ok (tt, {| lex := l; next_symbol := x; allocated := allocated p |}).

(** [accept(lexer)]: unconditionally take what is in the stream. *)
Definition accept_any : parsing (option lexeme) :=
  result ← peek_symbol;
  _ ← read_symbol;
  mret result.

Definition matches (what : e_type) (text : option string) (x : lexeme) : bool :=
  e_type_eqb (type x) what
  && match text with
     | None => true
     | Some v => String.eqb (value x) v
     end.

(** [accept(lexer, what, value)] *)
Definition accept (what : e_type) (text : option string) : parsing (option lexeme) :=
  next ← peek_symbol;
  match next with
  | Some x => if matches what text x then accept_any else mret None
  | None => mret None
  end.

(** [error(what, where)] *)
Definition error (what : string) (where_ : option lexeme) : exception :=
  syntax_error
    (match where_ with
     | Some x =>
         loc_filename (physical_location x) ++ ", line "
           ++ string_of_int (loc_line (physical_location x)) ++ ", column "
           ++ string_of_int (loc_column (physical_location x)) ++ ": "
     | None => ""
     end ++ what).

(** [expect(lexer, type, value)] *)
Definition expect (what : e_type) (text : option string) : parsing lexeme :=
  x ← accept what text;
  match x with
  | Some x => mret x
  | None =>
      got ← accept_any;
      throw (error
               ("Expected " ++ match text with Some v => v | None => to_string what end
                  ++ ", got "
                  ++ match got with
                     | Some g =>
                         match text with
                         | Some _ => value g
                         | None => to_string (type g)
                         end
                     | None => "end of input"
                     end)
               got)
  end.

Definition is_Some_b {A} (x : option A) : bool :=
  match x with Some _ => true | None => false end.

Definition symbol (text : string) : parsing (option lexeme) := accept type_symbol (Some text).
Definition word (text : string) : parsing (option lexeme) := accept type_word (Some text).

(** *** Expressions

    The recursive-descent functions call one another; [fuel] bounds the
    depth of the calls. *)

(** The constant of a number lexeme, as [parse_factor] builds it:
    [sign * value] with the value extracted as [int] when the text has
    no point and as [double] otherwise. *)
Definition literal_constant (sign : Z) (text : string) : number :=
  if negb (string_contains "." text) then
    Number.of_int (Int.mul sign (stored (extract_int text)))
  else
    Number.of_double (Double.mul (Double.of_int sign) (stored (extract_double text))).

Fixpoint parse_factor (fuel : nat) : parsing numeric_expr :=
  match fuel with
  | O => out_of_fuel
  | S fuel =>
      minus ← symbol "-";
      let sign := match minus with Some _ => (-1)%Z | None => 1%Z end in
      x ← accept type_number None;
      match x with
      | Some x => mret (constant_expr (literal_constant sign (value x)))
      | None =>
      x ← accept type_word None;
      match x with
      | Some x =>
          if negb (is_string_identifier (value x)) then
            if (0 <? sign)%Z then mret (variable_expr (value x))
            else mret (arith_expr (constant_expr (Number.of_int (-1)))
                                  (variable_expr (value x)) operator_times)
          else throw (error "String identifier in numeric expression" (Some x))
      | None =>
      x ← symbol "(";
      match x with
      | Some _ =>
          sub_expression ← parse_numeric_expr fuel;
          _ ← expect type_symbol (Some ")");
          mret sub_expression
      | None =>
      x ← accept type_string None;
      match x with
      | Some x => throw (error "String literal in numeric expression" (Some x))
      | None =>
          x ← accept_any;
          throw (error "Expected an integral constant, a variable name, or an opening parenthesis" x)
      end end end end
  end

with parse_term (fuel : nat) : parsing numeric_expr :=
  match fuel with
  | O => out_of_fuel
  | S fuel =>
      left_side ← parse_factor fuel;
      x ← symbol "*";
      match x with
      | Some _ =>
          right_side ← parse_factor fuel;
          mret (arith_expr left_side right_side operator_times)
      | None =>
      x ← symbol "/";
      match x with
      | Some _ =>
          right_side ← parse_factor fuel;
          mret (arith_expr left_side right_side operator_divides)
      | None =>
      x ← word "mod";
      match x with
      | Some _ =>
          right_side ← parse_factor fuel;
          mret (arith_expr left_side right_side operator_modulo)
      | None => mret left_side
      end end end
  end

with parse_integer_expr (fuel : nat) : parsing numeric_expr :=
  match fuel with
  | O => out_of_fuel
  | S fuel =>
      left_side ← parse_term fuel;
      x ← symbol "+";
      match x with
      | Some _ =>
          right_side ← parse_integer_expr fuel;
          mret (arith_expr left_side right_side operator_plus)
      | None =>
      x ← symbol "-";
      match x with
      | Some _ =>
          right_side ← parse_integer_expr fuel;
          mret (arith_expr left_side right_side operator_minus)
      | None => mret left_side
      end end
  end

with parse_relational_expr (fuel : nat) : parsing numeric_expr :=
  match fuel with
  | O => out_of_fuel
  | S fuel =>
      left_side ← parse_integer_expr fuel;
      let continue (op : relational_operator) : parsing numeric_expr :=
        right_side ← parse_integer_expr fuel;
        mret (relational_expr left_side right_side op) in
      x ← symbol "=";
      match x with Some _ => continue operator_equals | None =>
      x ← symbol "<>";
      match x with Some _ => continue operator_doesnt_equal | None =>
      x ← symbol "<";
      match x with Some _ => continue operator_less_than | None =>
      x ← symbol "<=";
      match x with Some _ => continue operator_less_equal | None =>
      x ← symbol ">";
      match x with Some _ => continue operator_greater_than | None =>
      x ← symbol ">=";
      match x with Some _ => continue operator_greater_equal | None =>
      mret left_side
      end end end end end end
  end

with parse_numeric_expr (fuel : nat) : parsing numeric_expr :=
  match fuel with
  | O => out_of_fuel
  | S fuel =>
      x ← word "not";
      match x with
      | Some _ =>
          left_side ← parse_numeric_expr fuel;
          mret (boolean_expr left_side None operator_not)
      | None =>
          left_side ← parse_relational_expr fuel;
          let continue (op : boolean_operator) : parsing numeric_expr :=
            right_side ← parse_integer_expr fuel;
            mret (boolean_expr left_side (Some right_side) op) in
          x ← word "and";
          match x with Some _ => continue operator_and | None =>
          x ← word "or";
          match x with Some _ => continue operator_or | None =>
          mret left_side
          end end
      end
  end.

Fixpoint parse_string_atom (fuel : nat) : parsing string_expr :=
  match fuel with
  | O => out_of_fuel
  | S fuel =>
      x ← accept type_string None;
      match x with
      | Some x => mret (string_literal_expr (value x))
      | None =>
      x ← accept type_word None;
      match x with
      | Some x =>
          if is_string_identifier (value x) then mret (string_variable_expr (value x))
          else throw (error "Expected a string identifier" (Some x))
      | None =>
      x ← symbol "(";
      match x with
      | Some _ =>
          sub_expression ← parse_string_expr fuel;
          _ ← expect type_symbol (Some ")");
          mret sub_expression
      | None =>
          next ← peek_symbol;
          throw (error "Expected a string literal, string identifier or opening parenthesis" next)
      end end end
  end

with parse_string_expr (fuel : nat) : parsing string_expr :=
  match fuel with
  | O => out_of_fuel
  | S fuel =>
      left_side ← parse_string_atom fuel;
      x ← symbol "&";
      match x with
      | Some _ =>
          right_side ← parse_string_expr fuel;
          mret (string_concat_expr left_side right_side)
      | None => mret left_side
      end
  end.

(** [parse_expression] *)
Definition parse_expression (fuel : nat) : parsing printable_expr :=
  next ← peek_symbol;
  let stringy :=
    match next with
    | Some x =>
        e_type_eqb (type x) type_string
        || (e_type_eqb (type x) type_word && is_string_identifier (value x))
    | None => false
    end in
  if stringy then e ← parse_string_expr fuel; mret (printable_string e)
  else e ← parse_numeric_expr fuel; mret (printable_numeric e).


(** *** Statements *)

(** [struct line] of parser.cc: a null [statement] is [None]. *)
Record parsed_line := {
  line_label : string;
  line_statement : option statement
}.

Definition is_type (what : e_type) (x : option lexeme) : bool :=
  match x with
  | Some x => e_type_eqb (type x) what
  | None => false
  end.

(** [while (next_symbol && next_symbol->type == lexeme::type_end) accept(lexer);] *)
Fixpoint skip_ends (fuel : nat) : parsing unit :=
  match fuel with
  | O => out_of_fuel
  | S fuel =>
      next ← peek_symbol;
      if is_type type_end next then _ ← accept_any; skip_ends fuel
      else mret tt
  end.

(** [lexer.ignore_line(); next_symbol = lexer.get_lexeme();] *)
Definition skip_comment : parsing unit :=
  fun p =>
    read_symbol {| lex := ignore_line (lex p); next_symbol := next_symbol p;
                   allocated := allocated p |}.

(** [new for_stmt(...)]: the object gets a fresh address. *)
Definition new_for_stmt (variable_name : string) (initial_value final_value step : numeric_expr)
    (body : block) : parsing statement :=
  fun p =>
    Ok (block_stmt (for_stmt (allocated p) variable_name initial_value final_value step body),
        {| lex := lex p; next_symbol := next_symbol p; allocated := S (allocated p) |}).

(** [parse_print] *)
Fixpoint parse_print_list (fuel : nat) (expressions : list printable_expr)
  : parsing (list printable_expr) :=
  match fuel with
  | O => out_of_fuel
  | S fuel' =>
      e ← parse_expression fuel;
      let expressions := (expressions ++ [e])%list in
      x ← symbol ",";
      match x with
      | Some _ => parse_print_list fuel' expressions
      | None => mret expressions
      end
  end.

Definition parse_print (fuel : nat) : parsing statement :=
  next ← peek_symbol;
  match next with
  | Some x =>
      if negb (e_type_eqb (type x) type_end) then
        expressions ← parse_print_list fuel [];
        mret (print_stmt expressions)
      else mret (print_stmt [])
  | None => mret (print_stmt [])
  end.

(** [parse_input] *)
Definition parse_input : parsing statement :=
  x ← expect type_word None;
  mret (input_stmt (value x)).

(** [parse_let] *)
Definition parse_let (fuel : nat) : parsing statement :=
  x ← expect type_word None;
  let var_name := value x in
  _ ← expect type_symbol (Some "=");
  if negb (is_string_identifier var_name) then
    e ← parse_numeric_expr fuel;
    mret (let_stmt var_name (inl e))
  else
    e ← parse_string_expr fuel;
    mret (let_stmt var_name (inr e)).

(** [parse_goto] *)
Definition parse_goto : parsing statement :=
  x ← accept type_word None;
  match x with
  | Some x => mret (goto_stmt (value x))
  | None =>
      x ← accept type_number None;
      match x with
      | Some x => mret (goto_stmt (value x))
      | None => throw (error "Expected a label" None)
      end
  end.

(** [parse_stop] *)
Definition parse_stop : parsing statement := mret stop_stmt.

(** [parse_exit] *)
Definition parse_exit : parsing statement :=
  x ← expect type_word None;
  mret (exit_stmt (value x)).

(** The statement appended at the end of the block under construction,
    and its label, when it has one, entered in the jump table. *)
Definition block_append (result : block) (l : parsed_line) (s : statement) : block :=
  let position := length (statements result) in
  Block (statements result ++ [s])%list
        (if negb (string_is_empty (line_label l))
         then map_insert (line_label l) (at_position position) (jump_table result)
         else jump_table result).

(** [parse_line] (entered at [do_parse] with the label read so far),
    [parse_block] (its loop), [parse_if] (with the loop over its
    clauses), [parse_do] and [parse_for].  The terminating keyword is
    passed by reference in the source; here it is passed in and
    returned. *)
Fixpoint parse_line_from (fuel : nat) (label : string) (terminating_keyword : string)
  : parsing (parsed_line * string) :=
  match fuel with
  | O => out_of_fuel
  | S fuel =>
      x ← accept type_number None;
      let label := match x with Some x => value x | None => label end in
      x ← accept type_word None;
      match x with
      | Some symbol =>
          if negb (String.eqb (value symbol) "rem") then
            next ← peek_symbol;
            '(label, symbol) ←
              (if is_type type_symbol next
                  && match next with Some n => String.eqb (value n) ":" | None => false end
               then
                 _ ← accept_any;
                 _ ← skip_ends (S fuel);
                 s ← expect type_word None;
                 mret (value symbol, s)
               else mret (label, symbol));
            if negb (String.eqb (value symbol) "rem") then
              let finish (parser : parsing statement) : parsing (parsed_line * string) :=
                s ← parser;
                _ ← expect type_end None;
                mret ({| line_label := label; line_statement := Some s |}, terminating_keyword) in
              match value symbol with
              | "if" => finish (parse_if fuel)
              | "do" => finish (parse_do fuel)
              | "for" => finish (parse_for fuel)
              | "print" => finish (parse_print fuel)
              | "input" => finish parse_input
              | "let" => finish (parse_let fuel)
              | "goto" => finish parse_goto
              | "stop" => finish parse_stop
              | "exit" => finish parse_exit
              | keyword =>
                  if existsb (String.eqb keyword) BLOCK_TERMINATORS then
                    mret ({| line_label := label; line_statement := None |}, keyword)
                  else throw (error ("Unrecognised keyword: " ++ keyword) (Some symbol))
              end
            else
              _ ← skip_comment;
              parse_line_from fuel label terminating_keyword
          else
            _ ← skip_comment;
            parse_line_from fuel label terminating_keyword
      | None =>
          _ ← expect type_end None;
          mret ({| line_label := label; line_statement := Some empty_stmt |}, terminating_keyword)
      end
  end

with parse_block_loop (fuel : nat) (result : block) (terminating_keyword : string)
  : parsing (block * string) :=
  match fuel with
  | O => out_of_fuel
  | S fuel =>
      next ← peek_symbol;
      match next with
      | Some _ =>
          '(l, terminating_keyword) ← parse_line_from fuel "" terminating_keyword;
          match line_statement l with
          | Some s => parse_block_loop fuel (block_append result l s) terminating_keyword
          | None => mret (result, terminating_keyword)
          end
      | None => mret (result, "")
      end
  end

with parse_if (fuel : nat) : parsing statement :=
  match fuel with
  | O => out_of_fuel
  | S fuel =>
      condition ← parse_numeric_expr (S fuel);
      _ ← expect type_word (Some "then");
      x ← accept type_number None;
      x ← match x with Some _ => mret x | None => accept type_word None end;
      match x with
      | Some x =>
          let then_label := value x in
          e ← word "else";
          else_label ←
            match e with
            | Some _ =>
                n ← accept type_number None;
                match n with
                | Some n => mret (value n)
                | None => w ← expect type_word None; mret (value w)
                end
            | None => mret ""
            end;
          mret (if_goto_stmt condition then_label else_label)
      | None =>
          next ← peek_symbol;
          if is_type type_end next then
            _ ← accept_any;
            parse_if_clauses fuel [condition] [] "if"
          else throw (error "Expected a label or newline after THEN" None)
      end
  end

with parse_if_clauses (fuel : nat) (conditions : list numeric_expr) (blocks : list block)
    (keyword : string) : parsing statement :=
  match fuel with
  | O => out_of_fuel
  | S fuel =>
      '(clause, keyword) ← parse_block_loop fuel (Block [] ∅) keyword;
      let blocks := (blocks ++ [copy_block clause])%list in
      conditions ←
        (if String.eqb keyword "elseif" then
           condition ← parse_numeric_expr (S fuel);
           _ ← expect type_word (Some "then");
           _ ← expect type_end None;
           mret (conditions ++ [condition])%list
         else if negb (String.eqb keyword "end") && negb (String.eqb keyword "else") then
           throw (error ("Unexpected "
                           ++ (if negb (string_is_empty keyword) then "keyword " ++ keyword
                               else "end of input")
                           ++ ", expected ELSE, ELSEIF or END IF") None)
         else mret conditions);
      if negb (String.eqb keyword "end") then parse_if_clauses fuel conditions blocks keyword
      else
        _ ← expect type_word (Some "if");
        (* the assertions of [if_block_stmt::if_block_stmt] *)
        if (1 <=? length conditions)%nat
           && (length conditions <=? length blocks)%nat
           && (length blocks <=? length conditions + 1)%nat
        then mret (if_block_stmt conditions blocks)
        else undefined failed_assertion
  end

with parse_do (fuel : nat) : parsing statement :=
  match fuel with
  | O => out_of_fuel
  | S fuel =>
      _ ← expect type_word (Some "while");
      condition ← parse_numeric_expr (S fuel);
      '(body, terminator) ← parse_block_loop fuel (Block [] ∅) "";
      if negb (String.eqb terminator "loop") then
        throw (error ("Expected LOOP, got " ++ terminator) None)
      else mret (block_stmt (do_stmt condition (copy_block body)))
  end

with parse_for (fuel : nat) : parsing statement :=
  match fuel with
  | O => out_of_fuel
  | S fuel =>
      x ← expect type_word None;
      let variable_name := value x in
      _ ← expect type_symbol (Some "=");
      initial_value ← parse_numeric_expr (S fuel);
      _ ← expect type_word (Some "to");
      final_value ← parse_numeric_expr (S fuel);
      s ← word "step";
      step_value ←
        match s with
        | Some _ => parse_numeric_expr (S fuel)
        | None => mret (constant_expr (Number.of_int 1))
        end;
      '(body, terminator) ← parse_block_loop fuel (Block [] ∅) "";
      if String.eqb terminator "next" then
        _ ← expect type_word (Some variable_name);
        new_for_stmt variable_name initial_value final_value step_value (copy_block body)
      else
        throw (error ("Expected NEXT " ++ variable_name ++ ", got " ++ terminator) None)
  end.

(** [parse_line] *)
Definition parse_line (fuel : nat) (terminating_keyword : string) : parsing (parsed_line * string) :=
  parse_line_from fuel "" terminating_keyword.

(** [parse_block].  The block is returned by value into a variable of
    the caller; the compiler builds it in that variable (the copy is
    elided), so the iterators of its table point into its own list.
    [parse_if], [parse_do] and [parse_for] then hand a copy of that
    variable over to the statement they allocate, and the variable is
    destroyed when they return: see [copy_block]. *)
Definition parse_block (fuel : nat) (terminating_keyword : string) : parsing (block * string) :=
  parse_block_loop fuel (Block [] ∅) terminating_keyword.

(** The parser over a program text: the static [next_symbol] is empty
    and no statement is allocated yet. *)
Definition make_parser (text file : string) : parser :=
  {| lex := make_lexer text file; next_symbol := None; allocated := 0 |}.

(** [parse] *)
Definition parse_program (fuel : nat) : parsing block :=
  _ ← read_symbol;
  '(b, terminator) ← parse_block fuel "";
  next ← peek_symbol;
  if negb (string_is_empty terminator)
     && (negb (String.eqb terminator "end") || is_Some_b next)
  then throw (error ("Unexpected " ++ terminator ++ ", expected END or end-of-file") next)
  else mret b.

Definition parse (fuel : nat) (text : string) : result block :=
  '(b, _) ← parse_program fuel (make_parser text "<stdin>");
  Ok b.


(** ** interpreter.hh: the state of the engine *)

(** [interpreter::execution_block]: a frame.  The members keep their
    names inside the module. *)
Module execution_block.
Record t := {
  statement : option block_statement;      (* may be null *)
  block : block;                           (* shall not be null *)
  current_statement : nat;
  numeric_variables : gmap string number;
  string_variables : gmap string string
}.
End execution_block.
Abbreviation execution_block := execution_block.t.

(** The mutable members of a [for_stmt] object. *)
Record for_members := {
  final_value : number;
  step : number
}.

(** The order in which the two operands of an operator are evaluated
    where the language leaves it open. *)
Inductive operand_order := left_operand_first | right_operand_first.

(** The interpreter: the deque of frames (its front is the head of the
    list) and the stop flag; next to them the mutable members of the
    [for_stmt] objects of the program, by address, the two standard
    streams (what is left to read, what has been written), and the
    order in which the compiled program evaluates the two operands of
    [left->evaluate(interpreter) + right->evaluate(interpreter)], which
    the language leaves unspecified. *)
Record interpreter := {
  blocks : list execution_block;
  should_stop : bool;
  for_objects : gmap nat for_members;
  cin : string;
  cout : string;
  concatenation_order : operand_order
}.

(** *** The state-and-error monad of the engine *)

Definition interp (A : Type) : Type := interpreter -> result A * interpreter.

#[global] Instance interp_ret : MRet interp := fun A a st => (Ok a, st).
#[global] Instance interp_bind : MBind interp :=
  fun A B k m st =>
    match m st with
    | (Ok a, st') => k a st'
    | (Throw e, st') => (Throw e, st')
    | (Undefined u, st') => (Undefined u, st')
    | (OutOfFuel, st') => (OutOfFuel, st')
    end.

Definition raise {A} (e : exception) : interp A := fun st => (Throw e, st).
Definition lift {A} (r : result A) : interp A := fun st => (r, st).
Definition gets {A} (f : interpreter -> A) : interp A := fun st => (Ok (f st), st).
Definition modify (f : interpreter -> interpreter) : interp unit := fun st => (Ok tt, f st).

Definition set_blocks (bs : list execution_block) (st : interpreter) : interpreter :=
  {| blocks := bs; should_stop := should_stop st; for_objects := for_objects st;
     cin := cin st; cout := cout st;
     concatenation_order := concatenation_order st |}.

Definition set_should_stop (b : bool) (st : interpreter) : interpreter :=
  {| blocks := blocks st; should_stop := b; for_objects := for_objects st;
     cin := cin st; cout := cout st;
     concatenation_order := concatenation_order st |}.

Definition set_for_objects (m : gmap nat for_members) (st : interpreter) : interpreter :=
  {| blocks := blocks st; should_stop := should_stop st; for_objects := m;
     cin := cin st; cout := cout st;
     concatenation_order := concatenation_order st |}.

(** [std::cout << text] *)
Definition write (text : string) (st : interpreter) : interpreter :=
  {| blocks := blocks st; should_stop := should_stop st; for_objects := for_objects st;
     cin := cin st; cout := cout st ++ text;
     concatenation_order := concatenation_order st |}.

(** The text up to the first newline, and the text after it. *)
Fixpoint first_line (s : string) : string * string :=
  match s with
  | EmptyString => ("", "")
  | String c r =>
      if char_eqb c "010" then ("", r)
      else let '(l, rest) := first_line r in (String c l, rest)
  end.

(** [std::getline(std::cin, input_line)]: at the end of the input the
    line read is empty. *)
Definition getline : interp string :=
  fun st =>
    let '(input_line, rest) := first_line (cin st) in
    (Ok input_line,
     {| blocks := blocks st; should_stop := should_stop st; for_objects := for_objects st;
        cin := rest; cout := cout st;
        concatenation_order := concatenation_order st |}).

(** ** interpreter.cc *)

(** [interpreter::enter_block] *)
Definition enter_block (b : block) (s : option block_statement) (st : interpreter)
  : interpreter :=
  let temp :=
    {| execution_block.statement := s;
       execution_block.block := b;
       execution_block.current_statement := 0;
       execution_block.numeric_variables := ∅;
       execution_block.string_variables := ∅ |} in
  set_blocks (temp :: blocks st) st.

(** [interpreter::exit_block()] *)
Definition exit_block (st : interpreter) : interpreter :=
  match blocks st with
  | [] => st
  | _ :: rest => set_blocks rest st
  end.

(** [interpreter::exit_block(name)]: the frames left when the named
    block has been popped, if there is one. *)
Fixpoint exit_block_loop (name : string) (bs : list execution_block)
  : option (list execution_block) :=
  match bs with
  | [] => None
  | front :: rest =>
      let popped_name :=
        match execution_block.statement front with
        | Some s => get_name s
        | None => ""
        end in
      if String.eqb popped_name name then Some rest
      else exit_block_loop name rest
  end.

Definition exit_block_named (name : string) : interp unit :=
  fun st =>
    match exit_block_loop name (blocks st) with
    | Some rest => (Ok tt, set_blocks rest st)
    | None => (Throw (runtime_error ("Cannot EXIT " ++ name ++ ": No such block")),
               set_blocks [] st)
    end.

(** [interpreter::stop] *)
Definition stop (st : interpreter) : interpreter :=
  set_should_stop true (set_blocks [] st).

Definition set_current_statement (position : nat) (f : execution_block) : execution_block :=
  {| execution_block.statement := execution_block.statement f;
     execution_block.block := execution_block.block f;
     execution_block.current_statement := position;
     execution_block.numeric_variables := execution_block.numeric_variables f;
     execution_block.string_variables := execution_block.string_variables f |}.

(** [interpreter::jump]: the frames are popped from the front until one
    has the label in the table of its block; what is found there is the
    iterator, with the frame and the frames behind it. *)
Fixpoint jump_loop (label : string) (bs : list execution_block)
  : option (list_iterator * execution_block * list execution_block) :=
  match bs with
  | [] => None
  | front :: rest =>
      match jump_table (execution_block.block front) !! label with
      | Some target => Some (target, front, rest)
      | None => jump_loop label rest
      end
  end.

(** [blocks.front().current_statement = target->second]: a valid
    iterator moves the cursor; a dangling one is copied into the cursor
    and then compared and dereferenced by [run], a use of an iterator
    into a destroyed list. *)
Definition jump (label : string) : interp unit :=
  fun st =>
    match jump_loop label (blocks st) with
    | Some (at_position target, front, rest) =>
        (Ok tt, set_blocks (set_current_statement target front :: rest) st)
    | Some (dangling, front, rest) =>
        (Undefined dangling_iterator, set_blocks (front :: rest) st)
    | None => (Throw (runtime_error ("Jump to undefined label " ++ label)), set_blocks [] st)
    end.

(** *** Variables

    [find_var], [set_var] and [get_var] are templates over a pointer to
    one of the two maps of a frame; [member] is that pointer. *)
Record member (V : Type) := {
  member_get : execution_block -> gmap string V;
  member_set : gmap string V -> execution_block -> execution_block
}.
Arguments member_get {V} _ _.
Arguments member_set {V} _ _ _.

Definition numeric_variables : member number :=
  {| member_get := execution_block.numeric_variables;
     member_set := fun m f =>
       {| execution_block.statement := execution_block.statement f;
          execution_block.block := execution_block.block f;
          execution_block.current_statement := execution_block.current_statement f;
          execution_block.numeric_variables := m;
          execution_block.string_variables := execution_block.string_variables f |} |}.

Definition string_variables : member string :=
  {| member_get := execution_block.string_variables;
     member_set := fun m f =>
       {| execution_block.statement := execution_block.statement f;
          execution_block.block := execution_block.block f;
          execution_block.current_statement := execution_block.current_statement f;
          execution_block.numeric_variables := execution_block.numeric_variables f;
          execution_block.string_variables := m |} |}.

(** [interpreter::find_var]: the first frame from the front whose map
    has the name, as its distance from the front, with the value found
    (the iterator [result] gives both). *)
Fixpoint find_var {V} (name : string) (variables : member V) (bs : list execution_block)
  : option (nat * V) :=
  match bs with
  | [] => None
  | b :: rest =>
      match member_get variables b !! name with
      | Some v => Some (0, v)
      | None =>
          match find_var name variables rest with
          | Some (i, v) => Some (S i, v)
          | None => None
          end
      end
  end.

(** [var->second = value]: the frame with the name bound to the value
    in one of its maps. *)
Definition bind {V} (name : string) (variables : member V) (v : V) (b : execution_block)
  : execution_block :=
  member_set variables (<[name := v]> (member_get variables b)) b.

(** [interpreter::set_var] *)
Definition set_var {V} (name : string) (variables : member V) (v : V) : interp unit :=
  fun st =>
    match find_var name variables (blocks st) with
    | Some (i, _) =>
        (Ok tt, set_blocks (alter (bind name variables v) i (blocks st)) st)
    | None =>
        match blocks st with
        | front :: rest =>
            (Ok tt,
             set_blocks
               (member_set variables (map_insert name v (member_get variables front)) front
                  :: rest)
               st)
        | [] => (Undefined front_of_empty_deque, st)
        end
    end.

(** [interpreter::get_var] *)
Definition get_var {V} (name : string) (variables : member V) (st : interpreter) : result V :=
  match find_var name variables (blocks st) with
  | Some (_, v) => Ok v
  | None => Throw (runtime_error ("Variable " ++ name ++ " undefined"))
  end.

Definition set_var_numeric (name : string) (v : number) : interp unit :=
  set_var name numeric_variables v.

Definition set_var_string (name : string) (v : string) : interp unit :=
  set_var name string_variables v.

Definition get_var_numeric (name : string) (st : interpreter) : result number :=
  get_var name numeric_variables st.

Definition get_var_string (name : string) (st : interpreter) : result string :=
  get_var name string_variables st.

(** ** statements.cc: expressions *)

Definition arith (op : arith_operator) (this rhs : number) : result number :=
  match op with
  | operator_plus => Ok (Number.add_assign this rhs)
  | operator_minus => Ok (Number.sub_assign this rhs)
  | operator_times => Ok (Number.mul_assign this rhs)
  | operator_modulo => Number.mod_assign this rhs
  | operator_divides => Number.div_assign this rhs
  end.

Definition relational (op : relational_operator) (lhs rhs : number) : bool :=
  match op with
  | operator_equals => Number.eqb lhs rhs
  | operator_doesnt_equal => Number.neqb lhs rhs
  | operator_less_than => Number.ltb lhs rhs
  | operator_less_equal => Number.leb lhs rhs
  | operator_greater_than => Number.gtb lhs rhs
  | operator_greater_equal => Number.geb lhs rhs
  end.

(** [numeric_expr::evaluate]; it reads the variables and changes nothing. *)
Fixpoint evaluate (e : numeric_expr) (st : interpreter) : result number :=
  match e with
  | constant_expr value => Ok value
  | variable_expr name => get_var_numeric name st
  | arith_expr left_side right_side op =>
      lhs ← evaluate left_side st;
      rhs ← evaluate right_side st;
      arith op lhs rhs
  | relational_expr left_side right_side op =>
      lhs ← evaluate left_side st;
      rhs ← evaluate right_side st;
      Ok (Number.of_bool (relational op lhs rhs))
  | boolean_expr left_side right_side op =>
      let right_is_true : result bool :=
        match right_side with
        | Some r => v ← evaluate r st; Ok (Number.is_true v)
        | None => Undefined null_pointer
        end in
      lhs ← evaluate left_side st;
      match op with
      | operator_and =>
          if Number.is_true lhs then b ← right_is_true; Ok (Number.of_bool b)
          else Ok (Number.of_bool false)
      | operator_or =>
          if Number.is_true lhs then Ok (Number.of_bool true)
          else b ← right_is_true; Ok (Number.of_bool b)
      | operator_not => Ok (Number.of_bool (negb (Number.is_true lhs)))
      end
  end.

(** [string_expr::evaluate]; the two operands of a concatenation are
    evaluated in the order of the compiled program. *)
Fixpoint evaluate_string (e : string_expr) (st : interpreter) : result string :=
  match e with
  | string_concat_expr lhs rhs =>
      match concatenation_order st with
      | left_operand_first =>
          l ← evaluate_string lhs st;
          r ← evaluate_string rhs st;
          Ok (l ++ r)
      | right_operand_first =>
          r ← evaluate_string rhs st;
          l ← evaluate_string lhs st;
          Ok (l ++ r)
      end
  | string_variable_expr var_name => get_var_string var_name st
  | string_literal_expr value => Ok value
  end.

(** [printable_expr::get_representation] *)
Definition get_representation (e : printable_expr) (st : interpreter) : result string :=
  match e with
  | printable_string e => evaluate_string e st
  | printable_numeric e => v ← evaluate e st; Ok (show_number v)
  end.

(** ** statements.cc: statements *)

Definition eval (e : numeric_expr) : interp number := fun st => (evaluate e st, st).

(** The members [final_value] and [step] of the [for_stmt] at an
    address; a [number] member starts as [number()]. *)
Definition members_at (address : nat) (st : interpreter) : for_members :=
  default {| final_value := Number.default; step := Number.default |}
          (for_objects st !! address).

Definition set_step (address : nat) (v : number) (st : interpreter) : interpreter :=
  set_for_objects
    (<[address := {| final_value := final_value (members_at address st); step := v |}]>
       (for_objects st)) st.

Definition set_final_value (address : nat) (v : number) (st : interpreter) : interpreter :=
  set_for_objects
    (<[address := {| final_value := v; step := step (members_at address st) |}]>
       (for_objects st)) st.

(** The test shared by [for_stmt::do_execute] and [for_stmt::do_iterate]:
    [(step > 0 && v <= final_value) || (step < 0 && v >= final_value)],
    with the value [v] of the variable fetched only where [&&] asks for it. *)
Definition for_condition (m : for_members) (fetch : interp number) : interp bool :=
  up ←
    (if Number.gtb (step m) (Number.of_int 0) then
       v ← fetch; mret (Number.leb v (final_value m))
     else mret false);
  if (up : bool) then mret true
  else if Number.ltb (step m) (Number.of_int 0) then
    v ← fetch; mret (Number.geb v (final_value m))
  else mret false.

Definition lift_get (name : string) : interp number :=
  fun st => (get_var_numeric name st, st).

(** [block_statement::iterate] *)
Definition iterate (this : block_statement) : interp unit :=
  match this with
  | do_stmt condition body =>
      c ← eval condition;
      if Number.is_true c then modify (enter_block body (Some this)) else mret tt
  | for_stmt address variable_name _ _ _ body =>
      v ← lift_get variable_name;
      m ← gets (members_at address);
      let iterator_value := Number.add_assign v (step m) in
      _ ← set_var_numeric variable_name iterator_value;
      go ← for_condition m (mret iterator_value);
      if (go : bool) then modify (enter_block body (Some this)) else mret tt
  end.

(** [print_stmt::do_execute]: each representation is written as soon as
    it is computed. *)
Fixpoint print_all (expressions : list printable_expr) : interp unit :=
  match expressions with
  | [] => mret tt
  | e :: rest =>
      text ← (fun st => (get_representation e st, st));
      _ ← modify (write text);
      print_all rest
  end.

(** [if_block_stmt::do_execute] *)
Fixpoint if_block_loop (i : nat) (conditions : list numeric_expr) (blocks : list block)
  : interp bool :=
  match conditions with
  | [] => mret false
  | c :: rest =>
      v ← eval c;
      if Number.is_true v then
        match blocks !! i with
        | Some b => _ ← modify (enter_block b None); mret true
        | None => lift (Undefined out_of_range)
        end
      else if_block_loop (S i) rest blocks
  end.

(** [statement::execute] *)
Definition execute (this : statement) : interp unit :=
  match this with
  | if_goto_stmt condition then_label else_label =>
      c ← eval condition;
      if Number.is_true c then jump then_label
      else if negb (string_is_empty else_label) then jump else_label
      else mret tt
  | if_block_stmt conditions blocks =>
      entered ← if_block_loop 0 conditions blocks;
      if (entered : bool) then mret tt
      else if (length blocks =? length conditions + 1)%nat then
        match blocks !! (length blocks - 1)%nat with
        | Some b => modify (enter_block b None)
        | None => lift (Undefined out_of_range)
        end
      else mret tt
  | block_stmt (do_stmt _ _ as s) => iterate s
  | block_stmt (for_stmt address variable_name initial_expression final_expression
                  step_expression body as s) =>
      i ← eval initial_expression;
      _ ← set_var_numeric variable_name i;
      v ← eval step_expression;
      _ ← modify (set_step address v);
      v ← eval final_expression;
      _ ← modify (set_final_value address v);
      m ← gets (members_at address);
      go ← for_condition m (lift_get variable_name);
      if (go : bool) then modify (enter_block body (Some s)) else mret tt
  | print_stmt expressions =>
      _ ← print_all expressions;
      modify (write (String "010" ""))
  | input_stmt var_name =>
      _ ← modify (write "? ");
      input_line ← getline;
      let input := extract_int input_line in
      if succeeded input then set_var_numeric var_name (Number.of_int (stored input))
      else raise (runtime_error "User input error: expected an integer")
  | let_stmt var_name (inl value_numeric) =>
      v ← eval value_numeric;
      set_var_numeric var_name v
  | let_stmt var_name (inr value_string) =>
      v ← (fun st => (evaluate_string value_string st, st));
      set_var_string var_name v
  | goto_stmt label => jump label
  | stop_stmt => modify stop
  | exit_stmt what => exit_block_named what
  | empty_stmt => mret tt
  end.

(** ** interpreter.cc: the main loop

    [interpreter::run] is two nested loops.  Its control is at one of
    three points: the test of the outer loop, the test of the inner
    loop, or past the loops.  [run_step] takes the engine from one point
    to the next:
    - at the outer test, the loop is left when the deque is empty or the
      stop flag is set;
    - at the inner test, [blocks.front()] is read first, the stop flag
      second; when the test holds, the statement under the cursor is
      executed after the cursor has moved on; when it fails, the frame
      is left: its [statement] is read from the front, the frame is
      popped, and a non-null [statement] iterates. *)

Inductive run_point := outer_loop | inner_loop | returned.

Definition run_step (pt : run_point) : interp run_point :=
  match pt with
  | returned => mret returned
  | outer_loop =>
      bs ← gets blocks;
      stopping ← gets should_stop;
      if negb (match bs with [] => true | _ => false end) && negb stopping
      then mret inner_loop
      else mret returned
  | inner_loop =>
      bs ← gets blocks;
      match bs with
      | [] => lift (Undefined front_of_empty_deque)
      | current_block :: rest =>
          stopping ← gets should_stop;
          let current := execution_block.current_statement current_block in
          let list := statements (execution_block.block current_block) in
          if negb (current =? length list)%nat && negb stopping then
            _ ← modify (set_blocks (set_current_statement (S current) current_block :: rest));
            match list !! current with
            | Some s => _ ← execute s; mret inner_loop
            | None => lift (Undefined out_of_range)
            end
          else
            _ ← modify exit_block;
            _ ← match execution_block.statement current_block with
                | Some s => iterate s
                | None => mret tt
                end;
            mret outer_loop
      end
  end.

(** [n] steps of the loop, from a point and a state. *)
Fixpoint run_steps (n : nat) (pt : run_point) : interp run_point :=
  match n with
  | O => mret pt
  | S n' => pt' ← run_step pt; run_steps n' pt'
  end.

(** [interpreter::run], given the number of steps it may take. *)
Definition run (fuel : nat) : interp unit :=
  _ ← modify (set_should_stop false);
  pt ← run_steps fuel outer_loop;
  match pt with
  | returned => mret tt
  | _ => lift OutOfFuel
  end.

(** The order of the operands of a concatenation in the program as the
    compiler at hand builds it: the right operand first. *)
Definition compiled_order : operand_order := right_operand_first.

(** [interpreter::interpreter(block&)], with the text on standard input. *)
Definition make_interpreter (program : block) (input : string) : interpreter :=
  enter_block program None
    {| blocks := []; should_stop := false; for_objects := ∅; cin := input; cout := "";
       concatenation_order := compiled_order |}.

(** [main]: lex and parse the text, then run it; the outcome and what
    the program wrote on standard output. *)
Definition main (fuel : nat) (text input : string) : result unit * string :=
  match parse fuel text with
  | Ok program =>
      let '(r, st) := run fuel (make_interpreter program input) in (r, cout st)
  | Throw e => (Throw e, "")
  | Undefined u => (Undefined u, "")
  | OutOfFuel => (OutOfFuel, "")
  end.


Definition nl : string := String "010" "".

(** * Vocabulary of the properties

    The definitions that the statements below are written with: what the
    code is compared to, and the programs and states the statements are
    tried on. *)

(** ** Division *)

(** One half, as the lexer and the parser build it from the text [0.5]
    (the lexeme loses its leading zero). *)
Definition one_half : number := literal_constant 1 ".5".

(** The integer part of the value of a number: its value, a [double],
    converted to [int]. *)
Definition integer_part (n : number) : Z := Double.to_int (floating_point_value n).

(** The values of [0.5 + 0.5] and of [1.5 - 0.7], as the evaluation of
    the two expressions builds them from their literals. *)
Definition two_halves : number := Number.add one_half one_half.

Definition eight_tenths : number :=
  Number.sub (literal_constant 1 "1.5") (literal_constant 1 ".7").

(** ** The variable store *)

(** The innermost frame whose map has the name, as its distance from
    the front of the deque. *)
Definition innermost {V} (name : string) (variables : member V) (bs : list execution_block)
  : option nat :=
  fst <$> list_find (fun b => is_Some (member_get variables b !! name)) bs.

(** What the name is bound to in the frame at distance [i] from the front. *)
Definition bound {V} (name : string) (variables : member V) (bs : list execution_block)
    (i : nat) : option V :=
  b ← bs !! i; member_get variables b !! name.

(** The binding of the name that is visible: the one of the innermost
    frame that has the name. *)
Definition visible {V} (name : string) (variables : member V) (bs : list execution_block)
  : option V :=
  i ← innermost name variables bs; bound name variables bs i.

(** The frame an assignment to the name goes to: the innermost frame
    whose map has the name and, when no frame has it, the frame at the
    front; none when there is no frame at all. *)
Definition assigned_frame {V} (name : string) (variables : member V)
    (bs : list execution_block) : option nat :=
  match innermost name variables bs with
  | Some i => Some i
  | None => match bs with [] => None | _ :: _ => Some 0 end
  end.

(** A state with two frames: [y] is 1 in the frame at the front, [x] is
    2 in the frame behind it. *)
Definition x_behind_y : interpreter :=
  {| blocks :=
       [{| execution_block.statement := None;
           execution_block.block := Block [] ∅;
           execution_block.current_statement := 0;
           execution_block.numeric_variables := <["y" := Number.of_int 1]> ∅;
           execution_block.string_variables := ∅ |};
        {| execution_block.statement := None;
           execution_block.block := Block [] ∅;
           execution_block.current_statement := 0;
           execution_block.numeric_variables := <["x" := Number.of_int 2]> ∅;
           execution_block.string_variables := ∅ |}];
     should_stop := false; for_objects := ∅; cin := ""; cout := "";
     concatenation_order := compiled_order |}.

(** ** The three-line arithmetic program *)

(** The program of the second end-to-end scenario and the output it
    is said to have. *)
Definition arithmetic_program : string :=
  "PRINT 1+2" ++ nl ++ "PRINT 1/2" ++ nl ++ "PRINT 4/2" ++ nl.

Definition arithmetic_claimed_output : string := "3" ++ nl ++ "0.5" ++ nl ++ "2" ++ nl.

(** The output the program has. *)
Definition arithmetic_output : string := "3" ++ nl ++ "0.500000" ++ nl ++ "2" ++ nl.

(** ** INPUT *)

(** The words of the claim on INPUT: the line is an integer, that is an
    optional sign and then digits, and nothing else. *)
Definition is_integer_text (text : string) : bool :=
  let digits :=
    match text with
    | String c r => if char_eqb c "-" || char_eqb c "+" then r else text
    | EmptyString => text
    end in
  negb (string_is_empty digits) && String.eqb (digit_run digits) digits.

Fixpoint string_forall (P : Z -> bool) (s : string) : bool :=
  match s with
  | EmptyString => true
  | String c r => P (int_of_uchar c) && string_forall P r
  end.

(** The text is empty or starts with a character outside [P]. *)
Definition stops (P : Z -> bool) (s : string) : bool :=
  match s with
  | EmptyString => true
  | String c _ => negb (P (int_of_uchar c))
  end.

(** The line starts, after white space, with an optionally signed run
    of decimal digits, which is as long as it can be and has the value
    [v]; what follows the digits is free. *)
Definition leading_integer (text : string) (v : Z) : Prop :=
  exists blanks sign digits rest,
    text = blanks ++ sign ++ digits ++ rest
    /\ string_forall isspace blanks = true
    /\ (sign = "" \/ sign = "+" \/ sign = "-")
    /\ digits <> ""
    /\ string_forall isdigit digits = true
    /\ stops isdigit rest = true
    /\ v = (if String.eqb sign "-" then - decimal_value digits 0 else decimal_value digits 0)%Z.

(** What [is >> i] stores and reports, by the value of the leading integer. *)
Definition extracted (v : Z) : extraction Z :=
  if (v <? Int.min)%Z then {| stored := Int.min; succeeded := false |}
  else if (Int.max <? v)%Z then {| stored := Int.max; succeeded := false |}
  else {| stored := v; succeeded := true |}.

(** A state in which INPUT reads the line [12abc]. *)
Definition reading_12abc : interpreter := make_interpreter (Block [] ∅) ("12abc" ++ nl).

(** The state of the two streams after the prompt has been written and
    a line has been read. *)
Definition prompted (st : interpreter) : interpreter :=
  snd (getline (write "? " st)).

(** The line that INPUT reads in a state. *)
Definition input_line (st : interpreter) : string := fst (first_line (cin st)).

(** ** The end of the program *)

(** What [parse] takes as the end of the root block: no terminating
    keyword (end of input), or [end] with no lexeme left after it. *)
Definition ends_program (terminator : string) (next : option lexeme) : Prop :=
  terminator = "" \/ (terminator = "end" /\ next = None).

(** A program that ends in the line [end] and a newline, and the same
    program with nothing after [end]. *)
Definition ended_program : string := "PRINT 1" ++ nl ++ "end".
Definition ended_program_newline : string := "PRINT 1" ++ nl ++ "end" ++ nl.

(** ** Additive expressions *)

(** The parser after it has taken its look-ahead: the lexer has moved
    on and delivered the next look-ahead. *)
Definition advance_to (p : parser) (next : option lexeme) (l : lexer) : parser :=
  {| lex := l; next_symbol := next; allocated := allocated p |}.

(** Does the look-ahead continue a term ([*], [/], [mod])?  An additive
    expression (those, [+] and [-])? *)
Definition continues_term (next : option lexeme) : bool :=
  match next with
  | Some x =>
      matches type_symbol (Some "*") x || matches type_symbol (Some "/") x
      || matches type_word (Some "mod") x
  | None => false
  end.

Definition continues_expression (next : option lexeme) : bool :=
  continues_term next
  || match next with
     | Some x => matches type_symbol (Some "+") x || matches type_symbol (Some "-") x
     | None => false
     end.

(** The parser at the start of the text [10 - 4 - 3]. *)
Definition subtraction_parser : parser :=
  match read_symbol (make_parser "10 - 4 - 3" "<stdin>") with
  | Ok (_, p) => p
  | _ => make_parser "" "<stdin>"
  end.

(** ** Labels *)

(** The lines that the loop of [parse_block] reads, in order, up to the
    line of the terminating keyword (left out) or the end of the input:
    the same loop, keeping the lines instead of the block. *)
Fixpoint parse_lines (fuel : nat) (terminating_keyword : string)
  : parsing (list parsed_line * string) :=
  match fuel with
  | O => out_of_fuel
  | S fuel =>
      next ← peek_symbol;
      match next with
      | Some _ =>
          '(l, terminating_keyword) ← parse_line_from fuel "" terminating_keyword;
          match line_statement l with
          | Some _ =>
              '(ls, terminating_keyword) ← parse_lines fuel terminating_keyword;
              mret (l :: ls, terminating_keyword)
          | None => mret ([], terminating_keyword)
          end
      | None => mret ([], "")
      end
  end.

(** The position of the first line that carries the label. *)
Definition first_labelled (label : string) (ls : list parsed_line) : option nat :=
  fst <$> list_find (fun l => line_label l = label) ls.

(** The block with one more line: its statement appended, when the line
    has one, its label entered in the table. *)
Definition add_line (b : block) (l : parsed_line) : block :=
  match line_statement l with
  | Some s => block_append b l s
  | None => b
  end.

(** A program with the label 10 on its second and on its third line. *)
Definition twice_labelled_program : string :=
  "PRINT 0" ++ nl ++ "10 PRINT 1" ++ nl ++ "10 PRINT 2" ++ nl.

(** The parser at the start of the program with the label used twice. *)
Definition twice_labelled_parser : parser :=
  match read_symbol (make_parser twice_labelled_program "<stdin>") with
  | Ok (_, p) => p
  | _ => make_parser "" "<stdin>"
  end.

(** A program that jumps to the label 10, which its third and its fourth
    line carry. *)
Definition jump_to_twice_labelled : string :=
  "GOTO 10" ++ nl ++ "PRINT 0" ++ nl ++ "10 PRINT 1" ++ nl ++ "10 PRINT 2" ++ nl.

(** The same lines as the body of a FOR loop. *)
Definition jump_inside_for : string :=
  "FOR I = 1 TO 1" ++ nl ++ "GOTO 10" ++ nl ++ "PRINT 0" ++ nl
  ++ "10 PRINT 1" ++ nl ++ "10 PRINT 2" ++ nl ++ "NEXT I" ++ nl.

(** ** FOR loops *)

(** Control is at the test of the inner loop, and the frame at the
    front is one of the [for_stmt] at the address that has just been
    entered: its cursor is at the start of the body. *)
Definition entering (address : nat) (pt : run_point) (st : interpreter) : bool :=
  match pt, blocks st with
  | inner_loop, fr :: _ =>
      match execution_block.statement fr with
      | Some (for_stmt a _ _ _ _ _) =>
          (a =? address)%nat && (execution_block.current_statement fr =? 0)%nat
      | _ => false
      end
  | _, _ => false
  end.

(** How many times the body of the [for_stmt] at the address starts to
    execute in the first [n] steps of the main loop. *)
Fixpoint executions (address : nat) (n : nat) (pt : run_point) (st : interpreter) : nat :=
  match n with
  | O => 0
  | S n' =>
      (if entering address pt st then 1 else 0)
      + match run_step pt st with
        | (Ok pt', st') => executions address n' pt' st'
        | _ => 0
        end
  end.

(** The frame at the front is one of the block statement and has run to
    the end of its block. *)
Definition at_end (s : block_statement) (st : interpreter) : Prop :=
  exists fr rest,
    blocks st = fr :: rest
    /\ execution_block.statement fr = Some s
    /\ execution_block.current_statement fr
       = length (statements (execution_block.block fr)).

(** The number of executions the claim gives a loop from [i] to [f] by
    steps of [s]. *)
Definition iterations (i f s : Z) : Z :=
  if (i <=? f)%Z then ((f - i) / s + 1)%Z else 0%Z.

(** What holds between two executions of the body of a loop: the
    invariant of the surrounding program, the two members of the
    [for_stmt] as they were set at the entry of the loop, and the loop
    variable integral with the given value. *)
Definition between (Inv : interpreter -> Prop) (address : nat) (variable_name : string)
    (members : for_members) (v : Z) (st : interpreter) : Prop :=
  Inv st
  /\ members_at address st = members
  /\ exists x, get_var_numeric variable_name st = Ok x
               /\ integral x = true /\ integral_value x = v.

(** The body of a FOR loop runs to its end from every state of the
    invariant: the main loop gets, in some [k] steps, from the entry of
    the body to the test that finds the frame of the loop at its end;
    the body has started once on the way; and with the frame popped the
    invariant holds again, the loop variable and the members of the
    [for_stmt] being what they were. *)
Definition body_runs (Inv : interpreter -> Prop) (s : block_statement) (address : nat)
    (variable_name : string) (body : block) : Prop :=
  forall st, Inv st ->
    exists k st',
      run_steps k inner_loop (enter_block body (Some s) st) = (Ok inner_loop, st')
      /\ executions address (S k) inner_loop (enter_block body (Some s) st) = 1
      /\ at_end s st'
      /\ Inv (exit_block st')
      /\ get_var_numeric variable_name (exit_block st') = get_var_numeric variable_name st
      /\ members_at address (exit_block st') = members_at address st.

(** A loop whose variable reaches the largest [int]. *)
Definition overflow_program : string :=
  "FOR I = 2147483647 TO 2147483647" ++ nl ++ "PRINT I" ++ nl ++ "NEXT I" ++ nl.

Definition overflow_interpreter : interpreter :=
  match parse 20 overflow_program with
  | Ok program => make_interpreter program ""
  | _ => make_interpreter (Block [] ∅) ""
  end.

(** A loop from 1 to 10 by 4 that prints its variable. *)
Definition stepping_program : string :=
  "FOR I = 1 TO 10 STEP 4" ++ nl ++ "PRINT I" ++ nl ++ "NEXT I" ++ nl.

Definition stepping_interpreter : interpreter :=
  match parse 20 stepping_program with
  | Ok program => make_interpreter program ""
  | _ => make_interpreter (Block [] ∅) ""
  end.

(** The loop FOR I = 1 TO 10 STEP 4 with nothing between its header
    line and NEXT I, as the parser builds it, and the invariant that
    the stop flag is clear. *)
Definition one_line_body : block := Block [empty_stmt] ∅.

Definition sample_loop : block_statement :=
  for_stmt 0 "i" (constant_expr (Number.of_int 1)) (constant_expr (Number.of_int 10))
    (constant_expr (Number.of_int 4)) one_line_body.

Definition running (st : interpreter) : Prop := should_stop st = false.

(** ** Integral numbers *)

(** An expression of constants with the integral flag and of variables,
    combined with [+], [-] and [*] only. *)
Fixpoint whole_arithmetic (e : numeric_expr) : bool :=
  match e with
  | constant_expr v => Number.is_integral v
  | variable_expr _ => true
  | arith_expr l r op =>
      whole_arithmetic l && whole_arithmetic r
      && match op with
         | operator_plus | operator_minus | operator_times => true
         | operator_divides | operator_modulo => false
         end
  | relational_expr _ _ _ | boolean_expr _ _ _ => false
  end.

(** Every numeric variable that can be read holds an integral number. *)
Definition whole_variables (st : interpreter) : Prop :=
  forall name v, get_var_numeric name st = Ok v -> Number.is_integral v = true.

(** A state with one frame, in which [x] is 2. *)
Definition x_is_two : interpreter :=
  {| blocks :=
       [{| execution_block.statement := None;
           execution_block.block := Block [] ∅;
           execution_block.current_statement := 0;
           execution_block.numeric_variables := <["x" := Number.of_int 2]> ∅;
           execution_block.string_variables := ∅ |}];
     should_stop := false; for_objects := ∅; cin := ""; cout := "";
     concatenation_order := compiled_order |}.

(** The comparison of two [int]s that an operator of the language stands for. *)
Definition compare_int (op : relational_operator) (x y : Z) : bool :=
  match op with
  | operator_equals => (x =? y)%Z
  | operator_doesnt_equal => negb (x =? y)%Z
  | operator_less_than => (x <? y)%Z
  | operator_less_equal => (x <=? y)%Z
  | operator_greater_than => (y <? x)%Z
  | operator_greater_equal => (y <=? x)%Z
  end.

(** ** Frames *)

(** The frame has the label in the jump table of its block. *)
Definition defines_label (label : string) (f : execution_block) : Prop :=
  is_Some (jump_table (execution_block.block f) !! label).

(** The name under which EXIT finds the frame: that of its statement,
    and no name when the frame has none. *)
Definition frame_name (f : execution_block) : string :=
  match execution_block.statement f with
  | Some s => get_name s
  | None => ""
  end.

(** A frame over a block, as [enter_block] makes it. *)
Definition frame_of (b : block) (s : option block_statement) : execution_block :=
  {| execution_block.statement := s;
     execution_block.block := b;
     execution_block.current_statement := 0;
     execution_block.numeric_variables := ∅;
     execution_block.string_variables := ∅ |}.

Definition with_frames (bs : list execution_block) : interpreter :=
  {| blocks := bs; should_stop := false; for_objects := ∅; cin := ""; cout := "";
     concatenation_order := compiled_order |}.

(** A block with the label 10 on its second statement. *)
Definition labelled_block : block :=
  Block [empty_stmt; stop_stmt] (<["10" := at_position 1]> ∅).

Definition empty_loop : block_statement :=
  do_stmt (constant_expr (Number.of_int 1)) (Block [] ∅).

(** ** Assignments inside a block *)

(** The state after a block has been entered and a numeric variable has
    been assigned inside it. *)
Definition assigned_inside (name : string) (v : number) (b : block)
    (s : option block_statement) (st : interpreter) : interpreter :=
  snd (set_var_numeric name v (enter_block b s st)).

(** ** PRINT and the streams *)

(** The texts one after the other. *)
Fixpoint joined (texts : list string) : string :=
  match texts with
  | [] => ""
  | t :: rest => t ++ joined rest
  end.

(** The expression has this text as its representation in the state. *)
Definition represented (st : interpreter) (e : printable_expr) (text : string) : Prop :=
  get_representation e st = Ok text.

(** From one state to a later one the two streams only advance: what
    was written is still there, in front of what has been written
    since, and what is left to read is the end of what was left. *)
Definition streams_advance (st st' : interpreter) : Prop :=
  (exists written, cout st' = cout st ++ written)
  /\ (exists consumed, cin st = consumed ++ cin st').

(** ** Invariants of the engine *)

(** A computation of the engine that takes every state to one that is
    related to it, whatever its outcome is. *)
Definition keeps (R : interpreter -> interpreter -> Prop) {A} (m : interp A) : Prop :=
  forall st, R st (snd (m st)).

(** From one state to a later one the stop flag is what it was. *)
Definition same_flag (st st' : interpreter) : Prop := should_stop st' = should_stop st.

(** What holds at a point of the main loop in a run in which no STOP
    has been executed, and right behind a STOP: at the outer test and
    past the loops the flag is clear (and past the loops there is no
    frame); at the inner test the flag is clear, or the stack is empty. *)
Definition flag_at (pt : run_point) (st : interpreter) : Prop :=
  match pt with
  | outer_loop => should_stop st = false
  | inner_loop => should_stop st = false \/ blocks st = []
  | returned => should_stop st = false /\ blocks st = []
  end.

(** ** The tests of FOR and IF *)

(** The test of a FOR loop on [int]s: the variable [v] has not passed
    the final value [f] in the direction of the step [s]. *)
Definition for_enters (v s f : Z) : bool :=
  ((0 <? s)%Z && (v <=? f)%Z) || ((s <? 0)%Z && (f <=? v)%Z).

(** The expression evaluates, and its value is true, or false. *)
Definition holds (st : interpreter) (e : numeric_expr) : Prop :=
  exists v, evaluate e st = Ok v /\ Number.is_true v = true.

Definition fails (st : interpreter) (e : numeric_expr) : Prop :=
  exists v, evaluate e st = Ok v /\ Number.is_true v = false.

(** FOR I = 3 TO 1 STEP -1 with an empty body. *)
Definition downward_loop : block_statement :=
  for_stmt 0 "i" (constant_expr (Number.of_int 3)) (constant_expr (Number.of_int 1))
    (constant_expr (Number.of_int (-1))) (Block [] ∅).

(** ** The lexer at a position *)

(** A lexer over a text, at a position. *)
Definition lexer_at (text : string) (state : iostate) (file : string) (ln col : Z) : lexer :=
  {| source := text; source_state := state; filename := file; line := ln; column := col |}.

(** One of the two characters that the lexer skips between lexemes. *)
Definition is_blank (c : Z) : bool := found (char_of_int c) WHITESPACE.

(** ** String literals *)

(** The character is not the one that ends a string literal. *)
Definition is_not_quote (c : Z) : bool := negb (is_char quote c).

(** The character that [result += source.get()] appends when the text
    has run out: [get] returns [eof], and its conversion to [char] is
    the byte 255. *)
Definition eof_char : ascii := char_of_int eof.

(** ** Words and integer literals *)

(** The character starts a lexeme: it passes one of the tests that
    [get_lexeme] makes of the character under the cursor. *)
Definition starts_lexeme (c : ascii) : bool :=
  isdigit (int_of_char c) || char_eqb c quote || found c SIMPLE_SYMBOLS
  || char_eqb c "<" || char_eqb c ">" || char_eqb c "010" || isalpha (int_of_char c).

(** What follows an integer literal: the end of the text, or a
    character that is neither a digit nor the decimal point. *)
Definition ends_integer (rest : string) : bool :=
  stops (fun c => isdigit c || (c =? 46)%Z) rest.

(** ** The shape of parsed expressions *)

(** What the constructors of the expression classes assert, and what
    the names of the two kinds of variables promise: a numeric
    expression names no string variable; NOT has one operand, AND and
    OR have two. *)
Fixpoint well_formed (e : numeric_expr) : bool :=
  match e with
  | constant_expr _ => true
  | variable_expr name => negb (is_string_identifier name)
  | arith_expr l r _ => well_formed l && well_formed r
  | relational_expr l r _ => well_formed l && well_formed r
  | boolean_expr l r op =>
      well_formed l
      && match r, op with
         | None, operator_not => true
         | Some r, operator_and | Some r, operator_or => well_formed r
         | _, _ => false
         end
  end.

(** A string expression names string variables only. *)
Fixpoint well_formed_string (e : string_expr) : bool :=
  match e with
  | string_concat_expr l r => well_formed_string l && well_formed_string r
  | string_variable_expr name => is_string_identifier name
  | string_literal_expr _ => true
  end.

(** The statement is a LET of a numeric expression to a name that is
    not a string identifier, or of a string expression to a name that
    is one, and the expression is well formed. *)
Definition well_typed_let (s : statement) : bool :=
  match s with
  | let_stmt name (inl e) => negb (is_string_identifier name) && well_formed e
  | let_stmt name (inr e) => is_string_identifier name && well_formed_string e
  | _ => false
  end.

(** Whatever the parsing function gives is well formed. *)
Definition gives_well_formed (parse : parsing numeric_expr) : Prop :=
  forall p e p', parse p = Ok (e, p') -> well_formed e = true.

Definition gives_well_formed_string (parse : parsing string_expr) : Prop :=
  forall p e p', parse p = Ok (e, p') -> well_formed_string e = true.

(** The parser in front of a text, with the first lexeme read. *)
Definition parser_at (text : string) : parser :=
  match read_symbol (make_parser text "<stdin>") with
  | Ok (_, p) => p
  | _ => make_parser text "<stdin>"
  end.

(** ** Terms and the decimal point *)

(** The operator of a term that a lexeme stands for. *)
Definition term_operator (x : lexeme) : option arith_operator :=
  if matches type_symbol (Some "*") x then Some operator_times
  else if matches type_symbol (Some "/") x then Some operator_divides
  else if matches type_word (Some "mod") x then Some operator_modulo
  else None.

(** The double is a number: not a NaN and not an infinity. *)
Definition is_finite (d : double) : bool :=
  match d with
  | S754_zero _ | S754_finite _ _ _ => true
  | S754_infinity _ | S754_nan => false
  end.

(** ** Comments and boolean operands *)

(** The character is not the end of a line. *)
Definition is_not_newline (c : Z) : bool := negb (c =? 10)%Z.

(** The lexeme is AND or OR, and which of them. *)
Definition boolean_operator_of (x : lexeme) : option boolean_operator :=
  if matches type_word (Some "and") x then Some operator_and
  else if matches type_word (Some "or") x then Some operator_or
  else None.

(** The lexeme is one of the six operators of comparison. *)
Definition is_comparison (x : lexeme) : bool :=
  existsb (fun text => matches type_symbol (Some text) x) ["="; "<>"; "<"; "<="; ">"; ">="].

(** A program with a REM alone on its first line. *)
Definition remark_program : string :=
  "REM" ++ nl ++ "PRINT 1" ++ nl ++ "PRINT 2" ++ nl.

(** * Properties *)

(** ** Numbers *)

Module NumberFacts.

Lemma rem_not_throw a b e : Int.rem a b <> Throw e.
Proof. unfold Int.rem. repeat case_match; discriminate. Qed.

Lemma div_not_throw a b e : Int.div a b <> Throw e.
Proof. unfold Int.div. repeat case_match; discriminate. Qed.

Lemma rem_ok a b r : Int.rem a b = Ok r -> r = Z.rem a b.
Proof. unfold Int.rem. repeat case_match; congruence. Qed.

Example one_half_value :
  floating_point_value one_half = Double.div (Double.of_int 1) (Double.of_int 2)
  /\ integral_value one_half = 0%Z /\ integral one_half = false.
Proof. vm_compute. auto. Qed.

End NumberFacts.



(** C9. [a % b] throws its runtime error exactly when one of the operands
    is not integral; the test looks at the two flags only.  With two
    integral operands the remainder is taken whatever the divisor is:
    for a zero divisor no runtime error is thrown, the integer remainder
    by zero is what is executed (the trap of the machine). *)
Theorem C9_modulo_guard (a b : number) :
  ((exists e, Number.mod_assign a b = Throw e)
     <-> (integral a = false \/ integral b = false))
  /\ (Number.mod_assign a b
        = Throw (runtime_error "Modulo operation is only defined on whole number types.")
      <-> (integral a = false \/ integral b = false))
  /\ Number.mod_assign
       {| integral_value := integral_value a;
          floating_point_value := floating_point_value a; integral := true |}
       {| integral_value := 0;
          floating_point_value := floating_point_value b; integral := true |}
     = Undefined integer_division_trap.
Proof.
  unfold Number.mod_assign, Number.is_integral, Number.get_integral_value.
  repeat split.
  - intros [e He]. destruct (integral a), (integral b); cbn in He; auto.
    unfold mbind, result_mbind, result_bind in He.
    destruct (Int.rem _ _) eqn:Hr; try discriminate.
    exfalso. eapply NumberFacts.rem_not_throw. exact Hr.
  - intros [H|H]; rewrite H; [|rewrite andb_false_r]; eexists; reflexivity.
  - intros He. destruct (integral a), (integral b); cbn in He; auto.
    unfold mbind, result_mbind, result_bind in He.
    destruct (Int.rem _ _) eqn:Hr; try discriminate.
    exfalso. eapply NumberFacts.rem_not_throw. exact Hr.
  - intros [H|H]; rewrite H; [|rewrite andb_false_r]; reflexivity.
Qed.

(** ** Variables *)

Module VariableFacts.
Section members.
Context {V : Type} (name : string) (variables : member V).

Lemma find_var_innermost bs :
  find_var name variables bs
  = match innermost name variables bs with
    | Some i => match bound name variables bs i with
                | Some v => Some (i, v)
                | None => None
                end
    | None => None
    end.
Proof.
  unfold innermost, bound. induction bs as [|b bs IH]; [reflexivity|].
  cbn. destruct (member_get variables b !! name) as [v|] eqn:Hb.
  - rewrite decide_True by eauto. cbn. rewrite Hb. reflexivity.
  - rewrite decide_False by (intros [? ?]; congruence). rewrite IH.
    destruct (list_find _ bs) as [[i x]|]; cbn; [|reflexivity].
    destruct (bs !! i) as [c|]; cbn; [|reflexivity].
    destruct (member_get variables c !! name); reflexivity.
Qed.

(** The meaning of [innermost]: the name is in the map of frame [i]
    and in the map of no frame nearer to the front. *)
Lemma innermost_Some bs i :
  innermost name variables bs = Some i <->
  (exists v, bound name variables bs i = Some v)
  /\ forall j, j < i -> bound name variables bs j = None.
Proof.
  unfold innermost, bound. split.
  - intros H. apply fmap_Some in H as ([i' b] & Hfind & ->). cbn.
    apply list_find_Some in Hfind as (Hb & [v Hv] & Hmin). split.
    + exists v. rewrite Hb. exact Hv.
    + intros j Hj. destruct (bs !! j) as [c|] eqn:Hc; [|reflexivity]. cbn.
      destruct (member_get variables c !! name) eqn:Hn; [|reflexivity].
      exfalso. apply (Hmin j c Hc Hj). eauto.
  - intros [[v Hv] Hmin].
    destruct (bs !! i) as [b|] eqn:Hb; [|discriminate]. cbn in Hv.
    apply fmap_Some. exists (i, b). split; [|reflexivity].
    apply list_find_Some. split; [exact Hb|]. split; [eauto|].
    intros j c Hc Hj [w Hw]. specialize (Hmin j Hj). rewrite Hc in Hmin. cbn in Hmin.
    congruence.
Qed.

Lemma innermost_None bs :
  innermost name variables bs = None <->
  forall i, bound name variables bs i = None.
Proof.
  unfold innermost, bound. rewrite fmap_None, list_find_None, Forall_lookup. split.
  - intros H i. destruct (bs !! i) as [b|] eqn:Hb; [|reflexivity]. cbn.
    specialize (H i b Hb). destruct (member_get variables b !! name); [|reflexivity].
    exfalso. apply H. eauto.
  - intros H i b Hb [v Hv]. specialize (H i). rewrite Hb in H. cbn in H. congruence.
Qed.

Lemma innermost_bound bs i :
  innermost name variables bs = Some i -> is_Some (bound name variables bs i).
Proof. intros H. apply innermost_Some in H as [[v Hv] _]. eauto. Qed.

(** No binding is visible exactly when no frame has the name. *)
Lemma visible_None bs :
  visible name variables bs = None <-> innermost name variables bs = None.
Proof.
  unfold visible. destruct (innermost name variables bs) as [i|] eqn:Hin; cbn.
  - destruct (innermost_bound _ _ Hin) as [v ->]. split; discriminate.
  - tauto.
Qed.

Lemma innermost_front_None b rest :
  innermost name variables (b :: rest) = None -> member_get variables b !! name = None.
Proof. intros H. exact (proj1 (innermost_None _) H 0). Qed.

(** [set_var] in one piece: the frame the assignment goes to gets the
    binding. *)
Lemma set_var_assigned_frame v st :
  set_var name variables v st
  = match assigned_frame name variables (blocks st) with
    | Some i => (Ok tt, set_blocks (alter (bind name variables v) i (blocks st)) st)
    | None => (Undefined front_of_empty_deque, st)
    end.
Proof.
  unfold set_var, assigned_frame. rewrite find_var_innermost.
  destruct (innermost name variables (blocks st)) as [i|] eqn:Hin.
  - destruct (innermost_bound _ _ Hin) as [w ->]. reflexivity.
  - destruct (blocks st) as [|front rest]; [reflexivity|].
    apply innermost_front_None in Hin.
    cbn [alter list_alter]. unfold bind, map_insert. rewrite Hin. reflexivity.
Qed.

Lemma assigned_frame_None bs : assigned_frame name variables bs = None <-> bs = [].
Proof.
  unfold assigned_frame.
  destruct (innermost name variables bs) as [i|] eqn:Hin.
  - split; [discriminate|]. intros ->. discriminate Hin.
  - destruct bs; split; congruence.
Qed.
End members.

(** A binding made in the map of one kind leaves, in every frame, the
    map of the other kind as it was. *)
Lemma find_var_string_after_numeric name' (f : execution_block -> execution_block) bs :
  (forall b, execution_block.string_variables (f b) = execution_block.string_variables b) ->
  forall i, find_var name' string_variables (alter f i bs) = find_var name' string_variables bs.
Proof.
  intros Hf. induction bs as [|b bs IH]; intros [|i]; cbn; try reflexivity.
  - rewrite Hf. reflexivity.
  - rewrite IH. reflexivity.
Qed.

Lemma find_var_numeric_after_string name' (f : execution_block -> execution_block) bs :
  (forall b, execution_block.numeric_variables (f b) = execution_block.numeric_variables b) ->
  forall i, find_var name' numeric_variables (alter f i bs) = find_var name' numeric_variables bs.
Proof.
  intros Hf. induction bs as [|b bs IH]; intros [|i]; cbn; try reflexivity.
  - rewrite Hf. reflexivity.
  - rewrite IH. reflexivity.
Qed.
End VariableFacts.

Module StoreFacts.
Section members.
Context {V : Type} (variables : member V).
Hypothesis get_set : forall m f, member_get variables (member_set variables m f) = m.

Lemma find_var_alter_same name v bs : forall i w,
  find_var name variables bs = Some (i, w) ->
  find_var name variables (alter (bind name variables v) i bs) = Some (i, v).
Proof.
  induction bs as [|b bs IH]; intros i w; [discriminate|].
  cbn [find_var].
  destruct (member_get variables b !! name) as [x|] eqn:Hb.
  - intros [= <- <-]. cbn. unfold bind. rewrite get_set, lookup_insert_eq. reflexivity.
  - destruct (find_var name variables bs) as [[k y]|] eqn:Hrest; [|discriminate].
    intros [= <- <-]. cbn [alter list_alter find_var].
    rewrite Hb. rewrite (IH k y eq_refl). reflexivity.
Qed.

Lemma find_var_alter_other name other v bs : other <> name -> forall i,
  find_var other variables (alter (bind name variables v) i bs) = find_var other variables bs.
Proof.
  intros Hne. induction bs as [|b bs IH]; intros i; [reflexivity|].
  destruct i as [|i]; cbn [alter list_alter find_var].
  - unfold bind. rewrite get_set, lookup_insert_ne by congruence. reflexivity.
  - rewrite IH. reflexivity.
Qed.

Lemma find_var_front_other name other v front rest : other <> name ->
  find_var other variables
    (member_set variables (map_insert name v (member_get variables front)) front :: rest)
  = find_var other variables (front :: rest).
Proof.
  intros Hne. cbn [find_var]. rewrite get_set. unfold map_insert.
  destruct (member_get variables front !! name); [reflexivity|].
  rewrite lookup_insert_ne by congruence. reflexivity.
Qed.

(** A successful assignment can be read back, changes no other
    variable of its kind, and keeps the frames in their number. *)
Lemma set_var_get_var name v st :
  blocks st <> [] ->
  exists st',
    set_var name variables v st = (Ok tt, st')
    /\ get_var name variables st' = Ok v
    /\ (forall other, other <> name -> get_var other variables st' = get_var other variables st)
    /\ length (blocks st') = length (blocks st).
Proof.
  intros Hne. unfold set_var, get_var.
  destruct (find_var name variables (blocks st)) as [[i w]|] eqn:Hfind.
  - eexists. split; [reflexivity|]. cbn [blocks set_blocks].
    rewrite (find_var_alter_same _ _ _ _ _ Hfind).
    split; [reflexivity|]. split.
    + intros other Ho. rewrite (find_var_alter_other _ _ _ _ Ho). reflexivity.
    + apply length_alter.
  - destruct (blocks st) as [|front rest] eqn:Hb; [congruence|].
    eexists. split; [reflexivity|]. cbn [blocks set_blocks].
    split; [|split].
    + cbn [find_var] in *. rewrite get_set.
      destruct (member_get variables front !! name) eqn:Hn; [discriminate|].
      unfold map_insert. rewrite Hn, lookup_insert_eq. reflexivity.
    + intros other Ho. rewrite (find_var_front_other _ _ _ _ _ Ho). reflexivity.
    + reflexivity.
Qed.
End members.

Lemma numeric_get_set m f : member_get numeric_variables (member_set numeric_variables m f) = m.
Proof. reflexivity. Qed.

Lemma string_get_set m f : member_get string_variables (member_set string_variables m f) = m.
Proof. reflexivity. Qed.

Lemma set_blocks_same st : set_blocks (blocks st) st = st.
Proof. destruct st; reflexivity. Qed.
End StoreFacts.

(** C4. Assignment rebinds the name in the innermost frame whose map has
    it and, when no frame has it, binds it in the front frame; a read
    yields the binding of the innermost frame that has the name and
    throws "Variable <name> undefined" when no frame has it; an
    assignment to a numeric variable changes no string binding and the
    other way round, whatever the two names are.  What an assignment
    leaves is spelled out member by member: the frames are as many as
    before, the frame the assignment goes to has the name bound to the
    value assigned and every other name as before, every other frame
    and every other member of the state is as it was, and a read of the
    name yields the value assigned. *)
Theorem C4_variable_store (st : interpreter) (name : string) (n : number) (s : string) :
  set_var_numeric name n st
  = match innermost name numeric_variables (blocks st), blocks st with
    | Some i, bs => (Ok tt, set_blocks (alter (bind name numeric_variables n) i bs) st)
    | None, front :: rest => (Ok tt, set_blocks (bind name numeric_variables n front :: rest) st)
    | None, [] => (Undefined front_of_empty_deque, st)
    end
  /\ set_var_string name s st
     = match innermost name string_variables (blocks st), blocks st with
       | Some i, bs => (Ok tt, set_blocks (alter (bind name string_variables s) i bs) st)
       | None, front :: rest => (Ok tt, set_blocks (bind name string_variables s front :: rest) st)
       | None, [] => (Undefined front_of_empty_deque, st)
       end
  /\ get_var_numeric name st
     = match visible name numeric_variables (blocks st) with
       | Some v => Ok v
       | None => Throw (runtime_error ("Variable " ++ name ++ " undefined"))
       end
  /\ get_var_string name st
     = match visible name string_variables (blocks st) with
       | Some v => Ok v
       | None => Throw (runtime_error ("Variable " ++ name ++ " undefined"))
       end
  /\ (forall name', get_var_string name' (snd (set_var_numeric name n st))
                    = get_var_string name' st)
  /\ (forall name', get_var_numeric name' (snd (set_var_string name s st))
                    = get_var_numeric name' st)
  /\ match assigned_frame name numeric_variables (blocks st) with
     | Some i =>
         exists st',
           set_var_numeric name n st = (Ok tt, st')
           /\ get_var_numeric name st' = Ok n
           /\ (should_stop st', for_objects st', cin st', cout st', concatenation_order st')
              = (should_stop st, for_objects st, cin st, cout st, concatenation_order st)
           /\ length (blocks st') = length (blocks st)
           /\ forall j f, blocks st !! j = Some f ->
                exists f',
                  blocks st' !! j = Some f'
                  /\ execution_block.statement f' = execution_block.statement f
                  /\ execution_block.block f' = execution_block.block f
                  /\ execution_block.current_statement f'
                     = execution_block.current_statement f
                  /\ execution_block.string_variables f' = execution_block.string_variables f
                  /\ forall other,
                       execution_block.numeric_variables f' !! other
                       = if decide (j = i /\ other = name) then Some n
                         else execution_block.numeric_variables f !! other
     | None => blocks st = []
     end
  /\ match assigned_frame name string_variables (blocks st) with
     | Some i =>
         exists st',
           set_var_string name s st = (Ok tt, st')
           /\ get_var_string name st' = Ok s
           /\ (should_stop st', for_objects st', cin st', cout st', concatenation_order st')
              = (should_stop st, for_objects st, cin st, cout st, concatenation_order st)
           /\ length (blocks st') = length (blocks st)
           /\ forall j f, blocks st !! j = Some f ->
                exists f',
                  blocks st' !! j = Some f'
                  /\ execution_block.statement f' = execution_block.statement f
                  /\ execution_block.block f' = execution_block.block f
                  /\ execution_block.current_statement f'
                     = execution_block.current_statement f
                  /\ execution_block.numeric_variables f' = execution_block.numeric_variables f
                  /\ forall other,
                       execution_block.string_variables f' !! other
                       = if decide (j = i /\ other = name) then Some s
                         else execution_block.string_variables f !! other
     | None => blocks st = []
     end.
Proof.
  assert (Hset : forall V (variables : member V) (v : V),
             set_var name variables v st
             = match innermost name variables (blocks st), blocks st with
               | Some i, bs => (Ok tt, set_blocks (alter (bind name variables v) i bs) st)
               | None, front :: rest =>
                   (Ok tt, set_blocks (bind name variables v front :: rest) st)
               | None, [] => (Undefined front_of_empty_deque, st)
               end).
  { intros V variables v. unfold set_var.
    rewrite VariableFacts.find_var_innermost.
    destruct (innermost name variables (blocks st)) as [i|] eqn:Hin.
    - destruct (VariableFacts.innermost_bound _ _ _ _ Hin) as [w ->]. reflexivity.
    - destruct (blocks st) as [|front rest]; [reflexivity|].
      apply VariableFacts.innermost_front_None in Hin.
      unfold bind, map_insert. rewrite Hin. reflexivity. }
  assert (Hget : forall V (variables : member V),
             get_var name variables st
             = match visible name variables (blocks st) with
               | Some v => Ok v
               | None => Throw (runtime_error ("Variable " ++ name ++ " undefined"))
               end).
  { intros V variables. unfold get_var, visible. rewrite VariableFacts.find_var_innermost.
    destruct (innermost name variables (blocks st)) as [i|] eqn:Hin; [|reflexivity].
    destruct (VariableFacts.innermost_bound _ _ _ _ Hin) as [w Hw]. cbn. rewrite Hw.
    reflexivity. }
  assert (Hafter : forall V (variables : member V) (v : V),
             (forall m f, member_get variables (member_set variables m f) = m) ->
             match assigned_frame name variables (blocks st) with
             | Some i =>
                 set_var name variables v st
                 = (Ok tt, set_blocks (alter (bind name variables v) i (blocks st)) st)
                 /\ get_var name variables
                      (set_blocks (alter (bind name variables v) i (blocks st)) st) = Ok v
             | None => blocks st = []
             end).
  { intros V variables v get_set.
    pose proof (VariableFacts.set_var_assigned_frame name variables v st) as Hto.
    destruct (assigned_frame name variables (blocks st)) as [i|] eqn:Hi.
    - split; [exact Hto|].
      destruct (StoreFacts.set_var_get_var variables get_set name v st)
        as (st' & Hst' & Hread & _).
      + intros Hnil. apply (VariableFacts.assigned_frame_None name variables) in Hnil.
        congruence.
      + rewrite Hto in Hst'. injection Hst' as <-. exact Hread.
    - apply (VariableFacts.assigned_frame_None name variables). exact Hi. }
  split; [apply Hset|]. split; [apply Hset|]. split; [apply Hget|]. split; [apply Hget|].
  split; [|split; [|split]].
  - intros name'. unfold set_var_numeric, get_var_string, get_var. rewrite Hset.
    destruct (innermost name numeric_variables (blocks st)) as [i|].
    + cbn. rewrite VariableFacts.find_var_string_after_numeric; reflexivity.
    + destruct (blocks st) eqn:Hbs; cbn; rewrite ?Hbs; reflexivity.
  - intros name'. unfold set_var_string, get_var_numeric, get_var. rewrite Hset.
    destruct (innermost name string_variables (blocks st)) as [i|].
    + cbn. rewrite VariableFacts.find_var_numeric_after_string; reflexivity.
    + destruct (blocks st) eqn:Hbs; cbn; rewrite ?Hbs; reflexivity.
  - specialize (Hafter number numeric_variables n StoreFacts.numeric_get_set).
    destruct (assigned_frame name numeric_variables (blocks st)) as [i|]; [|exact Hafter].
    destruct Hafter as [Hto Hread]. eexists. split; [exact Hto|]. split; [exact Hread|].
    split; [reflexivity|]. split; [apply length_alter|].
    intros j f Hj. cbn [blocks set_blocks]. destruct (decide (j = i)) as [->|Hne].
    + exists (bind name numeric_variables n f). split.
      { rewrite list_lookup_alter, decide_True, Hj by reflexivity. reflexivity. }
      do 4 (split; [reflexivity|]). intros other. cbn.
      destruct (decide (other = name)) as [->|Hother].
      * rewrite decide_True by auto. apply lookup_insert_eq.
      * rewrite decide_False by tauto. apply lookup_insert_ne. congruence.
    + exists f. split.
      { rewrite list_lookup_alter_ne by congruence. exact Hj. }
      do 4 (split; [reflexivity|]). intros other. rewrite decide_False by tauto. reflexivity.
  - specialize (Hafter string string_variables s StoreFacts.string_get_set).
    destruct (assigned_frame name string_variables (blocks st)) as [i|]; [|exact Hafter].
    destruct Hafter as [Hto Hread]. eexists. split; [exact Hto|]. split; [exact Hread|].
    split; [reflexivity|]. split; [apply length_alter|].
    intros j f Hj. cbn [blocks set_blocks]. destruct (decide (j = i)) as [->|Hne].
    + exists (bind name string_variables s f). split.
      { rewrite list_lookup_alter, decide_True, Hj by reflexivity. reflexivity. }
      do 4 (split; [reflexivity|]). intros other. cbn.
      destruct (decide (other = name)) as [->|Hother].
      * rewrite decide_True by auto. apply lookup_insert_eq.
      * rewrite decide_False by tauto. apply lookup_insert_ne. congruence.
    + exists f. split.
      { rewrite list_lookup_alter_ne by congruence. exact Hj. }
      do 4 (split; [reflexivity|]). intros other. rewrite decide_False by tauto. reflexivity.
Qed.

(** C4 where [x] is bound in the frame behind the one at the front: the
    assignment of 7 to [x] goes to that frame, where [x] is 7 then; [y]
    is still 1 in the frame at the front, and [x] is not bound there. *)
Lemma C4_witness :
  exists st' front behind,
    set_var_numeric "x" (Number.of_int 7) x_behind_y = (Ok tt, st')
    /\ get_var_numeric "x" st' = Ok (Number.of_int 7)
    /\ blocks st' !! 0 = Some front /\ blocks st' !! 1 = Some behind
    /\ length (blocks st') = 2
    /\ execution_block.numeric_variables front !! "x" = None
    /\ execution_block.numeric_variables front !! "y" = Some (Number.of_int 1)
    /\ execution_block.numeric_variables behind !! "x" = Some (Number.of_int 7).
Proof.
  pose proof (C4_variable_store x_behind_y "x" (Number.of_int 7) "") as H.
  destruct H as (_ & _ & _ & _ & _ & _ & H & _).
  change (assigned_frame "x" numeric_variables (blocks x_behind_y)) with (Some 1) in H.
  destruct H as (st' & Hset & Hget & _ & Hlength & Hframes).
  destruct (Hframes 0 _ eq_refl) as (front & Hfront & _ & _ & _ & _ & Hfront_variables).
  destruct (Hframes 1 _ eq_refl) as (behind & Hbehind & _ & _ & _ & _ & Hbehind_variables).
  exists st', front, behind.
  split; [exact Hset|]. split; [exact Hget|]. split; [exact Hfront|]. split; [exact Hbehind|].
  split; [exact Hlength|].
  split; [rewrite Hfront_variables; reflexivity|].
  split; [rewrite Hfront_variables; reflexivity|].
  rewrite Hbehind_variables. reflexivity.
Defined.

(** ** The main loop *)

Module RunFacts.
Lemma run_steps_returned n st : run_steps n returned st = (Ok returned, st).
Proof. induction n as [|n IH]; [reflexivity|]. cbn. exact IH. Qed.

Lemma run_steps_add a n pt st :
  run_steps (a + n) pt st
  = match run_steps a pt st with
    | (Ok pt', st') => run_steps n pt' st'
    | (Throw e, st') => (Throw e, st')
    | (Undefined u, st') => (Undefined u, st')
    | (OutOfFuel, st') => (OutOfFuel, st')
    end.
Proof.
  revert pt st. induction a as [|a IH]; intros pt st; [reflexivity|].
  cbn [Nat.add run_steps]. unfold mbind, interp_bind.
  destruct (run_step pt st) as [[pt'| | |] st']; try reflexivity. apply IH.
Qed.

(** Once [run] has returned within [a] steps, more steps change nothing. *)
Lemma run_enough a n st st' :
  run a st = (Ok tt, st') -> run (a + n) st = (Ok tt, st').
Proof.
  unfold run, mbind, interp_bind, modify. rewrite run_steps_add.
  destruct (run_steps a outer_loop _) as [[[]| | |] st1]; cbn; try discriminate.
  intros H. rewrite run_steps_returned. exact H.
Qed.
End RunFacts.

(** C2. STOP empties the deque and sets the flag; the test of the inner
    loop that follows reads [blocks.front()] before it reads the flag,
    so the run of the one-line program STOP ends in the read of the
    front of an empty deque, not in a return. *)
Theorem C2_stop_reads_front_of_empty_deque :
  (forall st, execute stop_stmt st = (Ok tt, stop st)
              /\ blocks (stop st) = [] /\ should_stop (stop st) = true
              /\ run_step inner_loop (stop st) = (Undefined front_of_empty_deque, stop st))
  /\ main 50 ("STOP" ++ nl) "" = (Undefined front_of_empty_deque, "").
Proof.
  split; [intros st; repeat split | vm_compute; reflexivity].
Qed.

(** ** End to end: the three-line arithmetic program *)

Module ArithmeticProgram.
Lemma parsed n :
  exists program,
    parse (20 + n) arithmetic_program = Ok program
    /\ run 20 (make_interpreter program "") 
       = (Ok tt, {| blocks := []; should_stop := false; for_objects := ∅;
                    cin := ""; cout := arithmetic_output;
                    concatenation_order := compiled_order |}).
Proof.
  eexists. split.
  - vm_compute. reflexivity.
  - vm_compute. reflexivity.
Qed.

Lemma enough n : main (20 + n) arithmetic_program "" = (Ok tt, arithmetic_output).
Proof.
  unfold main. destruct (parsed n) as (program & -> & Hrun).
  rewrite (RunFacts.run_enough 20 n _ _ Hrun). reflexivity.
Qed.

Lemma too_little fuel :
  fuel < 20 -> fst (main fuel arithmetic_program "") <> Ok tt
               \/ snd (main fuel arithmetic_program "") = arithmetic_output.
Proof.
  intros H.
  do 20 (destruct fuel as [|fuel];
         [vm_compute; first [right; reflexivity | left; discriminate]|]).
  lia.
Qed.
End ArithmeticProgram.

(** C6, as the claim states it, fails: with no amount of fuel does the
    run of the three-line program return having written the lines 3,
    0.5 and 2. *)
Lemma C6_counterexample :
  ~ exists fuel, main fuel arithmetic_program "" = (Ok tt, arithmetic_claimed_output).
Proof.
  intros [fuel H]. destruct (lt_dec fuel 20) as [Hlt|Hge].
  - destruct (ArithmeticProgram.too_little fuel Hlt) as [Hne|Hout]; rewrite H in *.
    + apply Hne. reflexivity.
    + cbn in Hout. vm_compute in Hout. discriminate Hout.
  - replace fuel with (20 + (fuel - 20)) in H by lia.
    rewrite ArithmeticProgram.enough in H. vm_compute in H. discriminate H.
Qed.

(** C6, amended.  The run of the three-line program returns having
    written the lines 3, 0.500000 and 2: the sum and the exact quotient
    are integral and print as integers without a point; 1/2 is not
    integral and prints as a double under showpoint, with six
    significant digits. *)
Theorem C6_arithmetic_program_output (n : nat) :
  main (20 + n) arithmetic_program "" = (Ok tt, arithmetic_output)
  /\ show_number (Number.add (Number.of_int 1) (Number.of_int 2)) = "3"
  /\ (exists q, Number.div (Number.of_int 1) (Number.of_int 2) = Ok q
                /\ integral q = false /\ show_number q = "0.500000")
  /\ (exists q, Number.div (Number.of_int 4) (Number.of_int 2) = Ok q
                /\ integral q = true /\ show_number q = "2").
Proof.
  split; [apply ArithmeticProgram.enough|].
  split; [vm_compute; reflexivity|].
  split; eexists; (split; [vm_compute; reflexivity|]); split; vm_compute; reflexivity.
Qed.

(** ** The top level of the parser *)

Module ParseFacts.
(** A newline that follows (after blanks) is a lexeme of its own. *)
Lemma newline_is_a_lexeme text file ln col :
  exists x l',
    get_lexeme {| source := String "010" text; source_state := goodbit;
                  filename := file; line := ln; column := col |} = Ok (Some x, l')
    /\ type x = type_end.
Proof.
  unfold get_lexeme, skip_whitespace, rounds. cbn.
  eexists. eexists. split; reflexivity.
Qed.

Lemma ended_program_parses n :
  exists b, parse (20 + n) ended_program = Ok b.
Proof. eexists. vm_compute. reflexivity. Qed.

Lemma ended_program_newline_fails n :
  parse (20 + n) ended_program_newline
  = Throw (syntax_error "<stdin>, line 3, column 0: Unexpected end, expected END or end-of-file").
Proof. vm_compute. reflexivity. Qed.

Lemma ended_program_newline_too_little fuel b :
  fuel < 20 -> parse fuel ended_program_newline <> Ok b.
Proof.
  intros H.
  do 20 (destruct fuel as [|fuel]; [vm_compute; discriminate|]).
  lia.
Qed.
End ParseFacts.

(** C7, as the claim states it, fails: the program whose last line is
    [end] followed by a newline does not parse, whatever the fuel. *)
Lemma C7_counterexample :
  ~ exists fuel b, parse fuel ended_program_newline = Ok b.
Proof.
  intros (fuel & b & H). destruct (lt_dec fuel 20) as [Hlt|Hge].
  - exact (ParseFacts.ended_program_newline_too_little fuel b Hlt H).
  - replace fuel with (20 + (fuel - 20)) in H by lia.
    rewrite ParseFacts.ended_program_newline_fails in H. discriminate H.
Qed.

(** C7, amended.  When the root block has been parsed with terminating
    keyword [terminator], [parse] returns the block exactly when the
    keyword is absent (end of input) or is [end] with no lexeme left
    after it; in every other case it throws the syntax error "Unexpected
    <terminator>, expected END or end-of-file".  A newline after [end]
    is a lexeme (end of statement), so it is among the other cases. *)
Theorem C7_top_level_terminator (fuel : nat) (p0 p1 p2 : parser) (b : block)
    (terminator : string) :
  read_symbol p0 = Ok (tt, p1) ->
  parse_block fuel "" p1 = Ok ((b, terminator), p2) ->
  (parse_program fuel p0 = Ok (b, p2) <-> ends_program terminator (next_symbol p2))
  /\ (parse_program fuel p0
      = Throw (error ("Unexpected " ++ terminator ++ ", expected END or end-of-file")
                     (next_symbol p2))
      <-> ~ ends_program terminator (next_symbol p2)).
Proof.
  intros Hread Hblock. unfold ends_program.
  unfold parse_program, mbind, parsing_bind, peek_symbol, throw, mret, parsing_ret.
  rewrite Hread, Hblock.
  assert (Hempty : string_is_empty terminator = true <-> terminator = "").
  { destruct terminator; cbn; split; congruence. }
  destruct (string_is_empty terminator) eqn:Hemp; cbn [negb andb].
  - assert (terminator = "") by (apply Hempty; reflexivity).
    intuition (try discriminate; try congruence).
  - assert (terminator <> "") by (intros H; apply Hempty in H; discriminate).
    destruct (String.eqb terminator "end") eqn:Hend; cbn [negb orb].
    + apply String.eqb_eq in Hend.
      destruct (next_symbol p2) as [x|]; cbn [is_Some_b];
        intuition (try discriminate; try congruence).
    + apply String.eqb_neq in Hend. intuition (try discriminate; try congruence).
Qed.

(** The amended C7 at the program that ends in [end] with nothing after it. *)
Lemma C7_witness :
  exists b p2, parse_program 20 (make_parser ended_program "<stdin>") = Ok (b, p2).
Proof.
  edestruct (C7_top_level_terminator 20 (make_parser ended_program "<stdin>"))
    as [[_ Hok] _].
  - vm_compute. reflexivity.
  - vm_compute. reflexivity.
  - eexists. eexists. apply Hok. right. split; reflexivity.
Defined.

(** ** INPUT *)

Module InputFacts.
Lemma append_nil (s : string) : "" ++ s = s.
Proof. reflexivity. Qed.

Lemma append_cons c (a b : string) : String c a ++ b = String c (a ++ b).
Proof. reflexivity. Qed.

Lemma skip_spaces_app blanks s :
  string_forall isspace blanks = true -> stops isspace s = true ->
  skip_spaces (blanks ++ s) = s.
Proof.
  intros Hb Hs. induction blanks as [|c blanks IH].
  - rewrite append_nil. destruct s as [|c s]; [reflexivity|]. cbn in *.
    destruct (isspace (int_of_uchar c)); [discriminate|reflexivity].
  - rewrite append_cons. cbn in *. apply andb_prop in Hb as [Hc Hb]. rewrite Hc. auto.
Qed.

Lemma skip_spaces_split s :
  exists blanks, s = blanks ++ skip_spaces s
                 /\ string_forall isspace blanks = true
                 /\ stops isspace (skip_spaces s) = true.
Proof.
  induction s as [|c s (blanks & Heq & Hb & Hs)].
  - exists "". auto.
  - cbn. destruct (isspace (int_of_uchar c)) eqn:Hc.
    + exists (String c blanks). rewrite append_cons. cbn. rewrite Hc, Hb, <- Heq. auto.
    + exists "". rewrite append_nil. cbn. rewrite Hc. auto.
Qed.

Lemma digit_run_app digits rest :
  string_forall isdigit digits = true -> stops isdigit rest = true ->
  digit_run (digits ++ rest) = digits.
Proof.
  intros Hd Hr. induction digits as [|c digits IH].
  - rewrite append_nil. destruct rest as [|c rest]; [reflexivity|]. cbn in *.
    destruct (isdigit (int_of_uchar c)); [discriminate|reflexivity].
  - rewrite append_cons. cbn in *. apply andb_prop in Hd as [Hc Hd]. rewrite Hc, IH; auto.
Qed.

Lemma digit_run_split s :
  exists rest, s = digit_run s ++ rest
               /\ string_forall isdigit (digit_run s) = true
               /\ stops isdigit rest = true.
Proof.
  induction s as [|c s (rest & Heq & Hd & Hr)].
  - exists "". auto.
  - cbn. destruct (isdigit (int_of_uchar c)) eqn:Hc.
    + exists rest. rewrite append_cons. cbn. rewrite Hc, Hd, <- Heq. auto.
    + exists (String c s). rewrite append_nil. cbn. rewrite Hc. auto.
Qed.

Lemma digit_is_not_space c : isdigit c = true -> isspace c = false.
Proof. unfold isdigit, isspace. intros H. lia. Qed.

Lemma empty_iff (s : string) : string_is_empty s = true <-> s = "".
Proof. destruct s; cbn; split; congruence. Qed.

Lemma extract_leading text v : leading_integer text v -> extract_int text = extracted v.
Proof.
  intros (blanks & sign & digits & rest & -> & Hb & Hsign & Hne & Hd & Hr & ->).
  destruct digits as [|d digits]; [congruence|]. cbn in Hd.
  apply andb_prop in Hd as [Hd0 Hd].
  assert (Hrun : digit_run (String d digits ++ rest) = String d digits).
  { apply digit_run_app; [cbn; rewrite Hd0, Hd; reflexivity | exact Hr]. }
  unfold extract_int.
  rewrite skip_spaces_app; [|exact Hb|].
  - destruct Hsign as [->|[->| ->]].
    + rewrite append_nil, append_cons.
      assert (char_eqb d "-" = false /\ char_eqb d "+" = false) as [-> ->].
      { unfold char_eqb.
        destruct (Ascii.eqb_spec d "-"), (Ascii.eqb_spec d "+"); subst;
          try discriminate Hd0; auto. }
      rewrite <- append_cons, Hrun. reflexivity.
    + rewrite append_cons, append_nil. change (char_eqb "+" "-") with false.
      change (char_eqb "+" "+") with true. cbv iota. rewrite Hrun. reflexivity.
    + rewrite append_cons, append_nil. change (char_eqb "-" "-") with true. cbv iota.
      rewrite Hrun. reflexivity.
  - destruct Hsign as [->|[->| ->]]; rewrite ?append_nil, ?append_cons; cbn;
      try reflexivity.
    rewrite digit_is_not_space; auto.
Qed.

Lemma leading_extract text :
  string_is_empty (digit_run (snd
    (let s := skip_spaces text in
     match s with
     | String c r =>
         if char_eqb c "-" then (true, r)
         else if char_eqb c "+" then (false, r)
         else (false, s)
     | EmptyString => (false, s)
     end))) = false ->
  exists v, leading_integer text v.
Proof.
  destruct (skip_spaces_split text) as (blanks & Heq & Hb & Hs).
  destruct (skip_spaces text) as [|c r] eqn:Hskip; cbn zeta; [cbn; discriminate|].
  intros H.
  assert (Hgo : forall sign s, text = blanks ++ sign ++ s ->
                 (sign = "" \/ sign = "+" \/ sign = "-") ->
                 string_is_empty (digit_run s) = false ->
                 exists v, leading_integer text v).
  { intros sign s Htext Hsign Hrun.
    destruct (digit_run_split s) as (rest & Hs' & Hd & Hr).
    eexists. exists blanks, sign, (digit_run s), rest.
    split; [rewrite <- Hs'; exact Htext|].
    split; [exact Hb|]. split; [exact Hsign|].
    split; [intros E; rewrite E in Hrun; discriminate|].
    split; [exact Hd|]. split; [exact Hr|reflexivity]. }
  destruct (Ascii.eqb_spec c "-") as [->|Hminus].
  - change (char_eqb "-" "-") with true in H. cbv iota in H. cbn [snd] in H.
    apply (Hgo "-" r); auto.
  - unfold char_eqb in H. rewrite (proj2 (Ascii.eqb_neq _ _) Hminus) in H.
    destruct (Ascii.eqb_spec c "+") as [->|Hplus].
    + cbn [snd] in H. apply (Hgo "+" r); auto.
    + cbn [snd] in H. apply (Hgo "" (String c r)); auto.
Qed.

(** [is >> i] succeeds exactly on the lines with a leading integer that
    fits an [int], and stores that integer. *)
Lemma extract_int_succeeds text :
  succeeded (extract_int text) = true
  <-> exists v, leading_integer text v /\ Int.in_range v = true.
Proof.
  split.
  - intros H.
    assert (Hlead : exists v, leading_integer text v).
    { apply leading_extract. revert H. unfold extract_int.
      destruct (skip_spaces text) as [|c r]; cbn zeta; [cbn; discriminate|].
      destruct (char_eqb c "-"); [|destruct (char_eqb c "+")]; cbn [snd];
        destruct (string_is_empty (digit_run _)); cbn; congruence. }
    destruct Hlead as [v Hv]. exists v. split; [exact Hv|].
    rewrite (extract_leading _ _ Hv) in H. unfold extracted, Int.in_range in *.
    destruct (v <? Int.min)%Z eqn:H1; [discriminate|].
    destruct (Int.max <? v)%Z eqn:H2; [discriminate|]. lia.
  - intros (v & Hv & Hrange). rewrite (extract_leading _ _ Hv).
    unfold extracted, Int.in_range in *.
    destruct (v <? Int.min)%Z eqn:H1; [lia|].
    destruct (Int.max <? v)%Z eqn:H2; [lia|]. reflexivity.
Qed.

Lemma extract_int_stored text v :
  leading_integer text v -> Int.in_range v = true -> stored (extract_int text) = v.
Proof.
  intros Hv Hrange. rewrite (extract_leading _ _ Hv). unfold extracted, Int.in_range in *.
  destruct (v <? Int.min)%Z eqn:H1; [lia|].
  destruct (Int.max <? v)%Z eqn:H2; [lia|]. reflexivity.
Qed.
End InputFacts.

Module InputExecution.
Lemma set_var_streams {V} name (variables : member V) v st :
  cin (snd (set_var name variables v st)) = cin st
  /\ cout (snd (set_var name variables v st)) = cout st
  /\ forall e, fst (set_var name variables v st) <> Throw e.
Proof.
  unfold set_var. destruct (find_var name variables (blocks st)) as [[i w]|].
  - cbn. repeat split. discriminate.
  - destruct (blocks st); cbn; repeat split; discriminate.
Qed.

Lemma execute_input var_name st :
  execute (input_stmt var_name) st
  = if succeeded (extract_int (input_line st))
    then set_var_numeric var_name (Number.of_int (stored (extract_int (input_line st))))
           (prompted st)
    else (Throw (runtime_error "User input error: expected an integer"), prompted st).
Proof.
  unfold execute, prompted, input_line, mbind, interp_bind, modify, getline.
  cbn [cin write]. destruct (first_line (cin st)) as [text rest]. cbn [fst snd].
  destruct (succeeded (extract_int text)); reflexivity.
Qed.

Lemma prompted_streams st :
  cout (prompted st) = cout st ++ "? " /\ cin (prompted st) = snd (first_line (cin st)).
Proof.
  unfold prompted, getline. cbn [cin write].
  destruct (first_line (cin st)) as [text rest]. split; reflexivity.
Qed.
End InputExecution.

(** C5, as the claim states it, fails: the line [12abc] is not an
    integer, and INPUT raises no error on it but assigns 12. *)
Lemma C5_counterexample :
  input_line reading_12abc = "12abc"
  /\ is_integer_text "12abc" = false
  /\ exists st', execute (input_stmt "x") reading_12abc = (Ok tt, st')
                 /\ get_var_numeric "x" st' = Ok (Number.of_int 12).
Proof.
  split; [reflexivity|]. split; [reflexivity|].
  eexists. split; vm_compute; reflexivity.
Qed.

(** C5, amended.  INPUT writes the prompt "? " (no newline) and takes one
    line from standard input, whatever the outcome.  It raises the
    runtime error exactly when the line does not start, after white
    space, with an optionally signed run of decimal digits whose value
    fits an [int]; otherwise that leading integer is assigned to the
    variable (what follows the digits on the line is ignored). *)
Theorem C5_input (var_name : string) (st : interpreter) :
  cout (snd (execute (input_stmt var_name) st)) = cout st ++ "? "
  /\ cin (snd (execute (input_stmt var_name) st)) = snd (first_line (cin st))
  /\ (fst (execute (input_stmt var_name) st)
        = Throw (runtime_error "User input error: expected an integer")
      <-> ~ exists v, leading_integer (input_line st) v /\ Int.in_range v = true)
  /\ ((exists e, fst (execute (input_stmt var_name) st) = Throw e)
      <-> ~ exists v, leading_integer (input_line st) v /\ Int.in_range v = true)
  /\ (forall v, leading_integer (input_line st) v -> Int.in_range v = true ->
        execute (input_stmt var_name) st
        = set_var_numeric var_name (Number.of_int v) (prompted st)).
Proof.
  rewrite InputExecution.execute_input.
  destruct (InputExecution.prompted_streams st) as [Hout Hin].
  pose proof (InputFacts.extract_int_succeeds (input_line st)) as Hiff.
  destruct (succeeded (extract_int (input_line st))) eqn:Hs.
  - destruct (InputExecution.set_var_streams var_name numeric_variables
                (Number.of_int (stored (extract_int (input_line st)))) (prompted st))
      as (Hcin & Hcout & Hthrow).
    unfold set_var_numeric.
    split; [rewrite Hcout; exact Hout|]. split; [rewrite Hcin; exact Hin|].
    assert (Hyes : exists v, leading_integer (input_line st) v /\ Int.in_range v = true)
      by (apply Hiff; reflexivity).
    split; [split; [intros H; exfalso; exact (Hthrow _ H) | intros H; contradiction]|].
    split; [split; [intros [e H]; exfalso; exact (Hthrow _ H) | intros H; contradiction]|].
    intros v Hv Hrange. rewrite (InputFacts.extract_int_stored _ _ Hv Hrange). reflexivity.
  - cbn [fst snd]. split; [exact Hout|]. split; [exact Hin|].
    assert (Hno : ~ exists v, leading_integer (input_line st) v /\ Int.in_range v = true).
    { intros H. apply Hiff in H. discriminate. }
    split; [tauto|]. split; [split; eauto|].
    intros v Hv Hrange. exfalso. apply Hno. eauto.
Qed.

(** The amended C5 at the line [12abc], whose leading integer is 12. *)
Lemma C5_witness :
  execute (input_stmt "x") reading_12abc
  = set_var_numeric "x" (Number.of_int 12) (prompted reading_12abc).
Proof.
  apply (proj2 (proj2 (proj2 (proj2 (C5_input "x" reading_12abc))))).
  - exists "", "", "12", "abc".
    split; [reflexivity|]. split; [reflexivity|]. split; [left; reflexivity|].
    split; [discriminate|]. split; [reflexivity|]. split; reflexivity.
  - reflexivity.
Defined.

(** ** Additive expressions *)

Module ExpressionFacts.
Lemma accept_hit what text p x next l :
  next_symbol p = Some x -> matches what text x = true ->
  get_lexeme (lex p) = Ok (next, l) ->
  accept what text p = Ok (Some x, advance_to p next l).
Proof.
  intros Hx Hm Hl.
  unfold accept, accept_any, read_symbol, peek_symbol, mbind, parsing_bind, result_mbind,
    result_bind, mret, parsing_ret.
  rewrite Hx, Hm, Hx, Hl. reflexivity.
Qed.

Lemma accept_miss what text p :
  match next_symbol p with Some x => matches what text x | None => false end = false ->
  accept what text p = Ok (None, p).
Proof.
  intros Hm. unfold accept, peek_symbol, mbind, parsing_bind, mret, parsing_ret.
  destruct (next_symbol p) as [x|]; [rewrite Hm|]; reflexivity.
Qed.

Lemma type_number_matches a : type a = type_number ->
  matches type_number None a = true
  /\ forall text, matches type_symbol text a = false /\ matches type_word text a = false.
Proof. unfold matches. intros ->. cbn. auto. Qed.

Lemma parse_factor_number f p a next l :
  next_symbol p = Some a -> type a = type_number ->
  get_lexeme (lex p) = Ok (next, l) ->
  parse_factor (S f) p
  = Ok (constant_expr (literal_constant 1 (value a)), advance_to p next l).
Proof.
  intros Ha Hty Hl. destruct (type_number_matches a Hty) as [Hnum Hother].
  cbn [parse_factor]. unfold symbol, mbind, parsing_bind.
  rewrite accept_miss by (rewrite Ha; apply Hother).
  rewrite (accept_hit _ _ _ _ _ _ Ha Hnum Hl). reflexivity.
Qed.

Lemma parse_term_number f p a next l :
  next_symbol p = Some a -> type a = type_number ->
  get_lexeme (lex p) = Ok (next, l) ->
  continues_term next = false ->
  parse_term (S (S f)) p
  = Ok (constant_expr (literal_constant 1 (value a)), advance_to p next l).
Proof.
  intros Ha Hty Hl Hnext. cbn [parse_term]. unfold mbind, parsing_bind.
  rewrite (parse_factor_number f p a next l Ha Hty Hl).
  unfold continues_term in Hnext. unfold symbol, word.
  destruct next as [x|].
  - apply orb_false_elim in Hnext as [Hnext Hmod].
    apply orb_false_elim in Hnext as [Hstar Hslash].
    rewrite !accept_miss by (cbn; assumption). reflexivity.
  - rewrite !accept_miss by reflexivity. reflexivity.
Qed.

Lemma minus_matches m :
  matches type_symbol (Some "-") m = true ->
  continues_term (Some m) = false /\ matches type_symbol (Some "+") m = false.
Proof.
  unfold continues_term, matches. intros H. apply andb_prop in H as [Hty Hv].
  apply String.eqb_eq in Hv. rewrite Hv. destruct (type m); try discriminate. auto.
Qed.

Lemma advance_twice p x l y l' :
  advance_to (advance_to p x l) y l' = advance_to p y l'.
Proof. reflexivity. Qed.

(** The literals [a], [b], [c] with a minus sign between them, and then
    a lexeme (or the end) that does not continue the expression. *)
Lemma parse_subtractions n p a m1 b m2 c next l1 l2 l3 l4 l5 :
  next_symbol p = Some a ->
  get_lexeme (lex p) = Ok (Some m1, l1) ->
  get_lexeme l1 = Ok (Some b, l2) ->
  get_lexeme l2 = Ok (Some m2, l3) ->
  get_lexeme l3 = Ok (Some c, l4) ->
  get_lexeme l4 = Ok (next, l5) ->
  type a = type_number -> type b = type_number -> type c = type_number ->
  matches type_symbol (Some "-") m1 = true ->
  matches type_symbol (Some "-") m2 = true ->
  continues_expression next = false ->
  parse_integer_expr (5 + n) p
  = Ok (arith_expr (constant_expr (literal_constant 1 (value a)))
          (arith_expr (constant_expr (literal_constant 1 (value b)))
             (constant_expr (literal_constant 1 (value c))) operator_minus)
          operator_minus,
        advance_to p next l5).
Proof.
  intros Ha H1 H2 H3 H4 H5 Hta Htb Htc Hm1 Hm2 Hnext.
  destruct (minus_matches m1 Hm1) as [Hterm1 Hplus1].
  destruct (minus_matches m2 Hm2) as [Hterm2 Hplus2].
  assert (Hterm3 : continues_term next = false
                   /\ match next with Some x => matches type_symbol (Some "+") x
                                    | None => false end = false
                   /\ match next with Some x => matches type_symbol (Some "-") x
                                    | None => false end = false).
  { unfold continues_expression in Hnext. apply orb_false_elim in Hnext as [Hterm Hnext].
    split; [exact Hterm|]. destruct next as [x|]; [|auto].
    apply orb_false_elim in Hnext as [Hplus Hminus]. auto. }
  destruct Hterm3 as (Hterm3 & Hplus3 & Hminus3).
  change (5 + n) with (S (S (S (S (S n))))).
  cbn [parse_integer_expr]. unfold mbind, parsing_bind, symbol.
  rewrite (parse_term_number _ p a (Some m1) l1 Ha Hta H1 Hterm1).
  rewrite accept_miss by (cbn; exact Hplus1).
  rewrite (accept_hit _ _ (advance_to p (Some m1) l1) m1 (Some b) l2 eq_refl Hm1 H2).
  rewrite advance_twice.
  rewrite (parse_term_number _ (advance_to p (Some b) l2) b (Some m2) l3 eq_refl Htb H3 Hterm2).
  rewrite advance_twice.
  rewrite accept_miss by (cbn; exact Hplus2).
  rewrite (accept_hit _ _ (advance_to p (Some m2) l3) m2 (Some c) l4 eq_refl Hm2 H4).
  rewrite advance_twice.
  rewrite (parse_term_number _ (advance_to p (Some c) l4) c next l5 eq_refl Htc H5 Hterm3).
  rewrite advance_twice.
  rewrite accept_miss by (cbn; exact Hplus3).
  rewrite accept_miss by (cbn; exact Hminus3).
  reflexivity.
Qed.
End ExpressionFacts.

(** C8.  The number lexemes [a], [b], [c] with a minus sign between them
    (and nothing after [c] that continues the expression) parse, at the
    additive level, into the tree whose right operand is the
    subtraction [b - c]; the tree is not the one nested to the left, and
    its value is a - (b - c) in the arithmetic of [number]. *)
Theorem C8_subtraction_nests_to_the_right
    (n : nat) (p : parser) (a m1 b m2 c : lexeme) (next : option lexeme)
    (l1 l2 l3 l4 l5 : lexer) :
  next_symbol p = Some a ->
  get_lexeme (lex p) = Ok (Some m1, l1) ->
  get_lexeme l1 = Ok (Some b, l2) ->
  get_lexeme l2 = Ok (Some m2, l3) ->
  get_lexeme l3 = Ok (Some c, l4) ->
  get_lexeme l4 = Ok (next, l5) ->
  type a = type_number -> type b = type_number -> type c = type_number ->
  matches type_symbol (Some "-") m1 = true ->
  matches type_symbol (Some "-") m2 = true ->
  continues_expression next = false ->
  let A := literal_constant 1 (value a) in
  let B := literal_constant 1 (value b) in
  let C := literal_constant 1 (value c) in
  exists e,
    parse_integer_expr (5 + n) p = Ok (e, advance_to p next l5)
    /\ e = arith_expr (constant_expr A)
             (arith_expr (constant_expr B) (constant_expr C) operator_minus) operator_minus
    /\ e <> arith_expr (arith_expr (constant_expr A) (constant_expr B) operator_minus)
              (constant_expr C) operator_minus
    /\ forall st, evaluate e st = Ok (Number.sub A (Number.sub B C)).
Proof.
  intros Ha H1 H2 H3 H4 H5 Hta Htb Htc Hm1 Hm2 Hnext A B C.
  eexists. split.
  - exact (ExpressionFacts.parse_subtractions n p a m1 b m2 c next l1 l2 l3 l4 l5
             Ha H1 H2 H3 H4 H5 Hta Htb Htc Hm1 Hm2 Hnext).
  - split; [reflexivity|]. split; [discriminate|]. intros st. reflexivity.
Qed.

(** C8 at the text [10 - 4 - 3]: its value is 10 - (4 - 3) = 9. *)
Lemma C8_witness :
  exists e p',
    parse_integer_expr 5 subtraction_parser = Ok (e, p')
    /\ forall st, evaluate e st = Ok (Number.of_int 9).
Proof.
  edestruct (C8_subtraction_nests_to_the_right 0 subtraction_parser)
    as (e & Hparse & _ & _ & Hvalue).
  - vm_compute. reflexivity.
  - vm_compute. reflexivity.
  - vm_compute. reflexivity.
  - vm_compute. reflexivity.
  - vm_compute. reflexivity.
  - vm_compute. reflexivity.
  - reflexivity.
  - reflexivity.
  - reflexivity.
  - reflexivity.
  - reflexivity.
  - reflexivity.
  - exists e. eexists. split; [exact Hparse|].
    intros st. rewrite Hvalue. vm_compute. reflexivity.
Defined.

(** ** Labels *)

Module LabelFacts.
Lemma parse_block_loop_lines fuel : forall result tk p,
  parse_block_loop fuel result tk p
  = match parse_lines fuel tk p with
    | Ok ((ls, tk'), p') => Ok ((fold_left add_line ls result, tk'), p')
    | Throw e => Throw e
    | Undefined u => Undefined u
    | OutOfFuel => OutOfFuel
    end.
Proof.
  induction fuel as [|fuel IH]; intros result tk p; [reflexivity|].
  cbn [parse_block_loop parse_lines].
  unfold mbind, parsing_bind, peek_symbol, mret, parsing_ret.
  destruct (next_symbol p) as [x|]; [|reflexivity].
  destruct (parse_line_from fuel "" tk p) as [[[l tk1] p1]| | |]; try reflexivity.
  destruct (line_statement l) as [s|] eqn:Hs; [|reflexivity].
  rewrite IH. destruct (parse_lines fuel tk1 p1) as [[[ls tk2] p2]| | |]; try reflexivity.
  cbn [fold_left].
  replace (add_line result l) with (block_append result l s)
    by (unfold add_line; rewrite Hs; reflexivity).
  reflexivity.
Qed.

Lemma parse_lines_statements fuel : forall tk p ls tk' p',
  parse_lines fuel tk p = Ok ((ls, tk'), p') ->
  Forall (fun l => is_Some (line_statement l)) ls.
Proof.
  induction fuel as [|fuel IH]; intros tk p ls tk' p'; [discriminate|].
  cbn [parse_lines]. unfold mbind, parsing_bind, peek_symbol, mret, parsing_ret.
  destruct (next_symbol p) as [x|]; [|intros [= <- _ _]; constructor].
  destruct (parse_line_from fuel "" tk p) as [[[l tk1] p1]| | |]; try discriminate.
  destruct (line_statement l) as [s|] eqn:Hs; [|intros [= <- _ _]; constructor].
  destruct (parse_lines fuel tk1 p1) as [[[ls1 tk2] p2]| | |] eqn:Hrest; try discriminate.
  intros [= <- _ _]. constructor; [rewrite Hs; eauto|]. eapply IH. exact Hrest.
Qed.

(** The statements of the block are those of the lines, in order. *)
Lemma fold_statements ls : forall result,
  Forall (fun l => is_Some (line_statement l)) ls ->
  statements (fold_left add_line ls result)
  = (statements result ++ omap line_statement ls)%list.
Proof.
  induction ls as [|l ls IH]; intros result Hall; cbn [fold_left omap].
  - rewrite app_nil_r. reflexivity.
  - inversion Hall as [|? ? [s Hs] Hrest]; subst.
    rewrite IH by exact Hrest. unfold add_line. cbn. rewrite Hs. cbn.
    rewrite <- app_assoc. reflexivity.
Qed.

(** Every line has a statement, so the statement at a position is that
    of the line at the position. *)
Lemma omap_statements ls :
  Forall (fun l => is_Some (line_statement l)) ls ->
  forall i, omap line_statement ls !! i = ls !! i ≫= line_statement.
Proof.
  induction 1 as [|l ls [s Hs] _ IH]; intros i; [reflexivity|].
  cbn. rewrite Hs. destruct i as [|i]; cbn; [rewrite Hs; reflexivity|apply IH].
Qed.

(** The jump table keeps the entries it has and gives every other label
    the position of the first line that carries it. *)
Lemma fold_jump_table label ls (Hlabel : label <> "") : forall result,
  Forall (fun l => is_Some (line_statement l)) ls ->
  jump_table (fold_left add_line ls result) !! label
  = match jump_table result !! label with
    | Some i => Some i
    | None => (fun k => at_position (length (statements result) + k))
                <$> first_labelled label ls
    end.
Proof.
  induction ls as [|l ls IH]; intros result Hall; cbn [fold_left].
  - destruct (jump_table result !! label); reflexivity.
  - inversion Hall as [|? ? [s Hs] Hrest]; subst.
    rewrite IH by exact Hrest. unfold add_line. rewrite Hs.
    unfold block_append, first_labelled. cbn [jump_table statements list_find].
    rewrite length_app. cbn [length].
    destruct (decide (line_label l = label)) as [Heq|Hne].
    + rewrite Heq. destruct label as [|c label]; [congruence|]. cbn [string_is_empty negb].
      unfold map_insert. destruct (jump_table result !! String c label) as [i|] eqn:Hi.
      * rewrite Hi. reflexivity.
      * rewrite lookup_insert_eq. cbn. do 2 f_equal. lia.
    + assert (Hkeep : (if negb (string_is_empty (line_label l))
                       then map_insert (line_label l) (at_position (length (statements result)))
                              (jump_table result)
                       else jump_table result) !! label = jump_table result !! label).
      { destruct (string_is_empty (line_label l)); [reflexivity|]. cbn.
        unfold map_insert. destruct (jump_table result !! line_label l); [reflexivity|].
        apply lookup_insert_ne. exact Hne. }
      rewrite Hkeep. destruct (jump_table result !! label); [reflexivity|].
      destruct (list_find _ ls) as [[k y]|]; cbn; [do 2 f_equal; lia|reflexivity].
Qed.

Lemma jump_front label i st f rest :
  blocks st = f :: rest ->
  jump_table (execution_block.block f) !! label = Some (at_position i) ->
  jump label st = (Ok tt, set_blocks (set_current_statement i f :: rest) st).
Proof. intros Hb Hi. unfold jump. rewrite Hb. cbn. rewrite Hi. reflexivity. Qed.

(** The meaning of [first_labelled]: the line at the position carries
    the label, and no line before it does. *)
Lemma first_labelled_Some label ls i :
  first_labelled label ls = Some i <->
  line_label <$> ls !! i = Some label
  /\ forall k, k < i -> line_label <$> ls !! k <> Some label.
Proof.
  unfold first_labelled. split.
  - intros H. apply fmap_Some in H as ([i' l] & Hfind & ->). cbn.
    apply list_find_Some in Hfind as (Hl & Hlabel & Hmin). split.
    + rewrite Hl. cbn. congruence.
    + intros k Hk. destruct (ls !! k) as [y|] eqn:Hy; cbn; [|discriminate].
      intros [= Hyl]. exact (Hmin k y Hy Hk Hyl).
  - intros [Hi Hmin]. destruct (ls !! i) as [l|] eqn:Hl; [|discriminate].
    cbn in Hi. injection Hi as Hi.
    apply fmap_Some. exists (i, l). split; [|reflexivity].
    apply list_find_Some. split; [exact Hl|]. split; [exact Hi|].
    intros k y Hy Hk Hyl. apply (Hmin k Hk). rewrite Hy. cbn. congruence.
Qed.
End LabelFacts.

Module FrameFacts.
Lemma jump_loop_above label above : forall f below target,
  Forall (fun g => ~ defines_label label g) above ->
  jump_table (execution_block.block f) !! label = Some target ->
  jump_loop label (above ++ f :: below) = Some (target, f, below).
Proof.
  induction above as [|g above IH]; intros f below target Habove Hf.
  - cbn. rewrite Hf. reflexivity.
  - inversion Habove as [|? ? Hg Hrest]; subst. cbn.
    destruct (jump_table (execution_block.block g) !! label) eqn:E.
    + exfalso. apply Hg. unfold defines_label. rewrite E. eauto.
    + apply IH; assumption.
Qed.

Lemma jump_loop_nowhere label bs :
  Forall (fun g => ~ defines_label label g) bs -> jump_loop label bs = None.
Proof.
  induction 1 as [|g bs Hg _ IH]; [reflexivity|]. cbn.
  destruct (jump_table (execution_block.block g) !! label) eqn:E; [|exact IH].
  exfalso. apply Hg. unfold defines_label. rewrite E. eauto.
Qed.

Lemma exit_block_loop_above name above : forall f below,
  Forall (fun g => frame_name g <> name) above ->
  frame_name f = name ->
  exit_block_loop name (above ++ f :: below) = Some below.
Proof.
  induction above as [|g above IH]; intros f below Habove Hf.
  - cbn. fold (frame_name f). rewrite Hf, String.eqb_refl. reflexivity.
  - inversion Habove as [|? ? Hg Hrest]; subst. cbn. fold (frame_name g).
    rewrite (proj2 (String.eqb_neq _ _) Hg). apply IH; auto.
Qed.

Lemma exit_block_loop_nowhere name bs :
  Forall (fun g => frame_name g <> name) bs -> exit_block_loop name bs = None.
Proof.
  induction 1 as [|g bs Hg _ IH]; [reflexivity|]. cbn. fold (frame_name g).
  rewrite (proj2 (String.eqb_neq _ _) Hg). exact IH.
Qed.
(** What [set_current_statement] leaves of a frame. *)
Lemma set_current_statement_members i f :
  set_current_statement i f
  = {| execution_block.statement := execution_block.statement f;
       execution_block.block := execution_block.block f;
       execution_block.current_statement := i;
       execution_block.numeric_variables := execution_block.numeric_variables f;
       execution_block.string_variables := execution_block.string_variables f |}.
Proof. reflexivity. Qed.

(** The table of a copied block has the labels of the original, each
    with a dangling iterator. *)
Lemma copy_block_jump_table b label :
  jump_table (copy_block b) !! label = (fun _ => dangling) <$> jump_table b !! label.
Proof. unfold copy_block. cbn [jump_table]. apply lookup_fmap. Qed.

End FrameFacts.

(** C10.  Whatever lines the loop of [parse_block] reads, the block is
    built (a label that comes back is no error), its statements are
    those of the lines, and its jump table gives a label an iterator to
    the first line that carries it.  When the lines at [i] and at a
    later [j] carry the same label and no line before [i] does, the
    table has the iterator to [i], where the statement of line [i] is;
    a jump to the label that finds it in a frame of that very block
    (the root block of the program) pops the frames in front and sets
    the cursor of the frame to [i].  In a frame of a copy of the block,
    which is what a FOR, a DO or an IF statement keeps of its body, the
    iterator dangles and the jump has no defined outcome: the program
    that jumps to a label used twice prints 1 and 2 at the top level,
    and ends in the use of a dangling iterator inside a FOR. *)
Theorem C10_jump_table_of_a_copied_block
    (fuel : nat) (tk tk' : string) (p p' : parser) (ls : list parsed_line) (label : string) :
  parse_lines fuel tk p = Ok ((ls, tk'), p') ->
  label <> "" ->
  (exists b,
    parse_block fuel tk p = Ok ((b, tk'), p')
    /\ statements b = omap line_statement ls
    /\ length (statements b) = length ls
    /\ jump_table b !! label = at_position <$> first_labelled label ls
    /\ (forall i j, i < j ->
          line_label <$> ls !! i = Some label ->
          line_label <$> ls !! j = Some label ->
          (forall k, k < i -> line_label <$> ls !! k <> Some label) ->
          jump_table b !! label = Some (at_position i)
          /\ statements b !! i = ls !! i ≫= line_statement
          /\ (forall st above f rest,
                blocks st = (above ++ f :: rest)%list ->
                Forall (fun g => jump_table (execution_block.block g) !! label = None) above ->
                execution_block.block f = b ->
                jump label st
                = (Ok tt,
                   set_blocks
                     ({| execution_block.statement := execution_block.statement f;
                         execution_block.block := b;
                         execution_block.current_statement := i;
                         execution_block.numeric_variables :=
                           execution_block.numeric_variables f;
                         execution_block.string_variables :=
                           execution_block.string_variables f |} :: rest) st))
          /\ (forall st above f rest,
                blocks st = (above ++ f :: rest)%list ->
                Forall (fun g => jump_table (execution_block.block g) !! label = None) above ->
                execution_block.block f = copy_block b ->
                jump label st
                = (Undefined dangling_iterator, set_blocks (f :: rest) st))))
  /\ main 50 jump_to_twice_labelled "" = (Ok tt, "1" ++ nl ++ "2" ++ nl)
  /\ main 50 jump_inside_for "" = (Undefined dangling_iterator, "").
Proof.
  intros Hlines Hlabel.
  split; [|split; vm_compute; reflexivity].
  pose proof (LabelFacts.parse_lines_statements _ _ _ _ _ _ Hlines) as Hall.
  exists (fold_left add_line ls (Block [] ∅)).
  assert (Hstatements : statements (fold_left add_line ls (Block [] ∅))
                        = omap line_statement ls).
  { rewrite LabelFacts.fold_statements by exact Hall. reflexivity. }
  assert (Htable : jump_table (fold_left add_line ls (Block [] ∅)) !! label
                   = at_position <$> first_labelled label ls).
  { rewrite LabelFacts.fold_jump_table by assumption. cbn [jump_table statements length].
    rewrite lookup_empty. destruct (first_labelled label ls); reflexivity. }
  split.
  { unfold parse_block. rewrite LabelFacts.parse_block_loop_lines, Hlines. reflexivity. }
  split; [exact Hstatements|].
  split.
  { rewrite Hstatements. clear -Hall. induction Hall as [|l ls [s Hs] _ IH]; [reflexivity|].
    cbn. rewrite Hs. cbn. congruence. }
  split; [exact Htable|].
  intros i j Hij Hi Hj Hmin.
  assert (Hfirst : first_labelled label ls = Some i)
    by (apply LabelFacts.first_labelled_Some; auto).
  assert (Habove : forall above,
            Forall (fun g => jump_table (execution_block.block g) !! label = None) above ->
            Forall (fun g => ~ defines_label label g) above).
  { intros above Hno. eapply Forall_impl; [exact Hno|]. intros g Hg [x Hx]. congruence. }
  split; [rewrite Htable, Hfirst; reflexivity|].
  split; [rewrite Hstatements; apply LabelFacts.omap_statements; exact Hall|].
  split.
  - intros st above f rest Hb Hno Hf. unfold jump. rewrite Hb.
    rewrite (FrameFacts.jump_loop_above label above f rest (at_position i)).
    + rewrite FrameFacts.set_current_statement_members, Hf. reflexivity.
    + apply Habove. exact Hno.
    + rewrite Hf, Htable, Hfirst. reflexivity.
  - intros st above f rest Hb Hno Hf. unfold jump. rewrite Hb.
    rewrite (FrameFacts.jump_loop_above label above f rest dangling).
    + reflexivity.
    + apply Habove. exact Hno.
    + rewrite Hf, FrameFacts.copy_block_jump_table, Htable, Hfirst. reflexivity.
Qed.

(** C10 at the program that labels its second and its third line 10:
    the table of the block gives 10 the position of the second line,
    and the statement there is that of the second line. *)
Lemma C10_witness :
  exists b p',
    parse_block 20 "" twice_labelled_parser = Ok ((b, ""), p')
    /\ length (statements b) = 3
    /\ jump_table b !! "10" = Some (at_position 1)
    /\ statements b !! 1
       = Some (print_stmt [printable_numeric (constant_expr (literal_constant 1 "1"))]).
Proof.
  edestruct C10_jump_table_of_a_copied_block
    with (fuel := 20) (tk := "") (p := twice_labelled_parser) (label := "10")
    as [(b & Hparse & _ & Hlength & _ & Hdup) _].
  - vm_compute. reflexivity.
  - discriminate.
  - exists b. eexists. split; [exact Hparse|]. split; [exact Hlength|].
    destruct (Hdup 1 2) as (Htable & Hstatement & _).
    + lia.
    + reflexivity.
    + reflexivity.
    + intros [|k] Hk; [discriminate|lia].
    + split; [exact Htable|]. rewrite Hstatement. vm_compute. reflexivity.
Defined.

(** ** FOR loops *)

Module ForFacts.
Lemma executions_add address a n pt st :
  executions address (a + n) pt st
  = executions address a pt st
    + match run_steps a pt st with
      | (Ok pt', st') => executions address n pt' st'
      | _ => 0
      end.
Proof.
  revert pt st. induction a as [|a IH]; intros pt st.
  - cbn. reflexivity.
  - cbn [Nat.add executions run_steps]. unfold mbind, interp_bind.
    destruct (run_step pt st) as [[pt'| | |] st']; rewrite ?IH; lia.
Qed.

Lemma executions_one address pt st :
  executions address 1 pt st = if entering address pt st then 1 else 0.
Proof.
  cbn [executions]. destruct (run_step pt st) as [[pt'| | |] st']; lia.
Qed.

(** The value a numeric variable has after it has been assigned. *)
Lemma find_var_bound name (v : number) bs : forall i w,
  find_var name numeric_variables bs = Some (i, w) ->
  find_var name numeric_variables (alter (bind name numeric_variables v) i bs) = Some (i, v).
Proof.
  induction bs as [|b bs IH]; intros i w; [discriminate|].
  cbn [find_var member_get numeric_variables].
  destruct (execution_block.numeric_variables b !! name) as [x|] eqn:Hb.
  - intros [= <- <-]. cbn. rewrite lookup_insert_eq. reflexivity.
  - destruct (find_var name numeric_variables bs) as [[k y]|] eqn:Hrest; [|discriminate].
    intros [= <- <-]. cbn [alter list_alter find_var member_get numeric_variables].
    rewrite Hb. rewrite (IH k y eq_refl). reflexivity.
Qed.

Lemma set_then_get name v st st' :
  set_var_numeric name v st = (Ok tt, st') ->
  get_var_numeric name st' = Ok v
  /\ should_stop st' = should_stop st
  /\ for_objects st' = for_objects st.
Proof.
  unfold set_var_numeric, set_var, get_var_numeric, get_var.
  destruct (find_var name numeric_variables (blocks st)) as [[i w]|] eqn:Hfind.
  - intros [= <-]. cbn [blocks set_blocks should_stop for_objects].
    rewrite (find_var_bound _ _ _ _ _ Hfind). auto.
  - destruct (blocks st) as [|front rest] eqn:Hb; [discriminate|].
    intros [= <-]. cbn. cbn in Hfind.
    destruct (execution_block.numeric_variables front !! name) eqn:Hn; [discriminate|].
    unfold map_insert. rewrite Hn, lookup_insert_eq. auto.
Qed.

(** An assignment to a variable that can be read succeeds. *)
Lemma set_after_get name v w st :
  get_var_numeric name st = Ok w -> exists st', set_var_numeric name v st = (Ok tt, st').
Proof.
  unfold set_var_numeric, set_var, get_var_numeric, get_var.
  destruct (find_var name numeric_variables (blocks st)) as [[i x]|]; [|discriminate].
  eauto.
Qed.

Lemma wrap_in_range z : (Int.min <= z <= Int.max)%Z -> Int.wrap z = z.
Proof.
  unfold Int.wrap, Int.min, Int.max. intros H.
  rewrite Z.mod_small by lia. lia.
Qed.

(** The step out of a frame that has run to its end. *)
Lemma run_step_at_end s st :
  at_end s st ->
  run_step inner_loop st
  = match iterate s (exit_block st) with
    | (Ok _, st') => (Ok outer_loop, st')
    | (Throw e, st') => (Throw e, st')
    | (Undefined u, st') => (Undefined u, st')
    | (OutOfFuel, st') => (OutOfFuel, st')
    end.
Proof.
  intros (fr & rest & Hb & Hs & Hend).
  unfold run_step, mbind, interp_bind, gets, modify, mret, interp_ret.
  rewrite Hb, Hend, Nat.eqb_refl. cbn [negb andb]. rewrite Hs.
  destruct (iterate s (exit_block st)) as [[[]| | |] st']; reflexivity.
Qed.

Lemma run_step_outer st fr rest :
  blocks st = fr :: rest -> should_stop st = false ->
  run_step outer_loop st = (Ok inner_loop, st).
Proof.
  intros Hb Hs. unfold run_step, mbind, interp_bind, gets, mret, interp_ret.
  rewrite Hb, Hs. reflexivity.
Qed.

Section loop.
Variables (address : nat) (variable_name : string)
          (e_init e_final e_step : numeric_expr) (body : block).
Local Abbreviation F := (for_stmt address variable_name e_init e_final e_step body).
Variables (i f s : Z) (nf ns : number).
Hypotheses (Hnf : integral nf = true) (Hns : integral ns = true)
           (Hf : integral_value nf = f) (Hs : integral_value ns = s)
           (Hpos : (0 < s)%Z) (Hmin : (Int.min <= i)%Z)
           (Hmax : (i <= f -> i + ((f - i) / s + 1) * s <= Int.max)%Z).

Lemma for_condition_integral x (fetch : interp number) st :
  fetch st = (Ok x, st) -> integral x = true ->
  for_condition {| final_value := nf; step := ns |} fetch st
  = (Ok (integral_value x <=? f)%Z, st).
Proof.
  intros Hfetch Hx. unfold for_condition, mbind, interp_bind, mret, interp_ret.
  cbn [step final_value].
  assert (Hgt : Number.gtb ns (Number.of_int 0) = true).
  { unfold Number.gtb, Number.leb, Number.ltb, Number.eqb, Number.is_integral,
      Number.get_integral_value. rewrite Hns, Hs. cbn. lia. }
  assert (Hlt : Number.ltb ns (Number.of_int 0) = false).
  { unfold Number.ltb, Number.is_integral, Number.get_integral_value.
    rewrite Hns, Hs. cbn. lia. }
  assert (Hle : Number.leb x nf = (integral_value x <=? f)%Z).
  { unfold Number.leb, Number.ltb, Number.eqb, Number.is_integral,
      Number.get_integral_value. rewrite Hx, Hnf, Hf. cbn. lia. }
  rewrite Hgt, Hfetch, Hle, Hlt.
  destruct (integral_value x <=? f)%Z; reflexivity.
Qed.

Lemma iterate_for x st :
  get_var_numeric variable_name st = Ok x -> integral x = true ->
  members_at address st = {| final_value := nf; step := ns |} ->
  (Int.min <= integral_value x /\ integral_value x + s <= Int.max)%Z ->
  exists st1 x',
    set_var_numeric variable_name x' st = (Ok tt, st1)
    /\ integral x' = true /\ integral_value x' = (integral_value x + s)%Z
    /\ iterate F st
       = (Ok tt, if (integral_value x + s <=? f)%Z
                 then enter_block body (Some F) st1 else st1).
Proof.
  intros Hget Hx Hm Hrange.
  destruct (set_after_get variable_name (Number.add_assign x ns) x st Hget) as [st1 Hset].
  exists st1, (Number.add_assign x ns).
  assert (Hx' : integral (Number.add_assign x ns) = true).
  { unfold Number.add_assign, Number.check_and_promote, Number.is_integral. cbn.
    rewrite Hx, Hns. reflexivity. }
  assert (Hv' : integral_value (Number.add_assign x ns) = (integral_value x + s)%Z).
  { cbn. rewrite Hs. apply wrap_in_range. lia. }
  split; [exact Hset|]. split; [exact Hx'|]. split; [exact Hv'|].
  unfold iterate, mbind, interp_bind, lift_get, gets, modify.
  rewrite Hget, Hm. cbn [step]. rewrite Hset.
  rewrite (for_condition_integral (Number.add_assign x ns)); [|reflexivity|exact Hx'].
  rewrite Hv'. destruct (integral_value x + s <=? f)%Z; reflexivity.
Qed.

Variable Inv : interpreter -> Prop.
Hypothesis Inv_running : forall st, Inv st -> should_stop st = false.
Hypothesis Inv_assigned :
  forall st x st', Inv st -> set_var_numeric variable_name x st = (Ok tt, st') -> Inv st'.
Hypothesis Hbody : body_runs Inv F address variable_name body.

Local Abbreviation members := {| final_value := nf; step := ns |}.
Local Abbreviation between_passes j :=
  (between Inv address variable_name members (i + Z.of_nat j * s)).

Lemma one_pass j st :
  between_passes j st -> (i + Z.of_nat j * s <= f)%Z ->
  exists n st1,
    between_passes (S j) st1
    /\ run_steps n inner_loop (enter_block body (Some F) st)
       = (Ok outer_loop,
          if (i + Z.of_nat (S j) * s <=? f)%Z then enter_block body (Some F) st1 else st1)
    /\ executions address n inner_loop (enter_block body (Some F) st) = 1.
Proof.
  intros (HInv & Hm & x & Hget & Hx & Hv) Hle.
  destruct (Hbody st HInv) as (k & st' & Hrun & Hcount & Hend & HInv' & Hget' & Hm').
  rewrite Hget in Hget'. rewrite Hm in Hm'.
  destruct (iterate_for x (exit_block st') Hget' Hx Hm') as (st1 & x' & Hset & Hx' & Hv' & Hit).
  { rewrite Hv.
    assert (Hj : (Z.of_nat j <= (f - i) / s)%Z) by (apply Z.div_le_lower_bound; lia).
    assert (Hif : (i <= f)%Z) by nia.
    specialize (Hmax Hif). nia. }
  destruct (set_then_get _ _ _ _ Hset) as (Hget1 & _ & Hobjects).
  exists (k + 1), st1. split.
  - split; [exact (Inv_assigned _ _ _ HInv' Hset)|]. split.
    + unfold members_at in *. rewrite Hobjects. exact Hm'.
    + exists x'. split; [exact Hget1|]. split; [exact Hx'|]. rewrite Hv', Hv. lia.
  - split.
    + rewrite RunFacts.run_steps_add, Hrun. cbn [run_steps]. unfold mbind, interp_bind.
      rewrite (run_step_at_end _ _ Hend), Hit. unfold mret, interp_ret.
      rewrite Hv. replace (i + Z.of_nat j * s + s)%Z with (i + Z.of_nat (S j) * s)%Z by lia.
      reflexivity.
    + replace (k + 1) with (S k) by lia. exact Hcount.
Qed.

Lemma all_passes m : forall j st,
  between_passes j st -> (i + Z.of_nat j * s <= f)%Z ->
  Z.of_nat m = ((f - (i + Z.of_nat j * s)) / s + 1)%Z ->
  exists n st',
    run_steps n inner_loop (enter_block body (Some F) st) = (Ok outer_loop, st')
    /\ executions address n inner_loop (enter_block body (Some F) st) = m
    /\ between_passes (j + m) st'.
Proof.
  induction m as [|m IH]; intros j st Hbetween Hle Hm.
  - exfalso. assert (0 <= (f - (i + Z.of_nat j * s)) / s)%Z by (apply Z.div_pos; lia). lia.
  - destruct (one_pass j st Hbetween Hle) as (n1 & st1 & Hnext & Hrun1 & Hcount1).
    destruct (i + Z.of_nat (S j) * s <=? f)%Z eqn:Hgo.
    + apply Z.leb_le in Hgo.
      assert (Hm' : Z.of_nat m = ((f - (i + Z.of_nat (S j) * s)) / s + 1)%Z).
      { replace (f - (i + Z.of_nat j * s))%Z
          with ((f - (i + Z.of_nat (S j) * s)) + 1 * s)%Z in Hm by lia.
        rewrite Z.div_add in Hm by lia. lia. }
      destruct (IH (S j) st1 Hnext Hgo Hm') as (n2 & st' & Hrun2 & Hcount2 & Hend).
      exists (n1 + (1 + n2)), st'. split; [|split].
      * rewrite RunFacts.run_steps_add, Hrun1, RunFacts.run_steps_add.
        cbn [run_steps]. unfold mbind at 1, interp_bind at 1.
        erewrite run_step_outer;
          [| reflexivity | cbn; apply Inv_running; apply Hnext].
        unfold mret, interp_ret. exact Hrun2.
      * rewrite executions_add, Hrun1, Hcount1, executions_add.
        cbn [executions run_steps entering]. unfold mbind at 1, interp_bind at 1.
        erewrite run_step_outer;
          [| reflexivity | cbn; apply Inv_running; apply Hnext].
        unfold mret, interp_ret. rewrite Hcount2. lia.
      * replace (j + S m) with (S j + m) by lia. exact Hend.
    + apply Z.leb_gt in Hgo.
      assert (m = 0).
      { assert ((f - (i + Z.of_nat j * s)) / s = 0)%Z by (apply Z.div_small; lia). lia. }
      subst m. exists n1, st1. split; [exact Hrun1|]. split; [exact Hcount1|].
      replace (j + 1) with (S j) by lia. exact Hnext.
Qed.
End loop.
End ForFacts.



Module SampleLoop.
(** The loop from 1 to 10 by 4 that prints its variable: the run
    returns, the body has started three times and has printed 1, 5, 9. *)
Lemma stepping_program_runs :
  main 40 stepping_program "" = (Ok tt, "1" ++ nl ++ "5" ++ nl ++ "9" ++ nl)
  /\ fst (run_steps 40 outer_loop stepping_interpreter) = Ok returned
  /\ executions 0 40 outer_loop stepping_interpreter = 3
  /\ iterations 1 10 4 = 3%Z.
Proof.
  split; [vm_compute; reflexivity|]. split; [vm_compute; reflexivity|].
  split; vm_compute; reflexivity.
Qed.

Lemma body_runs_to_its_end : body_runs running sample_loop 0 "i" one_line_body.
Proof.
  intros st Hst. unfold running in Hst.
  assert (Hrun : run_steps 1 inner_loop (enter_block one_line_body (Some sample_loop) st)
                 = (Ok inner_loop,
                    set_blocks
                      ({| execution_block.statement := Some sample_loop;
                          execution_block.block := one_line_body;
                          execution_block.current_statement := 1;
                          execution_block.numeric_variables := ∅;
                          execution_block.string_variables := ∅ |} :: blocks st) st)).
  { cbn [run_steps]. unfold run_step, mbind, interp_bind, gets, modify, mret, interp_ret.
    cbn. rewrite Hst. reflexivity. }
  exists 1. eexists. split; [exact Hrun|].
  split; [|split; [|split; [|split]]].
  - change 2 with (1 + 1). rewrite ForFacts.executions_add, Hrun, !ForFacts.executions_one.
    reflexivity.
  - eexists. eexists. split; [reflexivity|]. split; reflexivity.
  - exact Hst.
  - reflexivity.
  - reflexivity.
Qed.

Lemma running_assigned (st : interpreter) (x : number) (st' : interpreter) :
  running st -> set_var_numeric "i" x st = (Ok tt, st') -> running st'.
Proof.
  unfold running. intros Hst Hset.
  destruct (ForFacts.set_then_get _ _ _ _ Hset) as (_ & Hstop & _). congruence.
Qed.
End SampleLoop.


(** ** Printed integers *)

Module TextFacts.
Import InputFacts.

Lemma digit_char_code d : (0 <= d <= 9)%Z -> int_of_uchar (digit_char d) = (48 + d)%Z.
Proof.
  intros H.
  assert (d = 0 \/ d = 1 \/ d = 2 \/ d = 3 \/ d = 4 \/ d = 5 \/ d = 6 \/ d = 7 \/ d = 8 \/ d = 9)%Z
    as Hd by lia.
  repeat destruct Hd as [->|Hd]; try subst d; reflexivity.
Qed.

Lemma decimal_value_app s : forall t a,
  decimal_value (s ++ t) a = decimal_value t (decimal_value s a).
Proof.
  induction s as [|c s IH]; intros t a.
  - reflexivity.
  - rewrite append_cons. cbn. apply IH.
Qed.

Lemma string_forall_app P s t :
  string_forall P (s ++ t) = string_forall P s && string_forall P t.
Proof.
  induction s as [|c s IH].
  - reflexivity.
  - rewrite append_cons. cbn. rewrite IH, andb_assoc. reflexivity.
Qed.

Lemma append_assoc (s t u : string) : (s ++ t) ++ u = s ++ t ++ u.
Proof.
  induction s as [|c s IH]; [reflexivity|].
  rewrite !append_cons, IH. reflexivity.
Qed.

Lemma append_empty (s : string) : s ++ "" = s.
Proof.
  induction s as [|c s IH]; [reflexivity|]. rewrite append_cons, IH. reflexivity.
Qed.

Lemma length_app (s t : string) :
  String.length (s ++ t) = (String.length s + String.length t)%nat.
Proof.
  induction s as [|c s IH]; [reflexivity|]. rewrite append_cons. cbn. rewrite IH. reflexivity.
Qed.

(** The digits that [os << n] writes for [0 <= n], in front of what was
    accumulated: a non-empty run of decimal digits whose value is [n]. *)
Lemma decimal_digits_spec fuel : forall n acc,
  (0 <= n < 10 ^ Z.of_nat (S fuel))%Z ->
  exists ds, decimal_digits (S fuel) n acc = ds ++ acc
             /\ ds <> ""
             /\ string_forall isdigit ds = true
             /\ decimal_value ds 0%Z = n.
Proof.
  induction fuel as [|fuel IH]; intros n acc Hn.
  - exists (String (digit_char n) "").
    assert (0 <= n <= 9)%Z as Hd by (cbn in Hn; lia).
    cbn [decimal_digits]. rewrite (Z.mod_small n 10) by lia.
    split; [destruct (n / 10 =? 0)%Z; reflexivity|].
    split; [discriminate|].
    cbn. unfold digit_value. rewrite (digit_char_code n Hd). unfold isdigit. lia.
  - change (decimal_digits (S (S fuel)) n acc)
      with (let acc' := String (digit_char (n mod 10)) acc in
            if (n / 10 =? 0)%Z then acc' else decimal_digits (S fuel) (n / 10) acc').
    cbv zeta.
    assert (0 <= n mod 10 <= 9)%Z as Hd by (pose proof (Z.mod_pos_bound n 10); lia).
    destruct (n / 10 =? 0)%Z eqn:Hq.
    + exists (String (digit_char (n mod 10)) "").
      split; [reflexivity|]. split; [discriminate|].
      cbn. unfold digit_value. rewrite (digit_char_code _ Hd). unfold isdigit.
      pose proof (Z.div_mod n 10). split; [lia|]. lia.
    + destruct (IH (n / 10)%Z (String (digit_char (n mod 10)) acc)) as (ds & Heq & Hne & Hds & Hv).
      { split; [apply Z.div_pos; lia|].
        apply Z.div_lt_upper_bound; [lia|].
        replace (Z.of_nat (S (S fuel))) with (Z.succ (Z.of_nat (S fuel))) in Hn by lia.
        rewrite Z.pow_succ_r in Hn by lia. lia. }
      exists (ds ++ String (digit_char (n mod 10)) "").
      split; [rewrite Heq, append_assoc; reflexivity|].
      split; [destruct ds; [congruence|discriminate]|].
      split.
      * rewrite string_forall_app, Hds. cbn. rewrite (digit_char_code _ Hd).
        unfold isdigit. lia.
      * rewrite decimal_value_app, Hv. cbn. unfold digit_value.
        rewrite (digit_char_code _ Hd). pose proof (Z.div_mod n 10). lia.
Qed.

Lemma string_of_nonneg_spec n :
  (0 <= n)%Z ->
  string_of_nonneg n <> ""
  /\ string_forall isdigit (string_of_nonneg n) = true
  /\ decimal_value (string_of_nonneg n) 0%Z = n.
Proof.
  intros Hn. unfold string_of_nonneg.
  destruct (decimal_digits_spec (Z.to_nat (Z.log2 n)) n "") as (ds & Heq & Hne & Hds & Hv).
  - split; [exact Hn|].
    rewrite Nat2Z.inj_succ, Z2Nat.id by apply Z.log2_nonneg.
    destruct (Z.eq_dec n 0%Z) as [->|Hnz]; [reflexivity|].
    pose proof (Z.log2_spec n ltac:(lia)) as [_ Hlt].
    eapply Z.lt_le_trans; [exact Hlt|].
    apply Z.pow_le_mono_l. lia.
  - rewrite Heq, append_empty. auto.
Qed.

(** The text written for an [int] starts with an integer that is as long
    as the text, and whose value is the [int]. *)
Lemma string_of_int_leading z : leading_integer (string_of_int z) z.
Proof.
  unfold string_of_int. destruct (z <? 0)%Z eqn:Hneg.
  - destruct (string_of_nonneg_spec (- z)) as (Hne & Hds & Hv); [lia|].
    exists "", "-", (string_of_nonneg (- z)), "".
    rewrite append_empty. repeat split; auto. rewrite Hv, String.eqb_refl. lia.
  - destruct (string_of_nonneg_spec z) as (Hne & Hds & Hv); [lia|].
    exists "", "", (string_of_nonneg z), "".
    rewrite append_empty. repeat split; auto.
Qed.

(** A run of digits has no decimal point. *)
Lemma digits_have_no_point s :
  string_forall isdigit s = true -> string_contains "." s = false.
Proof.
  induction s as [|c s IH]; [reflexivity|]. cbn [string_forall string_contains]. intros H.
  apply andb_prop in H as [Hc Hs]. rewrite (IH Hs), orb_false_r.
  unfold char_eqb. destruct (Ascii.eqb_spec "."%char c) as [<-|]; [discriminate|reflexivity].
Qed.
End TextFacts.

(** X1. An [int] that is printed and read back is the same [int]: the
    text that PRINT writes for an integral number is accepted whole by
    the extraction of INPUT, which stores the value printed; written in
    a program, the text of a value that is not negative is the literal
    of that value. *)
Theorem X1_printed_integer_reads_back (z : Z) (Hrange : Int.in_range z = true) :
  extract_int (show_number (Number.of_int z)) = {| stored := z; succeeded := true |}
  /\ ((0 <= z)%Z -> literal_constant 1 (show_number (Number.of_int z)) = Number.of_int z).
Proof.
  change (show_number (Number.of_int z)) with (string_of_int z).
  assert (Hread : extract_int (string_of_int z) = {| stored := z; succeeded := true |}).
  { rewrite (InputFacts.extract_leading _ _ (TextFacts.string_of_int_leading z)).
    unfold extracted, Int.in_range in *.
    destruct (z <? Int.min)%Z eqn:H1; [lia|].
    destruct (Int.max <? z)%Z eqn:H2; [lia|]. reflexivity. }
  split; [exact Hread|].
  intros Hz. unfold literal_constant. rewrite Hread.
  unfold string_of_int. destruct (z <? 0)%Z eqn:Hneg; [lia|].
  destruct (TextFacts.string_of_nonneg_spec z Hz) as (_ & Hds & _).
  rewrite (TextFacts.digits_have_no_point _ Hds). cbn [negb stored].
  f_equal. unfold Int.mul. rewrite Z.mul_1_l. apply ForFacts.wrap_in_range.
  unfold Int.in_range in Hrange. lia.
Qed.

Lemma X1_witness :
  Int.in_range (-2147483648) = true
  /\ extract_int (show_number (Number.of_int (-2147483648)))
     = {| stored := (-2147483648)%Z; succeeded := true |}.
Proof.
  split; [reflexivity|].
  exact (proj1 (X1_printed_integer_reads_back (-2147483648) eq_refl)).
Defined.

(** ** Integral numbers *)

(** X2. Sums, differences and products of integral numbers are integral:
    an expression built with [+], [-] and [*] from integral constants
    and from variables, evaluated where every variable holds an
    integral number, yields an integral number, or throws because one of
    its variables is undefined; it has no other outcome. *)
Theorem X2_whole_arithmetic_stays_integral (e : numeric_expr) (st : interpreter)
    (He : whole_arithmetic e = true) (Hst : whole_variables st) :
  (exists v, evaluate e st = Ok v /\ Number.is_integral v = true)
  \/ (exists name, evaluate e st = Throw (runtime_error ("Variable " ++ name ++ " undefined"))).
Proof.
  induction e as [v|name|l IHl r IHr op|l IHl r IHr op|l IHl r op]; cbn in He;
    try discriminate.
  - left. exists v. auto.
  - cbn. destruct (get_var_numeric name st) as [v| | |] eqn:Hget.
    + left. exists v. split; [reflexivity|]. exact (Hst _ _ Hget).
    + right. exists name. revert Hget. unfold get_var_numeric, get_var.
      destruct (find_var _ _ _) as [[i w]|]; [discriminate|]. auto.
    + revert Hget. unfold get_var_numeric, get_var.
      destruct (find_var _ _ _) as [[i w]|]; discriminate.
    + revert Hget. unfold get_var_numeric, get_var.
      destruct (find_var _ _ _) as [[i w]|]; discriminate.
  - apply andb_prop in He as [He Hop]. apply andb_prop in He as [Hl Hr].
    cbn [evaluate].
    destruct (IHl Hl) as [(a & -> & Ha)|(name & ->)]; [|right; exists name; reflexivity].
    destruct (IHr Hr) as [(b & -> & Hb)|(name & ->)]; [|right; exists name; reflexivity].
    left. unfold Number.is_integral in *.
    destruct op; try discriminate; cbn; eexists; (split; [reflexivity|]); cbn;
      unfold Number.check_and_promote, Number.is_integral; rewrite Ha, Hb; reflexivity.
Qed.

Lemma X2_witness :
  exists v,
    evaluate (arith_expr (arith_expr (variable_expr "x") (constant_expr (Number.of_int 3))
                            operator_times)
                         (constant_expr (Number.of_int 1)) operator_plus) x_is_two = Ok v
    /\ Number.is_integral v = true.
Proof.
  edestruct (X2_whole_arithmetic_stays_integral
               (arith_expr (arith_expr (variable_expr "x") (constant_expr (Number.of_int 3))
                              operator_times)
                           (constant_expr (Number.of_int 1)) operator_plus) x_is_two)
    as [H|[name H]].
  - reflexivity.
  - intros name v. unfold get_var_numeric, get_var. cbn.
    destruct (decide (name = "x")) as [->|Hne].
    + vm_compute. intros [= <-]. reflexivity.
    + unfold x_is_two. cbn [blocks find_var member_get numeric_variables
                              execution_block.numeric_variables].
      rewrite lookup_insert_ne by congruence.
      rewrite lookup_empty. discriminate.
  - exact H.
  - vm_compute in H. discriminate H.
Defined.

(** X3. On two integral numbers the six relational operators are the
    comparisons of the two [int]s: no rounding and no tolerance takes
    part. *)
Theorem X3_integral_comparison (op : relational_operator) (a b : number)
    (Ha : Number.is_integral a = true) (Hb : Number.is_integral b = true) :
  relational op a b
  = compare_int op (Number.get_integral_value a) (Number.get_integral_value b).
Proof.
  destruct op; cbn;
    unfold Number.neqb, Number.gtb, Number.geb, Number.leb, Number.eqb, Number.ltb;
    rewrite Ha, Hb; cbn [andb]; lia.
Qed.

Lemma X3_witness :
  relational operator_less_equal (Number.of_int 2) (Number.of_int 3) = true.
Proof. exact (X3_integral_comparison operator_less_equal (Number.of_int 2) (Number.of_int 3) eq_refl eq_refl). Defined.

(** X4. An [int] is true exactly when it is not zero, and the number
    that a comparison or a boolean operator yields for a truth value is
    true exactly when the truth value is. *)
Theorem X4_truth_of_an_int (z : Z) (b : bool) :
  Number.is_true (Number.of_int z) = negb (z =? 0)%Z
  /\ Number.is_true (Number.of_bool b) = b.
Proof.
  assert (H : forall x, Number.is_true (Number.of_int x) = negb (x =? 0)%Z).
  { intros x. unfold Number.is_true. cbn [integral integral_value Number.of_int andb].
    destruct (x =? 0)%Z eqn:Hx; [|reflexivity].
    apply Z.eqb_eq in Hx. subst x. vm_compute. reflexivity. }
  split; [apply H|]. unfold Number.of_bool. rewrite H. destruct b; reflexivity.
Qed.

(** ** Jumps and exits *)

(** X5. A jump goes to the innermost frame whose block has the label in
    its table, and the frames in front of it are popped.  When the
    iterator in the table is valid, the cursor of that frame is set to
    the labelled statement, its other members and the frames behind it
    are left as they were.  When the iterator dangles, the jump has no
    defined outcome; so it is for every label of a copied block, which
    is what a FOR, a DO or an IF statement keeps of its body.  When no
    frame has the label the jump throws "Jump to undefined label", and
    every frame has been popped by then. *)
Theorem X5_jump_unwinds_to_the_label (label : string) (st : interpreter) :
  (forall above f below target,
      blocks st = (above ++ f :: below)%list ->
      Forall (fun g => ~ defines_label label g) above ->
      jump_table (execution_block.block f) !! label = Some (at_position target) ->
      jump label st
      = (Ok tt,
         set_blocks
           ({| execution_block.statement := execution_block.statement f;
               execution_block.block := execution_block.block f;
               execution_block.current_statement := target;
               execution_block.numeric_variables := execution_block.numeric_variables f;
               execution_block.string_variables := execution_block.string_variables f |}
            :: below) st))
  /\ (forall above f below,
      blocks st = (above ++ f :: below)%list ->
      Forall (fun g => ~ defines_label label g) above ->
      jump_table (execution_block.block f) !! label = Some dangling ->
      jump label st = (Undefined dangling_iterator, set_blocks (f :: below) st))
  /\ (forall above f below b,
      blocks st = (above ++ f :: below)%list ->
      Forall (fun g => ~ defines_label label g) above ->
      execution_block.block f = copy_block b ->
      is_Some (jump_table b !! label) ->
      jump label st = (Undefined dangling_iterator, set_blocks (f :: below) st))
  /\ (Forall (fun g => ~ defines_label label g) (blocks st) ->
      jump label st
      = (Throw (runtime_error ("Jump to undefined label " ++ label)), set_blocks [] st)).
Proof.
  split; [|split; [|split]].
  - intros above f below target Hbs Habove Hf. unfold jump.
    rewrite Hbs, (FrameFacts.jump_loop_above _ _ _ _ _ Habove Hf). reflexivity.
  - intros above f below Hbs Habove Hf. unfold jump.
    rewrite Hbs, (FrameFacts.jump_loop_above _ _ _ _ _ Habove Hf). reflexivity.
  - intros above f below b Hbs Habove Hf [target Hb]. unfold jump.
    rewrite Hbs, (FrameFacts.jump_loop_above label above f below dangling Habove).
    + reflexivity.
    + rewrite Hf, FrameFacts.copy_block_jump_table, Hb. reflexivity.
  - intros Hno. unfold jump. rewrite (FrameFacts.jump_loop_nowhere _ _ Hno). reflexivity.
Qed.

Lemma X5_witness :
  jump "10" (with_frames [frame_of (Block [] ∅) None; frame_of labelled_block None])
  = (Ok tt, with_frames [{| execution_block.statement := None;
                            execution_block.block := labelled_block;
                            execution_block.current_statement := 1;
                            execution_block.numeric_variables := ∅;
                            execution_block.string_variables := ∅ |}])
  /\ jump "10" (with_frames [frame_of (Block [] ∅) None;
                             frame_of (copy_block labelled_block) None])
     = (Undefined dangling_iterator, with_frames [frame_of (copy_block labelled_block) None])
  /\ jump "20" (with_frames [frame_of labelled_block None])
     = (Throw (runtime_error "Jump to undefined label 20"), with_frames []).
Proof.
  assert (Hempty : Forall (fun g => ~ defines_label "10" g) [frame_of (Block [] ∅) None]).
  { constructor; [|constructor]. intros [x Hx]. vm_compute in Hx. discriminate Hx. }
  split; [|split].
  - exact (proj1 (X5_jump_unwinds_to_the_label "10"
                    (with_frames [frame_of (Block [] ∅) None; frame_of labelled_block None]))
             [frame_of (Block [] ∅) None] (frame_of labelled_block None) [] 1
             eq_refl Hempty eq_refl).
  - refine (proj1 (proj2 (proj2 (X5_jump_unwinds_to_the_label "10"
                    (with_frames [frame_of (Block [] ∅) None;
                                  frame_of (copy_block labelled_block) None]))))
             [frame_of (Block [] ∅) None] (frame_of (copy_block labelled_block) None) []
             labelled_block eq_refl Hempty eq_refl _).
    vm_compute. eauto.
  - refine (proj2 (proj2 (proj2 (X5_jump_unwinds_to_the_label "20"
                     (with_frames [frame_of labelled_block None])))) _).
    constructor; [|constructor]. intros [x Hx]. vm_compute in Hx. discriminate Hx.
Defined.

(** X6. EXIT pops the frames up to and including the innermost frame
    of a statement with the given name, and leaves the frames behind it;
    the frames of the clauses of an IF have no name and are popped on
    the way.  When no frame has the name, EXIT throws "Cannot EXIT
    <name>: No such block", and every frame has been popped by then. *)
Theorem X6_exit_pops_through_the_named_block (name : string) (st : interpreter) :
  (forall above f below,
      blocks st = (above ++ f :: below)%list ->
      Forall (fun g => frame_name g <> name) above ->
      frame_name f = name ->
      execute (exit_stmt name) st = (Ok tt, set_blocks below st))
  /\ (Forall (fun g => frame_name g <> name) (blocks st) ->
      execute (exit_stmt name) st
      = (Throw (runtime_error ("Cannot EXIT " ++ name ++ ": No such block")),
         set_blocks [] st)).
Proof.
  split.
  - intros above f below Hbs Habove Hf. cbn. unfold exit_block_named.
    rewrite Hbs, (FrameFacts.exit_block_loop_above _ _ _ _ Habove Hf). reflexivity.
  - intros Hno. cbn. unfold exit_block_named.
    rewrite (FrameFacts.exit_block_loop_nowhere _ _ Hno). reflexivity.
Qed.

Lemma X6_witness :
  execute (exit_stmt "do")
    (with_frames [frame_of (Block [] ∅) None; frame_of (Block [] ∅) (Some empty_loop);
                  frame_of labelled_block None])
  = (Ok tt, with_frames [frame_of labelled_block None])
  /\ execute (exit_stmt "for") (with_frames [frame_of (Block [] ∅) (Some empty_loop)])
     = (Throw (runtime_error "Cannot EXIT for: No such block"), with_frames []).
Proof.
  split.
  - refine (proj1 (X6_exit_pops_through_the_named_block "do"
                     (with_frames [frame_of (Block [] ∅) None;
                                   frame_of (Block [] ∅) (Some empty_loop);
                                   frame_of labelled_block None]))
             [frame_of (Block [] ∅) None] (frame_of (Block [] ∅) (Some empty_loop))
             [frame_of labelled_block None] eq_refl _ eq_refl).
    constructor; [|constructor]. discriminate.
  - refine (proj2 (X6_exit_pops_through_the_named_block "for"
                     (with_frames [frame_of (Block [] ∅) (Some empty_loop)])) _).
    constructor; [|constructor]. discriminate.
Defined.

(** ** Assignment and scope *)

(** X7. What is assigned is what is read: with at least one frame on
    the stack, an assignment succeeds, a read of the name then yields
    the value assigned, every other variable of the same kind reads as
    before, and no frame is pushed or popped.  This holds for the
    numeric and for the string variables. *)
Theorem X7_assignment_is_read_back (name : string) (n : number) (s : string)
    (st : interpreter) (Hframes : blocks st <> []) :
  (exists st',
      set_var_numeric name n st = (Ok tt, st')
      /\ get_var_numeric name st' = Ok n
      /\ (forall other, other <> name -> get_var_numeric other st' = get_var_numeric other st)
      /\ length (blocks st') = length (blocks st))
  /\ (exists st',
      set_var_string name s st = (Ok tt, st')
      /\ get_var_string name st' = Ok s
      /\ (forall other, other <> name -> get_var_string other st' = get_var_string other st)
      /\ length (blocks st') = length (blocks st)).
Proof.
  split.
  - exact (StoreFacts.set_var_get_var numeric_variables StoreFacts.numeric_get_set
             name n st Hframes).
  - exact (StoreFacts.set_var_get_var string_variables StoreFacts.string_get_set
             name s st Hframes).
Qed.

Lemma X7_witness :
  exists st',
    set_var_numeric "y" (Number.of_int 5) x_is_two = (Ok tt, st')
    /\ get_var_numeric "y" st' = Ok (Number.of_int 5)
    /\ (forall other, other <> "y" -> get_var_numeric other st' = get_var_numeric other x_is_two)
    /\ length (blocks st') = length (blocks x_is_two).
Proof.
  refine (proj1 (X7_assignment_is_read_back "y" (Number.of_int 5) "" x_is_two _)).
  discriminate.
Defined.

(** X8. A variable lives in the frame that was in front when it was
    first assigned.  After a block has been entered, an assignment to a
    name that the enclosing frames already bind changes that binding,
    and the value is still read when the block has been left; an
    assignment to a name that is bound nowhere makes a binding that is
    gone when the block has been left: the state then is the state from
    before the block was entered. *)
Theorem X8_variables_of_a_block (name : string) (v : number) (b : block)
    (s : option block_statement) (st : interpreter) :
  get_var_numeric name (assigned_inside name v b s st) = Ok v
  /\ match get_var_numeric name st with
     | Ok _ => get_var_numeric name (exit_block (assigned_inside name v b s st)) = Ok v
     | _ => exit_block (assigned_inside name v b s st) = st
     end.
Proof.
  unfold assigned_inside, set_var_numeric, get_var_numeric, set_var, get_var, enter_block.
  cbn [blocks set_blocks find_var member_get numeric_variables
       execution_block.numeric_variables].
  rewrite lookup_empty.
  destruct (find_var name numeric_variables (blocks st)) as [[i w]|] eqn:Hfind.
  - cbn [snd blocks set_blocks alter list_alter find_var member_get numeric_variables
         execution_block.numeric_variables exit_block].
    rewrite lookup_empty.
    pose proof (StoreFacts.find_var_alter_same numeric_variables StoreFacts.numeric_get_set
                  name v _ _ _ Hfind) as Hsame.
    rewrite Hsame. split; reflexivity.
  - cbn [snd blocks set_blocks find_var member_get member_set numeric_variables
         execution_block.numeric_variables exit_block].
    unfold map_insert. rewrite lookup_empty, lookup_insert_eq.
    split; [reflexivity|]. destruct st; reflexivity.
Qed.

(** ** PRINT *)

Module PrintFacts.
Import InputFacts TextFacts.

(** Evaluation reads the frames and nothing else. *)
Lemma evaluate_frames st st' (H : blocks st = blocks st') :
  forall e, evaluate e st = evaluate e st'.
Proof.
  fix IH 1. intros [v|name|l r op|l r op|l [r|] op]; cbn [evaluate].
  - reflexivity.
  - unfold get_var_numeric, get_var. rewrite H. reflexivity.
  - rewrite (IH l), (IH r). reflexivity.
  - rewrite (IH l), (IH r). reflexivity.
  - rewrite (IH l), (IH r). reflexivity.
  - rewrite (IH l). reflexivity.
Qed.

(** Evaluation of a string reads the frames and the order of the
    operands. *)
Lemma evaluate_string_frames st st' (H : blocks st = blocks st')
    (Horder : concatenation_order st = concatenation_order st') :
  forall e, evaluate_string e st = evaluate_string e st'.
Proof.
  induction e as [l IHl r IHr|name|v]; cbn [evaluate_string].
  - rewrite IHl, IHr, Horder. reflexivity.
  - unfold get_var_string, get_var. rewrite H. reflexivity.
  - reflexivity.
Qed.

Lemma get_representation_frames st st' (H : blocks st = blocks st')
    (Horder : concatenation_order st = concatenation_order st') e :
  get_representation e st = get_representation e st'.
Proof.
  destruct e as [e|e]; cbn.
  - apply evaluate_string_frames; assumption.
  - rewrite (evaluate_frames st st' H). reflexivity.
Qed.

Lemma write_empty st : write "" st = st.
Proof. destruct st. unfold write. cbn. rewrite append_empty. reflexivity. Qed.

Lemma write_write a b st : write b (write a st) = write (a ++ b) st.
Proof. unfold write. cbn. rewrite append_assoc. reflexivity. Qed.

Lemma print_all_written es : forall texts st,
  Forall2 (represented st) es texts ->
  print_all es st = (Ok tt, write (joined texts) st).
Proof.
  induction es as [|e es IH]; intros texts st Hall; inversion Hall as [|? t ? ts He Hes]; subst.
  - cbn. rewrite write_empty. reflexivity.
  - cbn [print_all joined]. unfold mbind, interp_bind, modify. unfold represented in He.
    rewrite He. rewrite (IH ts).
    + rewrite write_write. reflexivity.
    + eapply Forall2_impl; [exact Hes|]. intros x y Hxy. unfold represented in *.
      rewrite <- Hxy. symmetry. apply get_representation_frames; reflexivity.
Qed.

Lemma print_all_thrown before : forall e after texts x st,
  Forall2 (represented st) before texts ->
  get_representation e st = Throw x ->
  print_all (before ++ e :: after) st = (Throw x, write (joined texts) st).
Proof.
  induction before as [|b before IH]; intros e after texts x st Hall He;
    inversion Hall as [|? t ? ts Hb Hbs]; subst.
  - cbn. unfold mbind, interp_bind. rewrite He, write_empty. reflexivity.
  - cbn [app print_all joined]. unfold mbind, interp_bind, modify. unfold represented in Hb.
    rewrite Hb. rewrite (IH e after ts x).
    + rewrite write_write. reflexivity.
    + eapply Forall2_impl; [exact Hbs|]. intros y z Hyz. unfold represented in *.
      rewrite <- Hyz. symmetry. apply get_representation_frames; reflexivity.
    + rewrite <- He. symmetry. apply get_representation_frames; reflexivity.
Qed.
End PrintFacts.

(** X9. PRINT writes the representations of its expressions one after
    the other with nothing between them, and then a newline (so PRINT
    without an expression writes an empty line).  When an expression
    throws, the representations of the expressions before it have been
    written by then, and no newline follows them. *)
Theorem X9_print_writes_in_order (es : list printable_expr) (st : interpreter) :
  (forall texts,
      Forall2 (represented st) es texts ->
      execute (print_stmt es) st = (Ok tt, write (joined texts ++ nl) st))
  /\ (forall before e after texts x,
      es = (before ++ e :: after)%list ->
      Forall2 (represented st) before texts ->
      get_representation e st = Throw x ->
      execute (print_stmt es) st = (Throw x, write (joined texts) st)).
Proof.
  split.
  - intros texts Hall. cbn [execute]. unfold mbind, interp_bind, modify.
    rewrite (PrintFacts.print_all_written _ _ _ Hall), PrintFacts.write_write. reflexivity.
  - intros before e after texts x -> Hall He. cbn [execute]. unfold mbind, interp_bind.
    rewrite (PrintFacts.print_all_thrown _ _ _ _ _ _ Hall He). reflexivity.
Qed.

Lemma X9_witness :
  execute (print_stmt [printable_string (string_literal_expr "x is ");
                       printable_numeric (variable_expr "x")]) x_is_two
  = (Ok tt, write ("x is 2" ++ nl) x_is_two)
  /\ execute (print_stmt [printable_string (string_literal_expr "y is ");
                          printable_numeric (variable_expr "y");
                          printable_numeric (variable_expr "x")]) x_is_two
     = (Throw (runtime_error "Variable y undefined"), write "y is " x_is_two).
Proof.
  split.
  - refine (proj1 (X9_print_writes_in_order _ x_is_two) ["x is "; "2"] _).
    repeat constructor.
  - refine (proj2 (X9_print_writes_in_order _ x_is_two)
              [printable_string (string_literal_expr "y is ")]
              (printable_numeric (variable_expr "y"))
              [printable_numeric (variable_expr "x")] ["y is "] _ eq_refl _ _).
    + repeat constructor.
    + reflexivity.
Defined.

(** ** Invariants of the engine *)

Module StreamFacts.
Import InputFacts TextFacts.

Section kept.
Variable R : interpreter -> interpreter -> Prop.
Hypothesis R_refl : forall st, R st st.
Hypothesis R_trans : forall a b c, R a b -> R b c -> R a c.
Hypothesis R_frames : forall st st',
  cin st' = cin st -> cout st' = cout st -> should_stop st' = should_stop st -> R st st'.
Hypothesis R_write : forall text st, R st (write text st).
Hypothesis R_getline : forall st, R st (snd (getline st)).

Lemma keeps_ret {A} (a : A) : keeps R (mret a).
Proof. intros st. apply R_refl. Qed.

Lemma keeps_bind {A B} (m : interp A) (k : A -> interp B) :
  keeps R m -> (forall a, keeps R (k a)) -> keeps R (m ≫= k).
Proof.
  intros Hm Hk st. unfold mbind, interp_bind. specialize (Hm st).
  destruct (m st) as [[a|e|u|] st']; cbn [snd] in *; try exact Hm.
  eapply R_trans; [exact Hm|apply Hk].
Qed.

Lemma keeps_here {A} (f : interpreter -> result A) : keeps R (fun st => (f st, st)).
Proof. intros st. apply R_refl. Qed.

Lemma keeps_frames {A} (m : interp A) :
  (forall st, cin (snd (m st)) = cin st /\ cout (snd (m st)) = cout st
              /\ should_stop (snd (m st)) = should_stop st) ->
  keeps R m.
Proof. intros H st. destruct (H st) as (H1 & H2 & H3). apply R_frames; assumption. Qed.

Lemma keeps_modify f :
  (forall st, cin (f st) = cin st /\ cout (f st) = cout st
              /\ should_stop (f st) = should_stop st) ->
  keeps R (modify f).
Proof. intros H. apply keeps_frames. exact H. Qed.

Lemma keeps_write text : keeps R (modify (write text)).
Proof. intros st. apply R_write. Qed.

Lemma keeps_getline : keeps R getline.
Proof. intros st. apply R_getline. Qed.

Lemma keeps_set_var {V} name (variables : member V) v : keeps R (set_var name variables v).
Proof.
  apply keeps_frames. intros st. unfold set_var.
  destruct (find_var name variables (blocks st)) as [[i w]|]; [auto|].
  destruct (blocks st); auto.
Qed.

Lemma keeps_jump label : keeps R (jump label).
Proof.
  apply keeps_frames. intros st. unfold jump.
  destruct (jump_loop label (blocks st)) as [[[[target|] front] rest]|]; auto.
Qed.

Lemma keeps_exit name : keeps R (exit_block_named name).
Proof.
  apply keeps_frames. intros st. unfold exit_block_named.
  destruct (exit_block_loop name (blocks st)); auto.
Qed.

Lemma keeps_enter b s : keeps R (modify (enter_block b s)).
Proof. apply keeps_modify. auto. Qed.

Lemma keeps_for_condition m fetch : keeps R fetch -> keeps R (for_condition m fetch).
Proof.
  intros Hf. unfold for_condition. apply keeps_bind.
  - destruct (Number.gtb _ _); [|apply keeps_ret].
    apply keeps_bind; [exact Hf|intros; apply keeps_ret].
  - intros [|]; [apply keeps_ret|].
    destruct (Number.ltb _ _); [|apply keeps_ret].
    apply keeps_bind; [exact Hf|intros; apply keeps_ret].
Qed.

Lemma keeps_iterate s : keeps R (iterate s).
Proof.
  destruct s as [condition body|address name e1 e2 e3 body]; cbn [iterate].
  - apply keeps_bind; [apply keeps_here|]. intros c.
    destruct (Number.is_true c); [apply keeps_enter|apply keeps_ret].
  - apply keeps_bind; [apply keeps_here|]. intros v.
    apply keeps_bind; [apply keeps_here|]. intros m.
    apply keeps_bind; [apply keeps_set_var|]. intros _.
    apply keeps_bind; [apply keeps_for_condition, keeps_ret|]. intros [|];
      [apply keeps_enter|apply keeps_ret].
Qed.

Lemma keeps_print_all es : keeps R (print_all es).
Proof.
  induction es as [|e es IH]; [apply keeps_ret|]. cbn [print_all].
  apply keeps_bind; [apply keeps_here|]. intros text.
  apply keeps_bind; [apply keeps_write|]. intros _. exact IH.
Qed.

Lemma keeps_if_block_loop conditions blocks : forall i,
  keeps R (if_block_loop i conditions blocks).
Proof.
  induction conditions as [|c conditions IH]; intros i; [apply keeps_ret|].
  cbn [if_block_loop]. apply keeps_bind; [apply keeps_here|]. intros v.
  destruct (Number.is_true v); [|apply IH].
  destruct (blocks !! i); [|apply keeps_here].
  apply keeps_bind; [apply keeps_enter|intros; apply keeps_ret].
Qed.

(** Every statement but STOP. *)
Lemma keeps_execute s : s <> stop_stmt -> keeps R (execute s).
Proof.
  intros Hs.
  destruct s as [c l1 l2|cs bs|[c body|address name e1 e2 e3 body]|es|name|name [e|e]
                |label| |what|]; cbn [execute].
  - apply keeps_bind; [apply keeps_here|]. intros v.
    destruct (Number.is_true v); [apply keeps_jump|].
    destruct (negb _); [apply keeps_jump|apply keeps_ret].
  - apply keeps_bind; [apply keeps_if_block_loop|]. intros [|]; [apply keeps_ret|].
    destruct (_ =? _)%nat; [|apply keeps_ret].
    destruct (bs !! _); [apply keeps_enter|apply keeps_here].
  - apply (keeps_iterate (do_stmt c body)).
  - apply keeps_bind; [apply keeps_here|]. intros i.
    apply keeps_bind; [apply keeps_set_var|]. intros _.
    apply keeps_bind; [apply keeps_here|]. intros v.
    apply keeps_bind; [apply keeps_modify; auto|]. intros _.
    apply keeps_bind; [apply keeps_here|]. intros w.
    apply keeps_bind; [apply keeps_modify; auto|]. intros _.
    apply keeps_bind; [apply keeps_here|]. intros m.
    apply keeps_bind; [apply keeps_for_condition, keeps_here|]. intros [|];
      [apply keeps_enter|apply keeps_ret].
  - apply keeps_bind; [apply keeps_print_all|]. intros _. apply keeps_write.
  - apply keeps_bind; [apply keeps_write|]. intros _.
    apply keeps_bind; [apply keeps_getline|]. intros input_line.
    destruct (succeeded _); [apply keeps_set_var|apply keeps_here].
  - apply keeps_bind; [apply keeps_here|]. intros v. apply keeps_set_var.
  - apply keeps_bind; [apply keeps_here|]. intros v. apply keeps_set_var.
  - apply keeps_jump.
  - congruence.
  - apply keeps_exit.
  - apply keeps_ret.
Qed.
End kept.

Lemma streams_advance_refl st : streams_advance st st.
Proof. split; [exists ""; rewrite append_empty|exists ""]; reflexivity. Qed.

Lemma streams_advance_trans a b c :
  streams_advance a b -> streams_advance b c -> streams_advance a c.
Proof.
  intros [[w1 Hw1] [c1 Hc1]] [[w2 Hw2] [c2 Hc2]]. split.
  - exists (w1 ++ w2). rewrite Hw2, Hw1, append_assoc. reflexivity.
  - exists (c1 ++ c2). rewrite Hc1, Hc2, append_assoc. reflexivity.
Qed.

Lemma streams_advance_streams st st' :
  cin st' = cin st -> cout st' = cout st -> streams_advance st st'.
Proof.
  intros Hin Hout.
  split; [exists ""; rewrite append_empty|exists ""; rewrite append_nil]; congruence.
Qed.

Lemma streams_advance_same st st' :
  cin st' = cin st -> cout st' = cout st -> should_stop st' = should_stop st ->
  streams_advance st st'.
Proof. intros Hin Hout _. apply streams_advance_streams; assumption. Qed.

Lemma streams_advance_write text st : streams_advance st (write text st).
Proof. split; [exists text; reflexivity|exists ""; reflexivity]. Qed.

Lemma first_line_rest s : exists consumed, s = consumed ++ snd (first_line s).
Proof.
  induction s as [|c s [consumed IH]]; [exists ""; reflexivity|].
  cbn [first_line]. destruct (char_eqb c "010").
  - exists (String c ""). reflexivity.
  - destruct (first_line s) as [l rest]. cbn [snd] in *.
    exists (String c consumed). rewrite append_cons, <- IH. reflexivity.
Qed.

Lemma streams_advance_getline st : streams_advance st (snd (getline st)).
Proof.
  unfold getline. destruct (first_line_rest (cin st)) as [consumed H].
  destruct (first_line (cin st)) as [l rest]. cbn [snd] in *.
  split; [exists ""; cbn; rewrite append_empty; reflexivity|exists consumed; exact H].
Qed.

Lemma stop_or_not s : s = stop_stmt \/ s <> stop_stmt.
Proof. destruct s; first [left; reflexivity|right; discriminate]. Qed.

Lemma advances_execute s : keeps streams_advance (execute s).
Proof.
  destruct (stop_or_not s) as [->|Hs].
  - intros st. apply streams_advance_streams; reflexivity.
  - exact (keeps_execute streams_advance streams_advance_refl streams_advance_trans
             streams_advance_same streams_advance_write streams_advance_getline s Hs).
Qed.

Lemma advances_iterate s : keeps streams_advance (iterate s).
Proof.
  exact (keeps_iterate streams_advance streams_advance_refl streams_advance_trans
           streams_advance_same s).
Qed.

Lemma advances_ret {A} (a : A) : keeps streams_advance (mret a).
Proof. exact (keeps_ret streams_advance streams_advance_refl a). Qed.

Lemma advances_here {A} (f : interpreter -> result A) :
  keeps streams_advance (fun st => (f st, st)).
Proof. exact (keeps_here streams_advance streams_advance_refl f). Qed.

Lemma advances_bind {A B} (m : interp A) (k : A -> interp B) :
  keeps streams_advance m -> (forall a, keeps streams_advance (k a)) ->
  keeps streams_advance (m ≫= k).
Proof. exact (keeps_bind streams_advance streams_advance_trans m k). Qed.

Lemma advances_modify f :
  (forall st, cin (f st) = cin st /\ cout (f st) = cout st) ->
  keeps streams_advance (modify f).
Proof. intros H st. destruct (H st). apply streams_advance_streams; assumption. Qed.

Lemma advances_run_step pt : keeps streams_advance (run_step pt).
Proof.
  destruct pt; cbn [run_step].
  - apply advances_bind; [apply advances_here|]. intros bs.
    apply advances_bind; [apply advances_here|]. intros stopping.
    destruct (_ && _); apply advances_ret.
  - apply advances_bind; [apply advances_here|]. intros [|current_block rest];
      [apply advances_here|].
    apply advances_bind; [apply advances_here|]. intros stopping.
    destruct (_ && _).
    + apply advances_bind; [apply advances_modify; auto|]. intros _.
      destruct (_ !! _); [|apply advances_here].
      apply advances_bind; [apply advances_execute|]. intros _. apply advances_ret.
    + apply advances_bind.
      { apply advances_modify. intros st. unfold exit_block. destruct (blocks st); auto. }
      intros _. apply advances_bind; [|intros; apply advances_ret].
      destruct (execution_block.statement current_block);
        [apply advances_iterate|apply advances_ret].
  - apply advances_ret.
Qed.

Lemma advances_run_steps n : forall pt, keeps streams_advance (run_steps n pt).
Proof.
  induction n as [|n IH]; intros pt; cbn [run_steps]; [apply advances_ret|].
  apply advances_bind; [apply advances_run_step|]. intros pt'. apply IH.
Qed.

(** The stop flag: STOP sets it and empties the stack; no other
    statement and no end of a pass changes it. *)
Lemma same_flag_refl st : same_flag st st.
Proof. reflexivity. Qed.

Lemma same_flag_trans a b c : same_flag a b -> same_flag b c -> same_flag a c.
Proof. unfold same_flag. congruence. Qed.

Lemma same_flag_frames st st' :
  cin st' = cin st -> cout st' = cout st -> should_stop st' = should_stop st ->
  same_flag st st'.
Proof. intros _ _ H. exact H. Qed.

Lemma same_flag_write text st : same_flag st (write text st).
Proof. reflexivity. Qed.

Lemma same_flag_getline st : same_flag st (snd (getline st)).
Proof. unfold getline. destruct (first_line (cin st)). reflexivity. Qed.

Lemma same_flag_execute s st : s <> stop_stmt -> same_flag st (snd (execute s st)).
Proof.
  intros Hs.
  exact (keeps_execute same_flag same_flag_refl same_flag_trans same_flag_frames
           same_flag_write same_flag_getline s Hs st).
Qed.

Lemma same_flag_iterate s st : same_flag st (snd (iterate s st)).
Proof.
  exact (keeps_iterate same_flag same_flag_refl same_flag_trans same_flag_frames s st).
Qed.

Lemma flag_at_step pt st pt' st' :
  flag_at pt st -> run_step pt st = (Ok pt', st') -> flag_at pt' st'.
Proof.
  destruct pt; cbn [run_step flag_at];
    unfold mbind, interp_bind, gets, modify, lift, mret, interp_ret.
  - intros Hflag. rewrite Hflag. destruct (blocks st) as [|fr rest] eqn:Hbs;
      cbn [negb andb]; intros [= <- <-]; cbn [flag_at]; auto.
  - intros Hflag. destruct (blocks st) as [|current_block rest] eqn:Hbs; [discriminate|].
    destruct Hflag as [Hflag|Hflag]; [|discriminate].
    rewrite Hflag. cbn [negb].
    destruct (negb _ && true).
    + destruct (_ !! _) as [s|]; [|discriminate].
      destruct (stop_or_not s) as [->|Hs].
      * cbn. intros [= <- <-]. right. reflexivity.
      * pose proof (same_flag_execute s
                      (set_blocks (set_current_statement
                                     (S (execution_block.current_statement current_block))
                                     current_block :: rest) st) Hs) as Hkeep.
        destruct (execute s _) as [[[]| | |] st1]; try discriminate.
        intros [= <- <-]. left. unfold same_flag in Hkeep. cbn in Hkeep. congruence.
    + assert (Hexit : should_stop (exit_block st) = false).
      { unfold exit_block. rewrite Hbs. exact Hflag. }
      destruct (execution_block.statement current_block) as [s|].
      * pose proof (same_flag_iterate s (exit_block st)) as Hkeep.
        destruct (iterate s (exit_block st)) as [[[]| | |] st1]; try discriminate.
        intros [= <- <-]. unfold same_flag in Hkeep. cbn in Hkeep. cbn [flag_at]. congruence.
      * intros [= <- <-]. exact Hexit.
  - intros Hflag [= <- <-]. exact Hflag.
Qed.

Lemma flag_at_steps n : forall pt st pt' st',
  flag_at pt st -> run_steps n pt st = (Ok pt', st') -> flag_at pt' st'.
Proof.
  induction n as [|n IH]; intros pt st pt' st' Hflag; cbn [run_steps].
  - intros [= <- <-]. exact Hflag.
  - unfold mbind, interp_bind.
    destruct (run_step pt st) as [[pt1| | |] st1] eqn:Hstep; try discriminate.
    apply IH. exact (flag_at_step _ _ _ _ Hflag Hstep).
Qed.
End StreamFacts.

(** X10. The engine only ever appends to its output and only ever
    consumes its input from the front: after any number of steps of the
    main loop, from any point and any state, whatever the outcome
    (also when an exception is thrown), what had been written is still
    the beginning of the output and what is left to read is an end of
    what was left before.  The same holds of a whole run and of the
    execution of one statement. *)
Theorem X10_streams_only_advance (n : nat) (pt : run_point) (st : interpreter) :
  streams_advance st (snd (run_steps n pt st))
  /\ streams_advance st (snd (run n st))
  /\ forall s, streams_advance st (snd (execute s st)).
Proof.
  split; [apply StreamFacts.advances_run_steps|]. split.
  - unfold run.
    apply (StreamFacts.advances_bind (modify (set_should_stop false))).
    + apply StreamFacts.advances_modify. auto.
    + intros _. apply StreamFacts.advances_bind; [apply StreamFacts.advances_run_steps|].
      intros [| |]; first [apply StreamFacts.advances_ret
                          |apply (StreamFacts.advances_here (fun _ => OutOfFuel))].
  - intros s. apply StreamFacts.advances_execute.
Qed.

(** ** The tests of FOR and IF *)

Module EntryFacts.
Lemma for_condition_of_ints nf ns x (fetch : interp number) st :
  integral nf = true -> integral ns = true -> integral x = true ->
  fetch st = (Ok x, st) ->
  for_condition {| final_value := nf; step := ns |} fetch st
  = (Ok (for_enters (integral_value x) (integral_value ns) (integral_value nf)), st).
Proof.
  intros Hnf Hns Hx Hfetch.
  unfold for_condition, for_enters, mbind, interp_bind, mret, interp_ret.
  cbn [step final_value].
  assert (Hgt : Number.gtb ns (Number.of_int 0) = (0 <? integral_value ns)%Z).
  { unfold Number.gtb, Number.leb, Number.ltb, Number.eqb, Number.is_integral,
      Number.get_integral_value. rewrite Hns. cbn. lia. }
  assert (Hlt : Number.ltb ns (Number.of_int 0) = (integral_value ns <? 0)%Z).
  { unfold Number.ltb, Number.is_integral, Number.get_integral_value.
    rewrite Hns. cbn. reflexivity. }
  assert (Hle : Number.leb x nf = (integral_value x <=? integral_value nf)%Z).
  { unfold Number.leb, Number.ltb, Number.eqb, Number.is_integral,
      Number.get_integral_value. rewrite Hx, Hnf. cbn. lia. }
  assert (Hge : Number.geb x nf = (integral_value nf <=? integral_value x)%Z).
  { unfold Number.geb, Number.ltb, Number.is_integral,
      Number.get_integral_value. rewrite Hx, Hnf. cbn. lia. }
  rewrite Hgt, Hlt.
  destruct (0 <? integral_value ns)%Z eqn:Hpos.
  - rewrite Hfetch, Hle. destruct (integral_value x <=? integral_value nf)%Z eqn:E;
      [reflexivity|].
    destruct (integral_value ns <? 0)%Z eqn:Hneg; [lia|reflexivity].
  - destruct (integral_value ns <? 0)%Z eqn:Hneg; [|reflexivity].
    rewrite Hfetch, Hge. reflexivity.
Qed.

Lemma members_set address nf ns st :
  members_at address (set_final_value address nf (set_step address ns st))
  = {| final_value := nf; step := ns |}.
Proof.
  unfold set_final_value. unfold members_at at 1, set_for_objects. cbn [for_objects].
  rewrite lookup_insert_eq. cbn [default]. f_equal.
  unfold members_at, set_step, set_for_objects. cbn [for_objects].
  rewrite lookup_insert_eq. reflexivity.
Qed.

Lemma if_block_loop_first st bs before : forall c after b k,
  Forall (fails st) before -> holds st c ->
  bs !! (k + length before)%nat = Some b ->
  if_block_loop k (before ++ c :: after) bs st = (Ok true, enter_block b None st).
Proof.
  induction before as [|d before IH]; intros c after b k Hbefore (v & Hv & Htrue) Hb.
  - cbn [app if_block_loop]. unfold mbind, interp_bind, eval. rewrite Hv, Htrue.
    cbn [length] in Hb. rewrite Nat.add_0_r in Hb. rewrite Hb. reflexivity.
  - inversion Hbefore as [|? ? (w & Hw & Hfalse) Hrest]; subst.
    cbn [app if_block_loop]. unfold mbind, interp_bind, eval. rewrite Hw, Hfalse.
    apply IH; [exact Hrest|exists v; auto|].
    cbn [length] in Hb. rewrite <- Hb. f_equal. lia.
Qed.

Lemma if_block_loop_none st bs cs : forall k,
  Forall (fails st) cs -> if_block_loop k cs bs st = (Ok false, st).
Proof.
  induction cs as [|c cs IH]; intros k Hcs; [reflexivity|].
  inversion Hcs as [|? ? (w & Hw & Hfalse) Hrest]; subst.
  cbn [if_block_loop]. unfold mbind, interp_bind, eval. rewrite Hw, Hfalse.
  apply IH, Hrest.
Qed.
End EntryFacts.

(** X11. The direction of a FOR loop.  With integral values [i], [s]
    and [f] of the initial, step and final expressions, the statement
    assigns [i] to the loop variable and enters the body exactly when
    [s] is positive and [i <= f], or [s] is negative and [i >= f]; at
    the end of a pass the variable becomes [v + s] (in 32 bits) and the
    body is entered again under the same test.  A loop with step zero
    never enters its body, whatever its bounds are. *)
Theorem X11_for_direction
    (address : nat) (variable_name : string) (e_init e_final e_step : numeric_expr)
    (body : block) (st0 sta : interpreter) (ni ns nf : number)
    (Hinit : evaluate e_init st0 = Ok ni)
    (Hset : set_var_numeric variable_name ni st0 = (Ok tt, sta))
    (Hstep : evaluate e_step sta = Ok ns)
    (Hfinal : evaluate e_final (set_step address ns sta) = Ok nf)
    (Hni : integral ni = true) (Hns : integral ns = true) (Hnf : integral nf = true) :
  let F := for_stmt address variable_name e_init e_final e_step body in
  let st2 := set_final_value address nf (set_step address ns sta) in
  execute (block_stmt F) st0
  = (Ok tt, if for_enters (integral_value ni) (integral_value ns) (integral_value nf)
            then enter_block body (Some F) st2 else st2)
  /\ (forall st x st1,
        get_var_numeric variable_name st = Ok x -> integral x = true ->
        members_at address st = {| final_value := nf; step := ns |} ->
        set_var_numeric variable_name (Number.add_assign x ns) st = (Ok tt, st1) ->
        iterate F st
        = (Ok tt, if for_enters (Int.add (integral_value x) (integral_value ns))
                       (integral_value ns) (integral_value nf)
                  then enter_block body (Some F) st1 else st1))
  /\ (integral_value ns = 0%Z -> execute (block_stmt F) st0 = (Ok tt, st2)).
Proof.
  intros F st2.
  destruct (ForFacts.set_then_get _ _ _ _ Hset) as (Hget & _ & _).
  assert (Hexec : execute (block_stmt F) st0
                  = (Ok tt, if for_enters (integral_value ni) (integral_value ns)
                                 (integral_value nf)
                            then enter_block body (Some F) st2 else st2)).
  { unfold F, execute, eval, mbind, interp_bind, modify, gets.
    rewrite Hinit, Hset, Hstep, Hfinal. fold st2.
    unfold st2 at 1. rewrite EntryFacts.members_set. fold st2.
    rewrite (EntryFacts.for_condition_of_ints nf ns ni _ _ Hnf Hns Hni);
      [|unfold lift_get; change (get_var_numeric variable_name st2)
          with (get_var_numeric variable_name sta); rewrite Hget; reflexivity].
    destruct (for_enters _ _ _); reflexivity. }
  split; [exact Hexec|]. split.
  - intros st x st1 Hx Hxi Hm Hset1.
    unfold F, iterate, mbind, interp_bind, lift_get, gets, modify.
    rewrite Hx, Hm. cbn [step]. rewrite Hset1.
    rewrite (EntryFacts.for_condition_of_ints nf ns (Number.add_assign x ns) _ _ Hnf Hns);
      [| |reflexivity].
    + cbn [integral_value Number.add_assign].
      destruct (for_enters (Int.add _ _) _ _); reflexivity.
    + cbn. unfold Number.check_and_promote, Number.is_integral. rewrite Hxi, Hns. reflexivity.
  - intros Hzero. rewrite Hexec. unfold for_enters. rewrite Hzero. cbn.
    reflexivity.
Qed.

Lemma X11_witness :
  exists st2,
    execute (block_stmt downward_loop) x_is_two
    = (Ok tt, enter_block (Block [] ∅) (Some downward_loop) st2).
Proof.
  eexists.
  refine (proj1 (X11_for_direction 0 "i" (constant_expr (Number.of_int 3))
                   (constant_expr (Number.of_int 1)) (constant_expr (Number.of_int (-1)))
                   (Block [] ∅) x_is_two _ (Number.of_int 3) (Number.of_int (-1))
                   (Number.of_int 1) eq_refl eq_refl eq_refl eq_refl eq_refl eq_refl eq_refl)).
Defined.

(** X12. A block IF enters the block of its first condition that is
    true, and evaluates no condition after that one; when every
    condition is false it enters the ELSE block if there is one, and
    otherwise does nothing.  In each case at most one frame is pushed
    and nothing else changes. *)
Theorem X12_if_selects_first_true (cs : list numeric_expr) (bs : list block)
    (st : interpreter) :
  (forall before c after b,
      cs = (before ++ c :: after)%list ->
      Forall (fails st) before -> holds st c ->
      bs !! length before = Some b ->
      execute (if_block_stmt cs bs) st = (Ok tt, enter_block b None st))
  /\ (forall b,
      Forall (fails st) cs -> bs !! length cs = Some b -> length bs = S (length cs) ->
      execute (if_block_stmt cs bs) st = (Ok tt, enter_block b None st))
  /\ (Forall (fails st) cs -> length bs = length cs ->
      execute (if_block_stmt cs bs) st = (Ok tt, st)).
Proof.
  split; [|split].
  - intros before c after b -> Hbefore Hc Hb. cbn [execute]. unfold mbind, interp_bind.
    rewrite (EntryFacts.if_block_loop_first st bs before c after b 0 Hbefore Hc Hb).
    reflexivity.
  - intros b Hcs Hb Hlen. cbn [execute]. unfold mbind, interp_bind.
    rewrite (EntryFacts.if_block_loop_none st bs cs 0 Hcs).
    rewrite Hlen. replace (S (length cs) =? length cs + 1)%nat with true
      by (symmetry; apply Nat.eqb_eq; lia).
    replace (S (length cs) - 1)%nat with (length cs) by lia. rewrite Hb. reflexivity.
  - intros Hcs Hlen. cbn [execute]. unfold mbind, interp_bind.
    rewrite (EntryFacts.if_block_loop_none st bs cs 0 Hcs).
    rewrite Hlen. replace (length cs =? length cs + 1)%nat with false
      by (symmetry; apply Nat.eqb_neq; lia).
    reflexivity.
Qed.

Lemma X12_witness :
  execute (if_block_stmt [constant_expr (Number.of_int 0); variable_expr "x";
                          variable_expr "undefined"]
             [Block [] ∅; labelled_block; Block [] ∅]) x_is_two
  = (Ok tt, enter_block labelled_block None x_is_two).
Proof.
  refine (proj1 (X12_if_selects_first_true
                   [constant_expr (Number.of_int 0); variable_expr "x";
                    variable_expr "undefined"]
                   [Block [] ∅; labelled_block; Block [] ∅] x_is_two)
            [constant_expr (Number.of_int 0)] (variable_expr "x")
            [variable_expr "undefined"] labelled_block eq_refl _ _ eq_refl).
  - constructor; [|constructor]. exists (Number.of_int 0). split; reflexivity.
  - exists (Number.of_int 2). split; reflexivity.
Defined.

(** ** Blank programs *)

Module LexerFacts.
Import InputFacts TextFacts.

Lemma char_of_int_of_uchar c : char_of_int (int_of_uchar c) = c.
Proof.
  unfold char_of_int, int_of_uchar.
  pose proof (N_ascii_bounded c) as Hc.
  rewrite Z.mod_small by lia. rewrite N2Z.id. apply ascii_N_embedding.
Qed.

(** [skip_whitespace] over a run of blanks that is followed by another
    character, or by the end of the text. *)
Lemma skip_whitespace_loop_blanks blanks : forall fuel rest file ln col,
  string_forall is_blank blanks = true ->
  stops is_blank rest = true ->
  (String.length blanks < fuel)%nat ->
  skip_whitespace_loop fuel (lexer_at (blanks ++ rest) goodbit file ln col)
  = lexer_at rest (if string_is_empty rest then eofbit else goodbit) file ln
      (col + Z.of_nat (String.length blanks)).
Proof.
  induction blanks as [|c blanks IH]; intros fuel rest file ln col Hb Hr Hfuel.
  - rewrite append_nil. destruct fuel as [|fuel]; [cbn in Hfuel; lia|].
    cbn [String.length Z.of_nat]. rewrite Z.add_0_r.
    destruct rest as [|c rest].
    + reflexivity.
    + cbn [stops] in Hr. unfold is_blank in Hr.
      cbn [skip_whitespace_loop source_ok lexer_at source_state peek source].
      rewrite Hr. reflexivity.
  - rewrite append_cons. destruct fuel as [|fuel]; [cbn in Hfuel; lia|].
    cbn [string_forall] in Hb. apply andb_prop in Hb as [Hc Hb]. unfold is_blank in Hc.
    cbn [skip_whitespace_loop source_ok lexer_at source_state peek source].
    rewrite Hc. cbn [negb get source_state source lexer_at].
    unfold advance_column, with_position, with_source.
    cbn [source source_state filename line column].
    transitivity (skip_whitespace_loop fuel (lexer_at (blanks ++ rest) goodbit file ln (col + 1)));
      [reflexivity|].
    rewrite (IH fuel rest file ln (col + 1)%Z Hb Hr); [|cbn in Hfuel; lia].
    cbn [String.length]. f_equal. lia.
Qed.

Lemma skip_whitespace_blanks blanks rest file ln col :
  string_forall is_blank blanks = true ->
  stops is_blank rest = true ->
  skip_whitespace (lexer_at (blanks ++ rest) goodbit file ln col)
  = lexer_at rest (if string_is_empty rest then eofbit else goodbit) file ln
      (col + Z.of_nat (String.length blanks)).
Proof.
  intros Hb Hr. unfold skip_whitespace, rounds.
  apply skip_whitespace_loop_blanks; auto.
  cbn [source lexer_at]. rewrite length_app. lia.
Qed.
End LexerFacts.

(** X13. A text of spaces and tabs only, the empty text among them, is
    the empty program: the lexer finds no lexeme in it, the parser
    makes the block without statements of it, and the run of that
    block ends at once and writes nothing. *)
Theorem X13_blank_program (text input : string) (n : nat)
    (Hblank : string_forall is_blank text = true) :
  get_lexeme (make_lexer text "<stdin>")
  = Ok (None, lexer_at "" failbit "<stdin>" 1 (Z.of_nat (String.length text)))
  /\ parse (S n) text = Ok (Block [] ∅)
  /\ main (3 + n) text input = (Ok tt, "").
Proof.
  assert (Hlex : get_lexeme (make_lexer text "<stdin>")
                 = Ok (None, lexer_at "" failbit "<stdin>" 1 (Z.of_nat (String.length text)))).
  { assert (Hskip : skip_whitespace (make_lexer text "<stdin>")
                     = lexer_at "" eofbit "<stdin>" 1 (Z.of_nat (String.length text))).
    { pose proof (LexerFacts.skip_whitespace_blanks text "" "<stdin>" 1 0 Hblank eq_refl)
        as H.
      rewrite TextFacts.append_empty in H. exact H. }
    unfold get_lexeme. rewrite Hskip. reflexivity. }
  assert (Hparse : forall k, parse (S k) text = Ok (Block [] ∅)).
  { intros k. unfold parse, parse_program, mbind at 1, result_mbind, result_bind.
    unfold mbind, parsing_bind, read_symbol, make_parser. cbn [lex allocated].
    rewrite Hlex. reflexivity. }
  split; [exact Hlex|]. split; [apply Hparse|].
  unfold main. change (3 + n)%nat with (S (2 + n)). rewrite Hparse.
  change (S (2 + n)) with (3 + n)%nat.
  rewrite (RunFacts.run_enough 3 n (make_interpreter (Block [] ∅) input)
             {| blocks := []; should_stop := false; for_objects := ∅;
                cin := input; cout := ""; concatenation_order := compiled_order |} eq_refl).
  reflexivity.
Qed.

Lemma X13_witness :
  main 3 (String " " (String "009" "")) "7" = (Ok tt, "").
Proof. exact (proj2 (proj2 (X13_blank_program (String " " (String "009" "")) "7" 0 eq_refl))). Defined.

(** ** String literals *)

Module ScanFacts.
Import InputFacts TextFacts LexerFacts.

(** [extract_until] over a run of characters outside the predicate that
    is followed by a character inside it, or by the end of the text.  At
    the end of the text a predicate that does not hold of [eof] lets one
    more round happen, in which [get] fails. *)
Lemma extract_until_loop_run pred run : forall fuel acc rest file ln col,
  string_forall (fun c => negb (pred c)) run = true ->
  stops (fun c => negb (pred c)) rest = true ->
  (S (String.length run) < fuel)%nat ->
  extract_until_loop fuel pred acc (lexer_at (run ++ rest) goodbit file ln col)
  = match rest with
    | String _ _ =>
        (acc ++ run, lexer_at rest goodbit file ln (col + Z.of_nat (String.length run)))
    | EmptyString =>
        if pred eof
        then (acc ++ run, lexer_at "" eofbit file ln (col + Z.of_nat (String.length run)))
        else (acc ++ run ++ String eof_char "",
              lexer_at "" failbit file ln (col + Z.of_nat (String.length run) + 1))
    end.
Proof.
  induction run as [|c run IH]; intros fuel acc rest file ln col Hrun Hrest Hfuel.
  - rewrite append_nil. cbn [String.length Z.of_nat]. rewrite Z.add_0_r.
    destruct fuel as [|[|fuel]]; [cbn in Hfuel; lia|cbn in Hfuel; lia|].
    destruct rest as [|d rest].
    + cbn [extract_until_loop source_ok lexer_at source_state peek source].
      destruct (pred eof) eqn:Heof.
      * rewrite append_empty. reflexivity.
      * cbn. rewrite append_nil. reflexivity.
    + cbn [stops] in Hrest. apply negb_true_iff, negb_false_iff in Hrest.
      cbn [extract_until_loop source_ok lexer_at source_state peek source].
      rewrite Hrest, append_empty. reflexivity.
  - rewrite append_cons. destruct fuel as [|fuel]; [cbn in Hfuel; lia|].
    cbn [string_forall] in Hrun. apply andb_prop in Hrun as [Hc Hrun].
    apply negb_true_iff in Hc.
    cbn [extract_until_loop source_ok lexer_at source_state peek source].
    rewrite Hc. cbn [get source_state source lexer_at].
    rewrite char_of_int_of_uchar.
    transitivity (extract_until_loop fuel pred (acc ++ String c "")
                    (lexer_at (run ++ rest) goodbit file ln (col + 1))); [reflexivity|].
    rewrite (IH fuel (acc ++ String c "") rest file ln (col + 1)%Z Hrun Hrest);
      [|cbn in Hfuel; lia].
    cbn [String.length]. rewrite !append_assoc, !append_cons, !append_nil.
    replace (col + 1 + Z.of_nat (String.length run))%Z
      with (col + Z.of_nat (S (String.length run)))%Z by lia.
    reflexivity.
Qed.

Lemma extract_until_run pred run rest file ln col :
  string_forall (fun c => negb (pred c)) run = true ->
  stops (fun c => negb (pred c)) rest = true ->
  extract_until pred (lexer_at (run ++ rest) goodbit file ln col)
  = match rest with
    | String _ _ =>
        (run, lexer_at rest goodbit file ln (col + Z.of_nat (String.length run)))
    | EmptyString =>
        if pred eof
        then (run, lexer_at "" eofbit file ln (col + Z.of_nat (String.length run)))
        else (run ++ String eof_char "",
              lexer_at "" failbit file ln (col + Z.of_nat (String.length run) + 1))
    end.
Proof.
  intros Hrun Hrest. unfold extract_until, rounds.
  rewrite (extract_until_loop_run pred run _ "" rest file ln col Hrun Hrest).
  - destruct rest; [destruct (pred eof)|]; rewrite ?append_nil; reflexivity.
  - cbn [source lexer_at]. rewrite length_app. lia.
Qed.

(** No blank starts a number, a word, a string literal or an operator. *)
Lemma skip_no_blank c rest file ln col :
  is_blank (int_of_uchar c) = false ->
  skip_whitespace (lexer_at (String c rest) goodbit file ln col)
  = lexer_at (String c rest) goodbit file ln col.
Proof.
  intros Hc.
  pose proof (skip_whitespace_blanks "" (String c rest) file ln col eq_refl) as H.
  rewrite append_nil in H. cbn [stops] in H. rewrite Hc in H.
  rewrite (H eq_refl). cbn [String.length Z.of_nat string_is_empty]. rewrite Z.add_0_r.
  reflexivity.
Qed.
End ScanFacts.

(** X14. A string literal is the text between a quote and the next
    quote, taken as it is; the lexer goes on behind the closing quote.
    A literal that is not closed is no error: it runs to the end of the
    text, the byte 255 is appended to it (the failed [get] converted to
    [char]), and the lexer has nothing more to give. *)
Theorem X14_string_literal (text rest file : string) (ln col : Z)
    (Htext : string_forall is_not_quote text = true) :
  get_lexeme (lexer_at (String quote (text ++ String quote rest)) goodbit file ln col)
  = Ok (Some (make_lexeme type_string text file ln
                (col + 1 + Z.of_nat (String.length text))),
        lexer_at rest goodbit file ln (col + 2 + Z.of_nat (String.length text)))
  /\ get_lexeme (lexer_at (String quote text) goodbit file ln col)
     = Ok (Some (make_lexeme type_string (text ++ String eof_char "") file ln
                   (col + 2 + Z.of_nat (String.length text))),
           lexer_at "" failbit file ln (col + 3 + Z.of_nat (String.length text))).
Proof.
  assert (Hrun : string_forall (fun c => negb (is_char quote c)) text = true) by exact Htext.
  split.
  - unfold get_lexeme. rewrite (ScanFacts.skip_no_blank quote _ file ln col eq_refl).
    cbn [source_ok lexer_at source_state peek source].
    change (char_of_int (int_of_uchar quote)) with quote.
    change (negb (int_of_char quote =? eof)%Z) with true.
    change (isdigit (int_of_char quote)) with false.
    change (char_eqb quote quote) with true. cbv iota.
    cbn [get source_state source].
    transitivity
      (let '(text0, l1) :=
         extract_until (is_char quote)
           (lexer_at (text ++ String quote rest) goodbit file ln (col + 1)) in
       let '(_, l2) := get l1 in
       Ok (Some (here l1 type_string text0), advance_column l2)); [reflexivity|].
    rewrite (ScanFacts.extract_until_run (is_char quote) text (String quote rest)
               file ln (col + 1) Hrun eq_refl).
    cbn. unfold here, lexer_at, advance_column, with_position, with_source. cbn.
    do 3 f_equal. lia.
  - unfold get_lexeme. rewrite (ScanFacts.skip_no_blank quote _ file ln col eq_refl).
    cbn [source_ok lexer_at source_state peek source].
    change (char_of_int (int_of_uchar quote)) with quote.
    change (negb (int_of_char quote =? eof)%Z) with true.
    change (isdigit (int_of_char quote)) with false.
    change (char_eqb quote quote) with true. cbv iota.
    cbn [get source_state source].
    transitivity
      (let '(text0, l1) :=
         extract_until (is_char quote)
           (lexer_at (text ++ "") goodbit file ln (col + 1)) in
       let '(_, l2) := get l1 in
       Ok (Some (here l1 type_string text0), advance_column l2));
      [rewrite TextFacts.append_empty; reflexivity|].
    rewrite (ScanFacts.extract_until_run (is_char quote) text ""
               file ln (col + 1) Hrun eq_refl).
    change (is_char quote eof) with false. cbv iota.
    cbn. unfold here, lexer_at, advance_column, with_position, with_source. cbn.
    replace (col + 2 + Z.of_nat (String.length text))%Z
      with (col + 1 + Z.of_nat (String.length text) + 1)%Z by lia.
    replace (col + 3 + Z.of_nat (String.length text))%Z
      with (col + 1 + Z.of_nat (String.length text) + 1 + 1)%Z by lia.
    reflexivity.
Qed.

Lemma X14_witness :
  get_lexeme (lexer_at (String quote ("hi" ++ String quote " & x$")) goodbit "f" 1 6)
  = Ok (Some (make_lexeme type_string "hi" "f" 1 9), lexer_at " & x$" goodbit "f" 1 10).
Proof. exact (proj1 (X14_string_literal "hi" " & x$" "f" 1 6 eq_refl)). Defined.

(** ** Words and integer literals *)

Module LexemeFacts.
Import InputFacts TextFacts LexerFacts ScanFacts.

Lemma alpha_is_plain c :
  isalpha (int_of_uchar c) = true ->
  int_of_char c = int_of_uchar c
  /\ is_blank (int_of_uchar c) = false
  /\ isdigit (int_of_uchar c) = false
  /\ char_eqb c quote = false
  /\ found c SIMPLE_SYMBOLS = false
  /\ char_eqb c "<" = false /\ char_eqb c ">" = false /\ char_eqb c "010" = false.
Proof.
  intros H. unfold is_blank. rewrite char_of_int_of_uchar.
  assert (Hne : forall d, isalpha (int_of_uchar d) = false -> char_eqb c d = false).
  { intros d Hd. unfold char_eqb. destruct (Ascii.eqb_spec c d) as [->|]; congruence. }
  unfold found, SIMPLE_SYMBOLS, WHITESPACE. cbn [existsb].
  rewrite !Hne by reflexivity.
  unfold isalpha, isupper, islower in H. unfold int_of_char, isdigit.
  repeat split; try reflexivity; [|lia].
  destruct (int_of_uchar c <? 128)%Z eqn:E; lia.
Qed.

Lemma digit_is_plain c :
  isdigit (int_of_uchar c) = true ->
  int_of_char c = int_of_uchar c /\ is_blank (int_of_uchar c) = false.
Proof.
  intros H. unfold is_blank. rewrite char_of_int_of_uchar.
  assert (Hne : forall d, isdigit (int_of_uchar d) = false -> char_eqb c d = false).
  { intros d Hd. unfold char_eqb. destruct (Ascii.eqb_spec c d) as [->|]; congruence. }
  unfold found, WHITESPACE. cbn [existsb]. rewrite !Hne by reflexivity.
  unfold isdigit in H. unfold int_of_char.
  split; [|reflexivity]. destruct (int_of_uchar c <? 128)%Z eqn:E; lia.
Qed.

(** The text of a number lexeme: leading zeros are dropped, unless the
    text is one character long or has nothing but zeros. *)
Lemma number_value text file ln col :
  value (make_lexeme type_number text file ln col)
  = match text with
    | String c (String _ _) =>
        if char_eqb c "0" then default text (from_first_nonzero text) else text
    | _ => text
    end.
Proof.
  destruct text as [|c [|d r]]; [reflexivity| |];
    destruct c as [[] [] [] [] [] [] [] []]; reflexivity.
Qed.

Lemma from_first_nonzero_value s :
  string_forall isdigit s = true ->
  match from_first_nonzero s with
  | Some r => r <> "" /\ string_forall isdigit r = true
              /\ decimal_value r 0%Z = decimal_value s 0%Z
  | None => True
  end.
Proof.
  induction s as [|c s IH]; intros Hs; [exact I|].
  cbn [from_first_nonzero]. unfold char_eqb.
  destruct (Ascii.eqb_spec c "0") as [->|Hc].
  - cbn [string_forall] in Hs. apply andb_prop in Hs as [_ Hs]. specialize (IH Hs).
    destruct (from_first_nonzero s) as [r|]; [|exact I].
    destruct IH as (Hne & Hd & Hv). repeat split; auto.
  - repeat split; auto; discriminate.
Qed.

Lemma number_value_digits text file ln col :
  text <> "" -> string_forall isdigit text = true ->
  let text' := value (make_lexeme type_number text file ln col) in
  text' <> "" /\ string_forall isdigit text' = true
  /\ decimal_value text' 0%Z = decimal_value text 0%Z.
Proof.
  intros Hne Hd. cbv zeta. rewrite number_value.
  destruct text as [|c [|d r]]; [congruence|auto|].
  destruct (char_eqb c "0"); [|auto].
  pose proof (from_first_nonzero_value _ Hd) as H.
  destruct (from_first_nonzero (String c (String d r))) as [s|]; cbn [default]; auto.
Qed.
End LexemeFacts.

(** X15. A word is a letter and the letters, digits, [_] and [$] that
    follow it without a gap.  The lexer skips the blanks in front of
    it, takes the whole run, and gives it in lower case, so that the
    spelling of a keyword or of a name does not depend on the case of
    its letters; the place recorded is the column behind the word. *)
Theorem X15_word_lexeme (blanks rest file : string) (c : ascii) (w : string) (ln col : Z)
    (Hblanks : string_forall is_blank blanks = true)
    (Hletter : isalpha (int_of_uchar c) = true)
    (Hword : string_forall isalphanum w = true)
    (Hrest : stops isalphanum rest = true) :
  let behind := (col + Z.of_nat (String.length blanks) + Z.of_nat (S (String.length w)))%Z in
  get_lexeme (lexer_at (blanks ++ String c w ++ rest) goodbit file ln col)
  = Ok (Some {| physical_location :=
                  {| loc_filename := file; loc_line := ln; loc_column := behind |};
                type := type_word;
                value := to_lower (String c w) |},
        lexer_at rest (if string_is_empty rest then eofbit else goodbit) file ln behind).
Proof.
  intros behind.
  destruct (LexemeFacts.alpha_is_plain c Hletter)
    as (Hchar & Hblank & Hdigit & Hquote & Hsimple & Hlt & Hgt & Hnl).
  unfold get_lexeme. rewrite InputFacts.append_cons.
  rewrite (LexerFacts.skip_whitespace_blanks blanks (String c (w ++ rest)) file ln col Hblanks);
    [|cbn [stops]; rewrite Hblank; reflexivity].
  cbn [string_is_empty source_ok lexer_at source_state peek source].
  rewrite LexerFacts.char_of_int_of_uchar, Hchar, Hdigit, Hquote, Hsimple, Hlt, Hgt, Hnl, Hletter.
  replace (negb (int_of_uchar c =? eof)%Z) with true
    by (unfold isalpha, isupper, islower, eof in *; lia).
  cbn [orb].
  assert (Hrun : string_forall (fun x => negb (is_not_alnum x)) (String c w) = true).
  { cbn [string_forall]. unfold is_not_alnum. rewrite negb_involutive.
    apply andb_true_intro. split.
    - unfold isalphanum, isalnum. rewrite Hletter. reflexivity.
    - clear -Hword. induction w as [|d w IH]; [reflexivity|]. cbn [string_forall] in *.
      apply andb_prop in Hword as [Hd Hw]. rewrite negb_involutive, Hd. exact (IH Hw). }
  assert (Hstop : stops (fun x => negb (is_not_alnum x)) rest = true).
  { destruct rest as [|d rest]; [reflexivity|]. cbn [stops] in *. unfold is_not_alnum.
    rewrite negb_involutive. exact Hrest. }
  transitivity
    (let '(text, l) :=
       extract_until is_not_alnum
         (lexer_at (String c w ++ rest) goodbit file ln
            (col + Z.of_nat (String.length blanks))) in
     Ok (Some (here l type_word text), l)); [reflexivity|].
  rewrite (ScanFacts.extract_until_run is_not_alnum (String c w) rest file ln _ Hrun Hstop).
  change (is_not_alnum eof) with true. cbv iota.
  destruct rest as [|d rest]; reflexivity.
Qed.

Lemma X15_witness :
  get_lexeme (lexer_at " PrInT x" goodbit "f" 3 0)
  = Ok (Some {| physical_location := {| loc_filename := "f"; loc_line := 3; loc_column := 6 |};
                type := type_word; value := "print" |},
        lexer_at " x" goodbit "f" 3 6).
Proof.
  exact (X15_word_lexeme " " " x" "f" "P" "rInT" 3 0 eq_refl eq_refl eq_refl eq_refl).
Defined.

(** X16. An integer literal is a run of digits that is followed by
    neither a digit nor a point.  The lexer skips the blanks in front
    of it and takes the whole run; the lexeme made of it has lost the
    zeros in front (unless there is nothing but zeros), and when the
    decimal value [v] of the digits is an [int], the constant that the
    parser builds of the lexeme is [v], and [-v] behind a minus sign:
    zeros in front change nothing, and no other base is read. *)
Theorem X16_integer_literal (blanks digits rest file : string) (ln col : Z)
    (Hblanks : string_forall is_blank blanks = true)
    (Hnonempty : digits <> "")
    (Hdigits : string_forall isdigit digits = true)
    (Hrest : ends_integer rest = true)
    (Hrange : (decimal_value digits 0 <= Int.max)%Z) :
  let behind := (col + Z.of_nat (String.length blanks) + Z.of_nat (String.length digits))%Z in
  let x := make_lexeme type_number digits file ln behind in
  get_lexeme (lexer_at (blanks ++ digits ++ rest) goodbit file ln col)
  = Ok (Some x, lexer_at rest (if string_is_empty rest then failbit else goodbit) file ln behind)
  /\ literal_constant 1 (value x) = Number.of_int (decimal_value digits 0)
  /\ literal_constant (-1) (value x) = Number.of_int (- decimal_value digits 0).
Proof.
  intros behind x. split.
  - destruct digits as [|c ds]; [congruence|].
    cbn [string_forall] in Hdigits. pose proof Hdigits as Hall.
    apply andb_prop in Hdigits as [Hc Hds].
    destruct (LexemeFacts.digit_is_plain c Hc) as (Hchar & Hblank).
    unfold get_lexeme. rewrite InputFacts.append_cons.
    rewrite (LexerFacts.skip_whitespace_blanks blanks (String c (ds ++ rest)) file ln col
               Hblanks); [|cbn [stops]; rewrite Hblank; reflexivity].
    cbn [string_is_empty source_ok lexer_at source_state peek source].
    rewrite LexerFacts.char_of_int_of_uchar, Hchar, Hc.
    replace (negb (int_of_uchar c =? eof)%Z) with true by (unfold isdigit, eof in *; lia).
    assert (Hrun : string_forall (fun y => negb (is_not_digit y)) (String c ds) = true).
    { cbn [string_forall]. unfold is_not_digit. rewrite negb_involutive, Hc. cbn [andb].
      clear -Hds. induction ds as [|d ds IH]; [reflexivity|]. cbn [string_forall] in *.
      apply andb_prop in Hds as [Hd Hw]. rewrite negb_involutive, Hd. exact (IH Hw). }
    assert (Hstop : stops (fun y => negb (is_not_digit y)) rest = true).
    { destruct rest as [|d rest]; [reflexivity|]. unfold ends_integer in Hrest.
      cbn [stops] in *. unfold is_not_digit. rewrite negb_involutive.
      apply negb_true_iff, orb_false_elim in Hrest as [Hd _]. rewrite Hd. reflexivity. }
    transitivity
      (let '(whole_part, l) :=
         extract_until is_not_digit
           (lexer_at (String c ds ++ rest) goodbit file ln
              (col + Z.of_nat (String.length blanks))) in
       let '(pk, l) := peek l in
       if (pk =? 46)%Z then
         let '(_, l) := get l in
         let l := advance_column l in
         let '(decimal_part, l) := extract_until is_not_digit l in
         Ok (Some (here l type_number (whole_part ++ "." ++ decimal_part)), l)
       else Ok (Some (here l type_number whole_part), l)); [reflexivity|].
    rewrite (ScanFacts.extract_until_run is_not_digit (String c ds) rest file ln _ Hrun Hstop).
    change (is_not_digit eof) with true. cbv iota.
    destruct rest as [|d rest]; [reflexivity|].
    unfold ends_integer in Hrest. cbn [stops] in Hrest.
    apply negb_true_iff, orb_false_elim in Hrest as [_ Hpoint].
    cbn [peek lexer_at source_state source]. rewrite Hpoint. reflexivity.
  - destruct (LexemeFacts.number_value_digits digits file ln behind Hnonempty Hdigits)
      as (Hne & Hd & Hv).
    fold x in Hne, Hd, Hv.
    assert (Hnonneg : (0 <= decimal_value (value x) 0)%Z).
    { assert (Hacc : forall s a, (0 <= a)%Z -> string_forall isdigit s = true ->
                                 (0 <= decimal_value s a)%Z).
      { induction s as [|d s IH]; intros a Ha Hs; [exact Ha|]. cbn [string_forall] in Hs.
        apply andb_prop in Hs as [Hd0 Hs]. cbn [decimal_value]. apply IH; [|exact Hs].
        unfold digit_value, isdigit in *. lia. }
      apply Hacc; [lia|exact Hd]. }
    assert (Hread : extract_int (value x) = extracted (decimal_value (value x) 0)).
    { apply InputFacts.extract_leading. exists "", "", (value x), "".
      rewrite TextFacts.append_empty. repeat split; auto. }
    unfold literal_constant. rewrite (TextFacts.digits_have_no_point _ Hd). cbn [negb].
    rewrite Hread, Hv in *. unfold extracted.
    unfold Int.min, Int.max in *.
    destruct (decimal_value digits 0 <? -2147483648)%Z eqn:H1; [lia|].
    destruct (2147483647 <? decimal_value digits 0)%Z eqn:H2; [lia|].
    cbn [stored]. unfold Int.mul.
    split; f_equal; rewrite ForFacts.wrap_in_range; unfold Int.min, Int.max; lia.
Qed.

Lemma X16_witness :
  get_lexeme (lexer_at "  007 + 1" goodbit "f" 1 0)
  = Ok (Some (make_lexeme type_number "007" "f" 1 5), lexer_at " + 1" goodbit "f" 1 5)
  /\ literal_constant 1 (value (make_lexeme type_number "007" "f" 1 5)) = Number.of_int 7.
Proof.
  destruct (X16_integer_literal "  " "007" " + 1" "f" 1 0 eq_refl) as (H1 & H2 & _).
  - discriminate.
  - reflexivity.
  - reflexivity.
  - vm_compute. discriminate.
  - split; [exact H1|exact H2].
Defined.

(** ** Operators and stray characters *)

(** X17. The comparison operators of two characters.  Behind [<] or
    [>], the lexer looks for [>] or [=]: [<=], [>=] and [<>] are one
    lexeme each; [>>] is the lexer error "Invalid operator: >>"; any
    other character leaves [<] or [>] a lexeme of its own and is not
    consumed. *)
Theorem X17_comparison_operators (rest file : string) (ln col : Z) (c : ascii) :
  let symbol text behind := Some (make_lexeme type_symbol text file ln behind) in
  get_lexeme (lexer_at (String "<" (String "=" rest)) goodbit file ln col)
  = Ok (symbol "<=" (col + 2)%Z, lexer_at rest goodbit file ln (col + 2))
  /\ get_lexeme (lexer_at (String ">" (String "=" rest)) goodbit file ln col)
     = Ok (symbol ">=" (col + 2)%Z, lexer_at rest goodbit file ln (col + 2))
  /\ get_lexeme (lexer_at (String "<" (String ">" rest)) goodbit file ln col)
     = Ok (symbol "<>" (col + 2)%Z, lexer_at rest goodbit file ln (col + 2))
  /\ get_lexeme (lexer_at (String ">" (String ">" rest)) goodbit file ln col)
     = Throw (lexer_error "Invalid operator: >>")
  /\ (char_eqb c ">" = false -> char_eqb c "=" = false ->
      get_lexeme (lexer_at (String "<" (String c rest)) goodbit file ln col)
      = Ok (symbol "<" (col + 1)%Z, lexer_at (String c rest) goodbit file ln (col + 1))
      /\ get_lexeme (lexer_at (String ">" (String c rest)) goodbit file ln col)
         = Ok (symbol ">" (col + 1)%Z, lexer_at (String c rest) goodbit file ln (col + 1))).
Proof.
  cbv zeta.
  split; [|split; [|split; [|split]]];
    try (unfold get_lexeme; rewrite ScanFacts.skip_no_blank by reflexivity;
         replace (col + 2)%Z with (col + 1 + 1)%Z by lia; vm_compute; reflexivity).
  intros Hgt Heq.
  assert (H62 : (int_of_uchar c =? 62)%Z = false).
  { apply Z.eqb_neq. intros E. unfold char_eqb in Hgt.
    rewrite <- (LexerFacts.char_of_int_of_uchar c), E in Hgt. discriminate Hgt. }
  assert (H61 : (int_of_uchar c =? 61)%Z = false).
  { apply Z.eqb_neq. intros E. unfold char_eqb in Heq.
    rewrite <- (LexerFacts.char_of_int_of_uchar c), E in Heq. discriminate Heq. }
  split; unfold get_lexeme; rewrite ScanFacts.skip_no_blank by reflexivity;
    cbn [source_ok lexer_at source_state peek source];
    rewrite !LexerFacts.char_of_int_of_uchar.
  - change (int_of_char "<") with 60%Z. cbn -[extract_until int_of_uchar].
    rewrite H62. cbn [orb]. rewrite H61. reflexivity.
  - change (int_of_char ">") with 62%Z. cbn -[extract_until int_of_uchar].
    rewrite H62. cbn [orb]. rewrite H61. reflexivity.
Qed.

Lemma X17_witness :
  get_lexeme (lexer_at "< 2" goodbit "f" 1 4)
  = Ok (Some (make_lexeme type_symbol "<" "f" 1 5), lexer_at " 2" goodbit "f" 1 5).
Proof.
  exact (proj1 (proj2 (proj2 (proj2 (proj2 (X17_comparison_operators "2" "f" 1 4 " "))))
                  eq_refl eq_refl)).
Defined.

(** X18. A character that is not a blank and starts no lexeme is the
    lexer error "Invalid character at input", with the character and
    its code; the byte 255 is the exception: as a [char], which is
    signed, it compares equal to [eof] and is taken for the end of the
    input, so the lexer gives no lexeme and the text behind it is never
    read. *)
Theorem X18_invalid_character (c : ascii) (rest file : string) (ln col : Z) :
  (is_blank (int_of_uchar c) = false -> starts_lexeme c = false -> c <> eof_char ->
   get_lexeme (lexer_at (String c rest) goodbit file ln col)
   = Throw (lexer_error ("Invalid character at input: '" ++ String c ""
                           ++ "' (" ++ string_of_int (int_of_uchar c) ++ ")")))
  /\ get_lexeme (lexer_at (String eof_char rest) goodbit file ln col)
     = Ok (None, lexer_at (String eof_char rest) goodbit file ln col).
Proof.
  split.
  - intros Hblank Hstart Hc. unfold get_lexeme.
    rewrite (ScanFacts.skip_no_blank c rest file ln col Hblank).
    cbn [source_ok lexer_at source_state peek source].
    rewrite LexerFacts.char_of_int_of_uchar.
    unfold starts_lexeme in Hstart.
    repeat (apply orb_false_elim in Hstart as [Hstart ?]).
    assert (Heof : (int_of_char c =? eof)%Z = false).
    { apply Z.eqb_neq. intros E. apply Hc. unfold eof_char.
      rewrite <- (LexerFacts.char_of_int_of_uchar c). unfold int_of_char, eof in *.
      pose proof (N_ascii_bounded c). unfold int_of_uchar in *.
      destruct (Z.of_N (N_of_ascii c) <? 128)%Z eqn:E'; [lia|].
      replace (Z.of_N (N_of_ascii c)) with 255%Z by lia. reflexivity. }
    rewrite Heof. cbn [negb].
    repeat match goal with H : _ = false |- _ => rewrite H; clear H end.
    cbn [orb]. reflexivity.
  - unfold get_lexeme. rewrite ScanFacts.skip_no_blank by reflexivity. reflexivity.
Qed.

Lemma X18_witness :
  get_lexeme (lexer_at "#1" goodbit "f" 1 0)
  = Throw (lexer_error "Invalid character at input: '#' (35)").
Proof.
  refine (proj1 (X18_invalid_character "#" "1" "f" 1 0) eq_refl eq_refl _). discriminate.
Defined.

(** ** The shape of parsed expressions *)

Module ParsingFacts.
Lemma bind_ok {A B} (m : parsing A) (k : A -> parsing B) p r :
  (m ≫= k) p = Ok r -> exists a p1, m p = Ok (a, p1) /\ k a p1 = Ok r.
Proof.
  unfold mbind, parsing_bind. destruct (m p) as [[a p1]| | |]; try discriminate. eauto.
Qed.

Lemma ret_ok {A} (a b : A) p p' : (mret a : parsing A) p = Ok (b, p') -> a = b.
Proof. unfold mret, parsing_ret. congruence. Qed.
End ParsingFacts.

Tactic Notation "bind_in" hyp(H) "as" ident(a) ident(Ha) :=
  let q := fresh "q" in apply ParsingFacts.bind_ok in H as (a & q & Ha & H).

Module ShapeFacts.
Import ParsingFacts.
Lemma parse_factor_shaped fuel :
  gives_well_formed (parse_numeric_expr fuel) ->
  gives_well_formed (parse_factor (S fuel)).
Proof.
  intros IH p e p' H. cbn [parse_factor] in H.
  bind_in H as minus Hminus. cbv zeta in H. bind_in H as x Hx. destruct x as [x|].
  { apply ret_ok in H. subst e. reflexivity. }
  bind_in H as y Hy. destruct y as [y|].
  { destruct (is_string_identifier (value y)) eqn:E; cbn [negb] in H; [discriminate|].
    destruct (0 <? _)%Z; apply ret_ok in H; subst e; cbn; rewrite E; reflexivity. }
  bind_in H as z Hz. destruct z as [z|].
  { bind_in H as sub Hsub. bind_in H as close Hclose. apply ret_ok in H. subst.
    eapply IH; eassumption. }
  bind_in H as w Hw. destruct w as [w|]; [discriminate|].
  bind_in H as v Hv. discriminate.
Qed.

Lemma parse_term_shaped fuel :
  gives_well_formed (parse_factor fuel) ->
  gives_well_formed (parse_term (S fuel)).
Proof.
  intros IH p e p' H. cbn [parse_term] in H.
  bind_in H as l Hl0. pose proof (IH _ _ _ Hl0) as Hl.
  bind_in H as x Hx. destruct x as [x|].
  { bind_in H as r Hr. apply ret_ok in H. subst e. cbn. rewrite Hl.
    eapply IH; eassumption. }
  bind_in H as y Hy. destruct y as [y|].
  { bind_in H as r Hr. apply ret_ok in H. subst e. cbn. rewrite Hl.
    eapply IH; eassumption. }
  bind_in H as z Hz. destruct z as [z|].
  { bind_in H as r Hr. apply ret_ok in H. subst e. cbn. rewrite Hl.
    eapply IH; eassumption. }
  apply ret_ok in H. subst e. exact Hl.
Qed.

Lemma parse_integer_expr_shaped fuel :
  gives_well_formed (parse_term fuel) ->
  gives_well_formed (parse_integer_expr fuel) ->
  gives_well_formed (parse_integer_expr (S fuel)).
Proof.
  intros IHt IHi p e p' H. cbn [parse_integer_expr] in H.
  bind_in H as l Hl0. pose proof (IHt _ _ _ Hl0) as Hl.
  bind_in H as x Hx. destruct x as [x|].
  { bind_in H as r Hr. apply ret_ok in H. subst e. cbn. rewrite Hl.
    eapply IHi; eassumption. }
  bind_in H as y Hy. destruct y as [y|].
  { bind_in H as r Hr. apply ret_ok in H. subst e. cbn. rewrite Hl.
    eapply IHi; eassumption. }
  apply ret_ok in H. subst e. exact Hl.
Qed.

Lemma parse_relational_expr_shaped fuel :
  gives_well_formed (parse_integer_expr fuel) ->
  gives_well_formed (parse_relational_expr (S fuel)).
Proof.
  intros IH p e p' H. cbn [parse_relational_expr] in H.
  bind_in H as l Hl0. pose proof (IH _ _ _ Hl0) as Hl. cbv zeta in H.
  assert (Hgo : forall op q0 e0 q1,
             (right_side ← parse_integer_expr fuel;
              mret (relational_expr l right_side op)) q0 = Ok (e0, q1) ->
             well_formed e0 = true).
  { intros op q0 e0 q1 H0. bind_in H0 as r Hr. apply ret_ok in H0. subst e0. cbn.
    rewrite Hl. eapply IH; eassumption. }
  bind_in H as x1 Hx1. destruct x1; [eapply Hgo; exact H|].
  bind_in H as x2 Hx2. destruct x2; [eapply Hgo; exact H|].
  bind_in H as x3 Hx3. destruct x3; [eapply Hgo; exact H|].
  bind_in H as x4 Hx4. destruct x4; [eapply Hgo; exact H|].
  bind_in H as x5 Hx5. destruct x5; [eapply Hgo; exact H|].
  bind_in H as x6 Hx6. destruct x6; [eapply Hgo; exact H|].
  apply ret_ok in H. subst e. exact Hl.
Qed.

Lemma parse_numeric_expr_shaped fuel :
  gives_well_formed (parse_integer_expr fuel) ->
  gives_well_formed (parse_relational_expr fuel) ->
  gives_well_formed (parse_numeric_expr fuel) ->
  gives_well_formed (parse_numeric_expr (S fuel)).
Proof.
  intros IHi IHr IHn p e p' H. cbn [parse_numeric_expr] in H.
  bind_in H as x Hx. destruct x as [x|].
  { bind_in H as l Hl0. apply ret_ok in H. subst e. cbn. rewrite (IHn _ _ _ Hl0).
    reflexivity. }
  bind_in H as l Hl0. pose proof (IHr _ _ _ Hl0) as Hl. cbv zeta in H.
  bind_in H as y Hy. destruct y as [y|].
  { bind_in H as r Hr. apply ret_ok in H. subst e. cbn. rewrite Hl.
    eapply IHi; eassumption. }
  bind_in H as z Hz. destruct z as [z|].
  { bind_in H as r Hr. apply ret_ok in H. subst e. cbn. rewrite Hl.
    eapply IHi; eassumption. }
  apply ret_ok in H. subst e. exact Hl.
Qed.

Lemma all_shaped fuel :
  gives_well_formed (parse_factor fuel)
  /\ gives_well_formed (parse_term fuel)
  /\ gives_well_formed (parse_integer_expr fuel)
  /\ gives_well_formed (parse_relational_expr fuel)
  /\ gives_well_formed (parse_numeric_expr fuel).
Proof.
  induction fuel as [|fuel (IHf & IHt & IHi & IHr & IHn)].
  - repeat split; intros p e p' H; discriminate H.
  - split; [apply parse_factor_shaped, IHn|].
    split; [apply parse_term_shaped, IHf|].
    split; [apply parse_integer_expr_shaped; assumption|].
    split; [apply parse_relational_expr_shaped, IHi|].
    apply parse_numeric_expr_shaped; assumption.
Qed.

Lemma all_shaped_string fuel :
  gives_well_formed_string (parse_string_atom fuel)
  /\ gives_well_formed_string (parse_string_expr fuel).
Proof.
  induction fuel as [|fuel (IHa & IHe)].
  - split; intros p e p' H; discriminate H.
  - split; intros p e p' H.
    + cbn [parse_string_atom] in H. bind_in H as x Hx. destruct x as [x|].
      { apply ret_ok in H. subst e. reflexivity. }
      bind_in H as y Hy. destruct y as [y|].
      { destruct (is_string_identifier (value y)) eqn:E; [|discriminate].
        apply ret_ok in H. subst e. exact E. }
      bind_in H as z Hz. destruct z as [z|].
      { bind_in H as sub Hsub. bind_in H as close Hclose. apply ret_ok in H. subst.
        eapply IHe; eassumption. }
      bind_in H as w Hw. discriminate.
    + cbn [parse_string_expr] in H. bind_in H as l Hl0. pose proof (IHa _ _ _ Hl0) as Hl.
      bind_in H as x Hx. destruct x as [x|].
      { bind_in H as r Hr. apply ret_ok in H. subst e. cbn. rewrite Hl.
        eapply IHe; eassumption. }
      apply ret_ok in H. subst e. exact Hl.
Qed.

Lemma arith_not_null op a b : arith op a b <> Undefined null_pointer.
Proof.
  destruct op; cbn; try discriminate; intros H;
    unfold Number.div_assign, Number.mod_assign, Int.rem, Int.div, mbind, result_mbind,
      result_bind, mret, result_ret in H;
    repeat case_match; congruence.
Qed.

Lemma get_var_not_undefined name st u : get_var_numeric name st <> Undefined u.
Proof.
  unfold get_var_numeric, get_var. destruct (find_var _ _ _) as [[i v]|]; discriminate.
Qed.

(** The evaluation of a well-formed expression reads no null pointer. *)
Lemma well_formed_not_null st : forall e,
  well_formed e = true -> evaluate e st <> Undefined null_pointer.
Proof.
  fix IH 1. intros [v|name|l r op|l r op|l [r|] op] Hwf; cbn [evaluate well_formed] in *.
  - discriminate.
  - apply get_var_not_undefined.
  - apply andb_prop in Hwf as [Hl Hr]. pose proof (IH l Hl). pose proof (IH r Hr).
    unfold mbind, result_mbind, result_bind.
    destruct (evaluate l st) as [a| | |]; try congruence.
    destruct (evaluate r st) as [b| | |]; try congruence.
    apply arith_not_null.
  - apply andb_prop in Hwf as [Hl Hr]. pose proof (IH l Hl). pose proof (IH r Hr).
    unfold mbind, result_mbind, result_bind.
    destruct (evaluate l st) as [a| | |]; try congruence.
    destruct (evaluate r st) as [b| | |]; congruence.
  - apply andb_prop in Hwf as [Hl Hr]. pose proof (IH l Hl).
    assert (Hr' : well_formed r = true) by (destruct op; [exact Hr|exact Hr|discriminate]).
    pose proof (IH r Hr').
    unfold mbind, result_mbind, result_bind.
    destruct (evaluate l st) as [a| | |]; try congruence.
    destruct op; [| |discriminate];
      destruct (Number.is_true a); try discriminate;
      destruct (evaluate r st) as [b| | |]; congruence.
  - apply andb_prop in Hwf as [Hl Hr]. pose proof (IH l Hl).
    destruct op; try discriminate.
    unfold mbind, result_mbind, result_bind.
    destruct (evaluate l st) as [a| | |]; congruence.
Qed.
End ShapeFacts.

(** X19. What the parser gives for a numeric expression keeps the
    contracts of the expression classes: it names no string variable
    (a name that ends in [$]), NOT has its one operand, AND and OR have
    both; so its evaluation never reads the null right side of a
    boolean expression. *)
Theorem X19_parsed_expression_is_well_formed (fuel : nat) (p p' : parser) (e : numeric_expr)
    (Hparse : parse_numeric_expr fuel p = Ok (e, p')) :
  well_formed e = true /\ forall st, evaluate e st <> Undefined null_pointer.
Proof.
  destruct (ShapeFacts.all_shaped fuel) as (_ & _ & _ & _ & H).
  pose proof (H _ _ _ Hparse) as Hwf. split; [exact Hwf|].
  intros st. apply ShapeFacts.well_formed_not_null, Hwf.
Qed.

Lemma X19_witness :
  exists e p',
    parse_numeric_expr 30 (parser_at "NOT (x + 1 < 3 * y) OR z") = Ok (e, p')
    /\ well_formed e = true.
Proof.
  eexists. eexists. split; [vm_compute; reflexivity|].
  refine (proj1 (X19_parsed_expression_is_well_formed 30
                   (parser_at "NOT (x + 1 < 3 * y) OR z") _ _ _)).
  vm_compute. reflexivity.
Defined.

(** X20. The two kinds of variables are kept apart by their names.  A
    string expression that the parser gives names string variables
    only, and a LET that it gives assigns a numeric expression to a
    name that does not end in [$], or a string expression to a name
    that does: the assertions of the constructors of [let_stmt] and of
    [string_variable_expr] hold of everything the parser builds. *)
Theorem X20_let_is_well_typed (fuel : nat) (p p' : parser) (s : statement)
    (Hparse : parse_let fuel p = Ok (s, p')) :
  well_typed_let s = true.
Proof.
  unfold parse_let in Hparse.
  bind_in Hparse as x Hx. cbv zeta in Hparse.
  bind_in Hparse as eq Heq.
  destruct (is_string_identifier (value x)) eqn:E; cbn [negb] in Hparse.
  - bind_in Hparse as e He. apply ParsingFacts.ret_ok in Hparse. subst s.
    cbn. rewrite E. destruct (ShapeFacts.all_shaped_string fuel) as (_ & H).
    exact (H _ _ _ He).
  - bind_in Hparse as e He. apply ParsingFacts.ret_ok in Hparse. subst s.
    cbn. rewrite E. destruct (ShapeFacts.all_shaped fuel) as (_ & _ & _ & _ & H).
    exact (H _ _ _ He).
Qed.

Lemma X20_witness :
  exists s p',
    parse_let 10 (parser_at ("a$ = b$ & " ++ String quote ("!" ++ String quote nl)))
    = Ok (s, p')
    /\ well_typed_let s = true.
Proof.
  eexists. eexists. split; [vm_compute; reflexivity|].
  refine (X20_let_is_well_typed 10
            (parser_at ("a$ = b$ & " ++ String quote ("!" ++ String quote nl))) _ _ _).
  vm_compute. reflexivity.
Defined.

(** ** The decimal point, signs and terms *)

Module PointFacts.
Import InputFacts TextFacts.

Lemma contains_app c (a b : string) :
  string_contains c (a ++ b) = string_contains c a || string_contains c b.
Proof.
  induction a as [|d a IH]; [reflexivity|].
  rewrite append_cons. cbn [string_contains]. rewrite IH, orb_assoc. reflexivity.
Qed.

Lemma show_digits_point d x : string_contains "." (show_digits d x) = true.
Proof.
  unfold show_digits.
  destruct (_ && _); [destruct (0 <=? x)%Z|]; rewrite ?contains_app;
    cbn [string_contains]; change (char_eqb "." ".") with true;
    rewrite ?orb_true_r; reflexivity.
Qed.

Lemma show_double_point d : string_contains "." (show_double d) = is_finite d.
Proof.
  destruct d as [s|s| |s m e]; cbn [show_double is_finite].
  - destruct s; reflexivity.
  - destruct s; reflexivity.
  - reflexivity.
  - destruct (double_fraction m e) as [num den]. destruct (decimal_round num den) as [ds x].
    rewrite contains_app, show_digits_point. apply orb_true_r.
Qed.

Lemma string_of_int_no_point z : string_contains "." (string_of_int z) = false.
Proof.
  unfold string_of_int. destruct (z <? 0)%Z eqn:E.
  - destruct (string_of_nonneg_spec (- z)) as (_ & Hd & _); [lia|].
    rewrite contains_app, (digits_have_no_point _ Hd). reflexivity.
  - destruct (string_of_nonneg_spec z) as (_ & Hd & _); [lia|].
    exact (digits_have_no_point _ Hd).
Qed.
End PointFacts.

(** X21. The text of a number shows its kind: an integral number is
    written without a decimal point, and a number that is not integral
    is written with one, also when its value is whole (NaN and the
    infinities, which are written as words, apart). *)
Theorem X21_decimal_point_shows_the_kind (num : number) :
  string_contains "." (show_number num)
  = negb (Number.is_integral num) && is_finite (Number.get_floating_point_value num).
Proof.
  unfold show_number. destruct (Number.is_integral num); cbn [negb andb].
  - apply PointFacts.string_of_int_no_point.
  - apply PointFacts.show_double_point.
Qed.

Module OperandFacts.
Import ExpressionFacts.

Lemma symbol_matches text x :
  matches type_symbol (Some text) x = true -> type x = type_symbol /\ value x = text.
Proof.
  unfold matches. intros H. apply andb_prop in H as [Hty Hv].
  apply String.eqb_eq in Hv. destruct (type x); try discriminate. auto.
Qed.

Lemma word_matches text x :
  matches type_word (Some text) x = true -> type x = type_word /\ value x = text.
Proof.
  unfold matches. intros H. apply andb_prop in H as [Hty Hv].
  apply String.eqb_eq in Hv. destruct (type x); try discriminate. auto.
Qed.

Lemma symbol_misses text text' x :
  matches type_symbol (Some text) x = true -> text <> text' ->
  matches type_symbol (Some text') x = false.
Proof.
  intros H Hne. destruct (symbol_matches _ _ H) as [Hty Hv]. unfold matches.
  rewrite Hty, Hv. cbn [e_type_eqb andb]. apply String.eqb_neq. exact Hne.
Qed.

(** A lexeme that stands for an operator of a term is nothing else. *)
Lemma term_operator_only x op :
  term_operator x = Some op ->
  matches type_number None x = false
  /\ matches type_end None x = false
  /\ (forall text, text <> "*" -> text <> "/" -> matches type_symbol (Some text) x = false)
  /\ (forall text, text <> "mod" -> matches type_word (Some text) x = false).
Proof.
  unfold term_operator.
  destruct (matches type_symbol (Some "*") x) eqn:H1;
    [|destruct (matches type_symbol (Some "/") x) eqn:H2;
      [|destruct (matches type_word (Some "mod") x) eqn:H3; [|discriminate]]];
    intros _.
  - destruct (symbol_matches _ _ H1) as [Hty Hv]. unfold matches. rewrite Hty, Hv. cbn [e_type_eqb andb].
    repeat split; auto. intros text Ht _. apply String.eqb_neq. congruence.
  - destruct (symbol_matches _ _ H2) as [Hty Hv]. unfold matches. rewrite Hty, Hv. cbn [e_type_eqb andb].
    repeat split; auto. intros text _ Ht. apply String.eqb_neq. congruence.
  - destruct (word_matches _ _ H3) as [Hty Hv]. unfold matches. rewrite Hty, Hv. cbn [e_type_eqb andb].
    repeat split; auto. intros text Ht. apply String.eqb_neq. congruence.
Qed.

(** The term of two number lexemes with an operator between them. *)
Lemma parse_term_pair f p a m b next l1 l2 l3 op :
  next_symbol p = Some a ->
  get_lexeme (lex p) = Ok (Some m, l1) ->
  get_lexeme l1 = Ok (Some b, l2) ->
  get_lexeme l2 = Ok (next, l3) ->
  type a = type_number -> type b = type_number ->
  term_operator m = Some op ->
  parse_term (S (S f)) p
  = Ok (arith_expr (constant_expr (literal_constant 1 (value a)))
          (constant_expr (literal_constant 1 (value b))) op,
        advance_to p next l3).
Proof.
  intros Ha H1 H2 H3 Hta Htb Hop.
  cbn [parse_term]. unfold mbind, parsing_bind.
  rewrite (parse_factor_number f p a (Some m) l1 Ha Hta H1).
  unfold symbol, word. unfold term_operator in Hop.
  destruct (matches type_symbol (Some "*") m) eqn:E1.
  { injection Hop as <-.
    rewrite (accept_hit _ _ (advance_to p (Some m) l1) m (Some b) l2 eq_refl E1 H2).
    rewrite advance_twice.
    rewrite (parse_factor_number f (advance_to p (Some b) l2) b next l3 eq_refl Htb H3).
    reflexivity. }
  rewrite accept_miss by (cbn; exact E1).
  destruct (matches type_symbol (Some "/") m) eqn:E2.
  { injection Hop as <-.
    rewrite (accept_hit _ _ (advance_to p (Some m) l1) m (Some b) l2 eq_refl E2 H2).
    rewrite advance_twice.
    rewrite (parse_factor_number f (advance_to p (Some b) l2) b next l3 eq_refl Htb H3).
    reflexivity. }
  rewrite accept_miss by (cbn; exact E2).
  destruct (matches type_word (Some "mod") m) eqn:E3; [|discriminate].
  injection Hop as <-.
  rewrite (accept_hit _ _ (advance_to p (Some m) l1) m (Some b) l2 eq_refl E3 H2).
  rewrite advance_twice.
  rewrite (parse_factor_number f (advance_to p (Some b) l2) b next l3 eq_refl Htb H3).
  reflexivity.
Qed.
End OperandFacts.

(** X22. A minus sign in front of a parenthesis is read and dropped:
    the factor [-(e)] is parsed as the factor [(e)] is, so it has the
    value of [e], not of its negative. *)
Theorem X22_minus_before_parenthesis (fuel : nat) (p : parser) (minus open : lexeme)
    (l1 : lexer)
    (Hminus : next_symbol p = Some minus)
    (Hm : matches type_symbol (Some "-") minus = true)
    (H1 : get_lexeme (lex p) = Ok (Some open, l1))
    (Hopen : matches type_symbol (Some "(") open = true) :
  parse_factor (S fuel) p = parse_factor (S fuel) (advance_to p (Some open) l1).
Proof.
  destruct (OperandFacts.symbol_matches _ _ Hopen) as [Hty Hv].
  assert (Hnot_minus : matches type_symbol (Some "-") open = false)
    by (apply (OperandFacts.symbol_misses _ _ _ Hopen); discriminate).
  assert (Hnot_number : matches type_number None open = false)
    by (unfold matches; rewrite Hty; reflexivity).
  assert (Hnot_word : matches type_word None open = false)
    by (unfold matches; rewrite Hty; reflexivity).
  cbn [parse_factor]. unfold mbind, parsing_bind, symbol.
  rewrite (ExpressionFacts.accept_hit _ _ p minus (Some open) l1 Hminus Hm H1).
  rewrite (ExpressionFacts.accept_miss type_symbol (Some "-") (advance_to p (Some open) l1))
    by exact Hnot_minus.
  rewrite !(ExpressionFacts.accept_miss type_number None (advance_to p (Some open) l1))
    by exact Hnot_number.
  rewrite !(ExpressionFacts.accept_miss type_word None (advance_to p (Some open) l1))
    by exact Hnot_word.
  reflexivity.
Qed.

Lemma X22_witness :
  exists p', parse_factor 10 (parser_at "-(5)") = Ok (constant_expr (Number.of_int 5), p').
Proof.
  eexists.
  let m := eval vm_compute in (next_symbol (parser_at "-(5)")) in
  let r := eval vm_compute in (get_lexeme (lex (parser_at "-(5)"))) in
  match m with
  | Some ?minus =>
      match r with
      | Ok (Some ?open, ?l1) =>
          rewrite (X22_minus_before_parenthesis 9 (parser_at "-(5)") minus open l1)
            by (vm_compute; reflexivity)
      end
  end.
  vm_compute. reflexivity.
Defined.

(** X23. A term has one operator at most.  With the number lexemes [a]
    and [b] around an operator of a term ([*], [/] or MOD) and a second
    such operator behind [b], the expression that is parsed is the term
    of [a] and [b], and the second operator is left unread; the end of
    the statement that is expected next is not there, so a line with a
    product of three factors is a syntax error. *)
Theorem X23_one_operator_in_a_term
    (n : nat) (p : parser) (a m1 b m2 : lexeme) (next : option lexeme)
    (l1 l2 l3 l4 : lexer) (op op2 : arith_operator)
    (Ha : next_symbol p = Some a)
    (H1 : get_lexeme (lex p) = Ok (Some m1, l1))
    (H2 : get_lexeme l1 = Ok (Some b, l2))
    (H3 : get_lexeme l2 = Ok (Some m2, l3))
    (H4 : get_lexeme l3 = Ok (next, l4))
    (Hta : type a = type_number) (Htb : type b = type_number)
    (Hop : term_operator m1 = Some op) (Hop2 : term_operator m2 = Some op2) :
  parse_numeric_expr (5 + n) p
  = Ok (arith_expr (constant_expr (literal_constant 1 (value a)))
          (constant_expr (literal_constant 1 (value b))) op,
        advance_to p (Some m2) l3)
  /\ expect type_end None (advance_to p (Some m2) l3)
     = Throw (error ("Expected end of line, got " ++ to_string (type m2)) (Some m2)).
Proof.
  destruct (OperandFacts.term_operator_only _ _ Hop2) as (Hnum & Hend & Hsym & Hword).
  assert (Hnot_not : matches type_word (Some "not") a = false)
    by (unfold matches; rewrite Hta; reflexivity).
  split.
  - change (5 + n) with (S (S (S (S (S n))))).
    cbn [parse_numeric_expr]. unfold mbind at 1, parsing_bind at 1, word.
    rewrite ExpressionFacts.accept_miss by (rewrite Ha; exact Hnot_not).
    unfold mbind at 1, parsing_bind at 1.
    cbn [parse_relational_expr]. unfold mbind at 1, parsing_bind at 1.
    cbn [parse_integer_expr]. unfold mbind at 1, parsing_bind at 1.
    rewrite (OperandFacts.parse_term_pair n p a m1 b (Some m2) l1 l2 l3 op
               Ha H1 H2 H3 Hta Htb Hop).
    unfold mbind, parsing_bind, symbol, word, mret, parsing_ret.
    repeat (rewrite ExpressionFacts.accept_miss
              by (cbn [next_symbol advance_to];
                  first [apply Hsym; discriminate | apply Hword; discriminate])).
    reflexivity.
  - unfold expect, mbind, parsing_bind.
    rewrite ExpressionFacts.accept_miss by (cbn; exact Hend).
    unfold accept_any, peek_symbol, read_symbol, mbind, parsing_bind, result_mbind,
      result_bind, throw.
    cbn [next_symbol lex advance_to]. rewrite H4. reflexivity.
Qed.

Lemma X23_witness :
  exists e p',
    parse_numeric_expr 5 (parser_at ("2 * 3 * 4" ++ nl)) = Ok (e, p')
    /\ (forall st, evaluate e st = Ok (Number.of_int 6))
    /\ exists what, expect type_end None p' = Throw (syntax_error what).
Proof.
  edestruct (X23_one_operator_in_a_term 0 (parser_at ("2 * 3 * 4" ++ nl))) as (Hparse & Hend).
  - vm_compute. reflexivity.
  - vm_compute. reflexivity.
  - vm_compute. reflexivity.
  - vm_compute. reflexivity.
  - vm_compute. reflexivity.
  - reflexivity.
  - reflexivity.
  - reflexivity.
  - reflexivity.
  - eexists. eexists. split; [exact Hparse|]. split.
    + intros st. vm_compute. reflexivity.
    + eexists. exact Hend.
Defined.

(** ** Comments and boolean operands *)

Module CommentFacts.
Import InputFacts TextFacts LexerFacts.

(** [ignore_line] over the rest of a line. *)
Lemma ignore_line_loop_text text : forall fuel rest file ln col,
  string_forall is_not_newline text = true ->
  (String.length text < fuel)%nat ->
  ignore_line_loop fuel (lexer_at (text ++ String "010" rest) goodbit file ln col)
  = lexer_at (String "010" rest) goodbit file ln (col + Z.of_nat (String.length text)).
Proof.
  induction text as [|c text IH]; intros fuel rest file ln col Htext Hfuel.
  - rewrite append_nil. destruct fuel as [|fuel]; [cbn in Hfuel; lia|].
    cbn [String.length Z.of_nat]. rewrite Z.add_0_r. reflexivity.
  - rewrite append_cons. destruct fuel as [|fuel]; [cbn in Hfuel; lia|].
    cbn [string_forall] in Htext. apply andb_prop in Htext as [Hc Htext].
    unfold is_not_newline in Hc. apply negb_true_iff in Hc.
    cbn [ignore_line_loop source_ok lexer_at source_state peek source].
    rewrite Hc. cbn [get source_state source lexer_at].
    transitivity (ignore_line_loop fuel
                    (lexer_at (text ++ String "010" rest) goodbit file ln (col + 1)));
      [reflexivity|].
    rewrite (IH fuel rest file ln (col + 1)%Z Htext); [|cbn in Hfuel; lia].
    cbn [String.length]. f_equal. lia.
Qed.

Lemma ignore_line_text text rest file ln col :
  string_forall is_not_newline text = true ->
  ignore_line (lexer_at (text ++ String "010" rest) goodbit file ln col)
  = lexer_at (String "010" rest) goodbit file ln (col + Z.of_nat (String.length text)).
Proof.
  intros Htext. unfold ignore_line, rounds. apply ignore_line_loop_text; [exact Htext|].
  cbn [source lexer_at]. rewrite length_app. lia.
Qed.
End CommentFacts.

(** X24. A comment.  When a line starts with REM, the lexeme behind REM
    has been read already (as the look-ahead); what is dropped, without
    being read, is the rest of the line on which the lexer stands behind
    that lexeme, and the parser goes on with the end of that line.  So
    the text of a comment is free from its second lexeme on; and a REM
    that stands alone on its line, whose look-ahead is the end of the
    line, makes the parser drop the line that follows it. *)
Theorem X24_comment_drops_the_rest_of_the_line
    (fuel : nat) (label terminating_keyword : string) (p : parser) (r x : lexeme)
    (text rest file : string) (ln col : Z)
    (Hr : next_symbol p = Some r) (Hword : type r = type_word) (Hrem : value r = "rem")
    (H1 : get_lexeme (lex p)
          = Ok (Some x, lexer_at (text ++ String "010" rest) goodbit file ln col))
    (Htext : string_forall is_not_newline text = true) :
  parse_line_from (S fuel) label terminating_keyword p
  = (_ ← read_symbol; parse_line_from fuel label terminating_keyword)
      {| lex := lexer_at (String "010" rest) goodbit file ln
                  (col + Z.of_nat (String.length text));
         next_symbol := Some x;
         allocated := allocated p |}.
Proof.
  assert (Hnum : matches type_number None r = false)
    by (unfold matches; rewrite Hword; reflexivity).
  assert (Hw : matches type_word None r = true)
    by (unfold matches; rewrite Hword; reflexivity).
  cbn [parse_line_from]. unfold mbind at 1, parsing_bind at 1.
  rewrite ExpressionFacts.accept_miss by (rewrite Hr; exact Hnum).
  unfold mbind at 1, parsing_bind at 1.
  rewrite (ExpressionFacts.accept_hit _ _ p r (Some x) _ Hr Hw H1).
  rewrite Hrem. change (negb (String.eqb "rem" "rem")) with false. cbv iota.
  unfold mbind at 1, parsing_bind at 1, skip_comment.
  cbn [lex next_symbol allocated advance_to].
  rewrite (CommentFacts.ignore_line_text text rest file ln col Htext).
  reflexivity.
Qed.

Lemma X24_witness :
  exists p',
    parse_line_from 10 "" "" (parser_at remark_program)
    = Ok ({| line_label := ""; line_statement := Some empty_stmt |}, "", p')
    /\ source (lex p') = " 2" ++ nl.
Proof.
  eexists.
  let m := eval vm_compute in (next_symbol (parser_at remark_program)) in
  let r := eval vm_compute in (get_lexeme (lex (parser_at remark_program))) in
  match m with
  | Some ?rem =>
      match r with
      | Ok (Some ?x, _) =>
          rewrite (X24_comment_drops_the_rest_of_the_line 9 "" "" (parser_at remark_program)
                     rem x "PRINT 1" ("PRINT 2" ++ nl) "<stdin>" 2 0)
            by (vm_compute; reflexivity)
      end
  end.
  split; vm_compute; reflexivity.
Defined.

Module BooleanFacts.
Import ExpressionFacts.

Lemma comparison_only x :
  is_comparison x = true ->
  continues_expression (Some x) = false
  /\ matches type_end None x = false
  /\ (forall text, matches type_word text x = false).
Proof.
  unfold is_comparison. cbn [existsb]. rewrite orb_false_r. intros H.
  assert (Hcase : exists text, matches type_symbol (Some text) x = true
                               /\ text <> "*" /\ text <> "/" /\ text <> "+" /\ text <> "-").
  { repeat (apply orb_prop in H as [H|H]); eexists; (split; [exact H|]);
      repeat split; discriminate. }
  destruct Hcase as (text & Hm & H1 & H2 & H3 & H4).
  destruct (OperandFacts.symbol_matches _ _ Hm) as [Hty Hv].
  unfold continues_expression, continues_term.
  rewrite !(OperandFacts.symbol_misses _ _ _ Hm) by assumption.
  unfold matches. rewrite Hty. cbn [e_type_eqb andb orb]. auto.
Qed.

Lemma boolean_operator_only x op :
  boolean_operator_of x = Some op ->
  continues_expression (Some x) = false
  /\ is_comparison x = false
  /\ matches type_word (Some "not") x = false.
Proof.
  unfold boolean_operator_of.
  assert (Hgo : forall text, matches type_word (Some text) x = true ->
                  text <> "mod" -> text <> "not" ->
                  continues_expression (Some x) = false
                  /\ is_comparison x = false
                  /\ matches type_word (Some "not") x = false).
  { intros text Hm Hmod Hnot. destruct (OperandFacts.word_matches _ _ Hm) as [Hty Hv].
    unfold continues_expression, continues_term, is_comparison, matches.
    rewrite Hty, Hv. cbn [e_type_eqb andb orb existsb].
    rewrite (proj2 (String.eqb_neq _ _) Hmod), (proj2 (String.eqb_neq _ _) Hnot). auto. }
  destruct (matches type_word (Some "and") x) eqn:E1.
  { intros _. apply (Hgo "and" E1); discriminate. }
  destruct (matches type_word (Some "or") x) eqn:E2; [|discriminate].
  intros _. apply (Hgo "or" E2); discriminate.
Qed.

Lemma continues_split next :
  continues_expression next = false ->
  continues_term next = false
  /\ match next with Some x => matches type_symbol (Some "+") x | None => false end = false
  /\ match next with Some x => matches type_symbol (Some "-") x | None => false end = false.
Proof.
  unfold continues_expression. intros H. apply orb_false_elim in H as [Hterm H].
  split; [exact Hterm|]. destruct next as [x|]; [|auto].
  apply orb_false_elim in H as [Hplus Hminus]. auto.
Qed.

(** The additive expression that is one number lexeme. *)
Lemma parse_integer_expr_number f p a next l :
  next_symbol p = Some a -> type a = type_number ->
  get_lexeme (lex p) = Ok (next, l) ->
  continues_expression next = false ->
  parse_integer_expr (S (S (S f))) p
  = Ok (constant_expr (literal_constant 1 (value a)), advance_to p next l).
Proof.
  intros Ha Hta Hl Hnext. destruct (continues_split _ Hnext) as (Hterm & Hplus & Hminus).
  cbn [parse_integer_expr]. unfold mbind, parsing_bind, symbol.
  rewrite (parse_term_number f p a next l Ha Hta Hl Hterm).
  rewrite !accept_miss by (cbn [next_symbol advance_to]; assumption).
  reflexivity.
Qed.
End BooleanFacts.

(** X25. The right operand of AND and OR is an additive expression,
    not a comparison.  With the number lexemes [a] and [b] around AND
    or OR and an operator of comparison behind [b], the expression that
    is parsed is the conjunction (or disjunction) of [a] and [b], and
    the comparison is left unread; the end of the statement that is
    expected next is not there, so a line with [a AND b < c] is a
    syntax error, and a comparison on the right wants parentheses. *)
Theorem X25_right_operand_of_and
    (n : nat) (p : parser) (a w b m : lexeme) (next : option lexeme)
    (l1 l2 l3 l4 : lexer) (op : boolean_operator)
    (Ha : next_symbol p = Some a)
    (H1 : get_lexeme (lex p) = Ok (Some w, l1))
    (H2 : get_lexeme l1 = Ok (Some b, l2))
    (H3 : get_lexeme l2 = Ok (Some m, l3))
    (H4 : get_lexeme l3 = Ok (next, l4))
    (Hta : type a = type_number) (Htb : type b = type_number)
    (Hop : boolean_operator_of w = Some op) (Hm : is_comparison m = true) :
  parse_numeric_expr (5 + n) p
  = Ok (boolean_expr (constant_expr (literal_constant 1 (value a)))
          (Some (constant_expr (literal_constant 1 (value b)))) op,
        advance_to p (Some m) l3)
  /\ expect type_end None (advance_to p (Some m) l3)
     = Throw (error "Expected end of line, got operator" (Some m)).
Proof.
  destruct (BooleanFacts.boolean_operator_only _ _ Hop) as (Hw_expr & Hw_cmp & Hw_not).
  destruct (BooleanFacts.comparison_only _ Hm) as (Hm_expr & Hm_end & Hm_word).
  assert (Hnot_not : matches type_word (Some "not") a = false)
    by (unfold matches; rewrite Hta; reflexivity).
  assert (Hsym : forall text, In text ["="; "<>"; "<"; "<="; ">"; ">="] ->
                              matches type_symbol (Some text) w = false).
  { unfold is_comparison in Hw_cmp. cbn [existsb] in Hw_cmp.
    repeat (apply orb_false_elim in Hw_cmp as [? Hw_cmp]).
    intros text Hin. cbn [In] in Hin.
    repeat destruct Hin as [<-|Hin]; try assumption. destruct Hin. }
  split.
  - change (5 + n) with (S (S (S (S (S n))))).
    cbn [parse_numeric_expr]. unfold mbind at 1, parsing_bind at 1, word.
    rewrite ExpressionFacts.accept_miss by (rewrite Ha; exact Hnot_not).
    unfold mbind at 1, parsing_bind at 1.
    cbn [parse_relational_expr]. unfold mbind at 1, parsing_bind at 1.
    rewrite (BooleanFacts.parse_integer_expr_number n p a (Some w) l1 Ha Hta H1 Hw_expr).
    unfold mbind, parsing_bind, symbol, mret, parsing_ret.
    repeat (rewrite ExpressionFacts.accept_miss
              by (cbn [next_symbol advance_to]; apply Hsym; cbn; tauto)).
    unfold boolean_operator_of in Hop.
    destruct (matches type_word (Some "and") w) eqn:E1.
    + injection Hop as <-.
      rewrite (ExpressionFacts.accept_hit _ _ (advance_to p (Some w) l1) w (Some b) l2
                 eq_refl E1 H2).
      rewrite ExpressionFacts.advance_twice.
      rewrite (BooleanFacts.parse_integer_expr_number (S n) (advance_to p (Some b) l2) b (Some m)
                 l3 eq_refl Htb H3 Hm_expr).
      reflexivity.
    + rewrite ExpressionFacts.accept_miss by (cbn [next_symbol advance_to]; exact E1).
      destruct (matches type_word (Some "or") w) eqn:E2; [|discriminate].
      injection Hop as <-.
      rewrite (ExpressionFacts.accept_hit _ _ (advance_to p (Some w) l1) w (Some b) l2
                 eq_refl E2 H2).
      rewrite ExpressionFacts.advance_twice.
      rewrite (BooleanFacts.parse_integer_expr_number (S n) (advance_to p (Some b) l2) b (Some m)
                 l3 eq_refl Htb H3 Hm_expr).
      reflexivity.
  - unfold is_comparison in Hm. cbn [existsb] in Hm. rewrite orb_false_r in Hm.
    assert (Hty : type m = type_symbol).
    { repeat (apply orb_prop in Hm as [Hm|Hm]);
        exact (proj1 (OperandFacts.symbol_matches _ _ Hm)). }
    unfold expect, mbind, parsing_bind.
    rewrite ExpressionFacts.accept_miss by (cbn [next_symbol advance_to]; exact Hm_end).
    unfold accept_any, peek_symbol, read_symbol, mbind, parsing_bind, result_mbind,
      result_bind, throw.
    cbn [next_symbol lex advance_to]. rewrite H4. unfold mret, parsing_ret. cbv beta iota.
    rewrite Hty. reflexivity.
Qed.

Lemma X25_witness :
  exists e p',
    parse_numeric_expr 5 (parser_at ("1 AND 2 < 3" ++ nl)) = Ok (e, p')
    /\ (forall st, evaluate e st = Ok (Number.of_int 1))
    /\ exists what, expect type_end None p' = Throw (syntax_error what).
Proof.
  edestruct (X25_right_operand_of_and 0 (parser_at ("1 AND 2 < 3" ++ nl))) as (Hparse & Hend).
  - vm_compute. reflexivity.
  - vm_compute. reflexivity.
  - vm_compute. reflexivity.
  - vm_compute. reflexivity.
  - vm_compute. reflexivity.
  - reflexivity.
  - reflexivity.
  - reflexivity.
  - reflexivity.
  - eexists. eexists. split; [exact Hparse|]. split.
    + intros st. vm_compute. reflexivity.
    + eexists. exact Hend.
Defined.

(** ** The end of a run *)

(** X26. A run of the main loop that returns, with no exception and no
    operation without a defined result on its way, has left every
    block: the loop is left at its outer test only, and the stack of
    frames is empty then. *)
Theorem X26_a_run_returns_with_no_frame (n : nat) (st st' : interpreter)
    (Hrun : run n st = (Ok tt, st')) :
  blocks st' = [].
Proof.
  unfold run, mbind, interp_bind, modify in Hrun.
  destruct (run_steps n outer_loop (set_should_stop false st)) as [[pt| | |] st1] eqn:Hsteps;
    try discriminate.
  destruct pt; try discriminate. injection Hrun as <-.
  destruct (StreamFacts.flag_at_steps n outer_loop (set_should_stop false st) returned st1
              eq_refl Hsteps) as [Hflag Hbs].
  exact Hbs.
Qed.

Lemma X26_witness :
  exists st',
    run 10 (make_interpreter (Block [print_stmt []; empty_stmt] ∅) "") = (Ok tt, st')
    /\ blocks st' = [].
Proof.
  eexists. split; [vm_compute; reflexivity|].
  refine (X26_a_run_returns_with_no_frame 10
            (make_interpreter (Block [print_stmt []; empty_stmt] ∅) "") _ _).
  vm_compute. reflexivity.
Defined.
